(** * bricks.lib.proxies: leases, providers and the pool manager

    A shallow embedding of [bricks/lib/proxies.py], and of [prepare] and
    [invoke] of [bricks/utils/pandora.py].  Python objects that are
    mutated in place (the [Proxy] leases) live in a store and are passed
    around by reference; the external collaborators (HTTP client, queue
    store, dynamic loader, callbacks) are an interface the model is
    parametric in.  Strings are byte strings: the model covers ASCII text. *)

From Stdlib Require Import ZArith Ascii String DecimalString Bool Lia.
From stdpp Require Import base option list gmap strings.

(** ** Python values shared by all classes *)

(** The exceptions the module raises, catches or lets through. *)
Inductive exn :=
| TimeoutError
| AttributeError
| ValueError
| Exception (name : string).

(** A function object.  [Function n] is a function or closure (a recover
    callback handed to a constructor, a lambda built there); [clear_method o]
    is the bound method [self.clear] of the provider whose identity is [o]. *)
Inductive callback :=
| Function (n : nat)
| clear_method (owner : nat).

(** The value of an [Optional[Callable]] attribute whose default is [...]. *)
Inductive slot :=
| Ellipsis
| NoneType
| Callable (f : callback).


(** [callable(x) and x(arg)]: the functions that get called, in order. *)
Definition called (x : slot) : list callback :=
  match x with Callable f => [f] | _ => [] end.

(** A usage threshold: [math.inf] or an integer. *)
Inductive limit :=
| inf
| finite (n : Z).

(** ** class Proxy: one lease *)

Module Proxy.

(** The attributes of a [Proxy].  [counter] is [itertools.count(1)], kept as
    the value its next [next()] yields; [derive] is a reference to the owning
    provider, kept as that provider's identity. *)
Record t := mk {
  threshold : limit;
  counter : Z;
  proxy : option string;
  auth : slot;
  recover : slot;
  clear : slot;
  derive : option nat;
  rkey : option string
}.

(** [Proxy.__init__]; the defaults are [proxy=None, auth=None, recover=...,
    clear=..., threshold=math.inf, derive=None, rkey=None]. *)
Definition __init__ (proxy : option string) (auth recover clear : slot)
    (threshold : limit) (derive : option nat) (rkey : option string) : t :=
  mk threshold 1 proxy auth recover clear derive rkey.

(** [Proxy()] with every default. *)
Definition empty : t := __init__ None NoneType Ellipsis Ellipsis inf None None.

(** [Proxy(proxy)] with the other defaults. *)
Definition of_address (proxy : option string) : t :=
  __init__ proxy NoneType Ellipsis Ellipsis inf None None.

Definition set_counter (v : Z) (self : t) : t :=
  mk (threshold self) v (proxy self) (auth self) (recover self) (clear self)
     (derive self) (rkey self).

Definition set_rkey (k : string) (self : t) : t :=
  mk (threshold self) (counter self) (proxy self) (auth self) (recover self)
     (clear self) (derive self) (Some k).

(** [Proxy.__bool__]: [bool(self.proxy)]. *)
Definition bool (self : t) : Datatypes.bool :=
  match proxy self with
  | Some (String _ _) => true
  | _ => false
  end.

(** What one [use()] does to the lease itself, before any callback runs:
    the lease with its counter moved, the callbacks the call is then to make
    (each on the lease itself) and the value it returns if they return.  The
    method itself, which makes the calls, is [use_lease] below. *)
Definition tick (self : t) : t * list callback * Datatypes.bool :=
  match threshold self with
  | inf => (self, [], true)
  | finite n =>
      let value := counter self in
      let self := set_counter (value + 1) self in
      if (n <=? value)%Z then (self, called (recover self), false)
      else (self, [], true)
  end.

End Proxy.

(** ** str methods used by the module *)

Module str.

Open Scope string_scope.

(** [sep in s] for a one-character [sep]. *)
Fixpoint contains (sep : ascii) (s : string) : bool :=
  match s with
  | "" => false
  | String c s' => if Ascii.eqb c sep then true else contains sep s'
  end.

(** [s.partition(sep)]: text before the first [sep], whether [sep] was found,
    and the text after it; [(s, False, "")] when [sep] does not occur. *)
Fixpoint partition (sep : ascii) (s : string) : string * bool * string :=
  match s with
  | "" => ("", false, "")
  | String c s' =>
      if Ascii.eqb c sep then ("", true, s')
      else
        let '(a, found, b) := partition sep s' in
        (String c a, found, b)
  end.

(** [s.rpartition(sep)]: the same at the last [sep]; [("", False, s)] when
    [sep] does not occur. *)
Fixpoint rpartition (sep : ascii) (s : string) : string * bool * string :=
  match s with
  | "" => ("", false, "")
  | String c s' =>
      let '(a, found, b) := rpartition sep s' in
      if found then (String c a, true, b)
      else if Ascii.eqb c sep then ("", true, s')
      else ("", false, String c b)
  end.

(** [s[n:]]. *)
Fixpoint drop (n : nat) (s : string) : string :=
  match n, s with
  | O, _ => s
  | S n, String _ s' => drop n s'
  | S _, "" => ""
  end.

(** [s[:-1]]. *)
Fixpoint drop_last (s : string) : string :=
  match s with
  | "" => ""
  | String c "" => ""
  | String c s' => String c (drop_last s')
  end.

(** The longest prefix of [s] with no character satisfying [stop], and the
    rest of [s] (which starts at the first such character, if any). *)
Fixpoint break (stop : ascii -> bool) (s : string) : string * string :=
  match s with
  | "" => ("", "")
  | String c s' =>
      if stop c then ("", s)
      else let '(a, b) := break stop s' in (String c a, b)
  end.

Fixpoint all (p : ascii -> bool) (s : string) : bool :=
  match s with
  | "" => true
  | String c s' => p c && all p s'
  end.

Fixpoint filter (p : ascii -> bool) (s : string) : string :=
  match s with
  | "" => ""
  | String c s' => if p c then String c (filter p s') else filter p s'
  end.

Definition code (c : ascii) : nat := nat_of_ascii c.

Definition between (lo hi : nat) (c : ascii) : bool :=
  (lo <=? code c)%nat && (code c <=? hi)%nat.

Definition is_upper : ascii -> bool := between 65 90.
Definition is_lower : ascii -> bool := between 97 122.
Definition is_digit : ascii -> bool := between 48 57.
Definition is_alpha (c : ascii) : bool := is_upper c || is_lower c.

Definition lower_char (c : ascii) : ascii :=
  if is_upper c then ascii_of_nat (code c + 32) else c.

(** [s.lower()] on ASCII text. *)
Fixpoint lower (s : string) : string :=
  match s with
  | "" => ""
  | String c s' => String (lower_char c) (lower s')
  end.

(** [bool(s)]. *)
Definition nonempty (s : string) : bool :=
  match s with "" => false | _ => true end.

(** [int(s)] for a string of ASCII digits, most significant first. *)
Fixpoint int_acc (acc : Z) (s : string) : Z :=
  match s with
  | "" => acc
  | String c s' => int_acc (10 * acc + Z.of_nat (code c - 48)) s'
  end.

Definition int (s : string) : Z := int_acc 0 s.

(** [str(n)] for an integer [n]. *)
Definition of_int (n : Z) : string := NilZero.string_of_int (Z.to_int n).

(** [str(x)] for an optional string: [None] prints as the word None. *)
Definition of_optional (x : option string) : string :=
  match x with Some s => s | None => "None" end.

(** The one-character string holding a double quote. *)
Definition dquote : string := String (ascii_of_nat 34) "".

End str.

(** ** urllib.parse.urlparse, as far as [fmt] reads its result *)

Module urllib.

Open Scope string_scope.

(** [ParseResult]. *)
Record ParseResult := mk {
  scheme : string;
  netloc : string;
  path : string;
  params : string;
  query : string;
  fragment : string
}.

(** Membership in [_WHATWG_C0_CONTROL_OR_SPACE]. *)
Definition c0_control_or_space (c : ascii) : bool := (str.code c <=? 32)%nat.

(** [url.lstrip(_WHATWG_C0_CONTROL_OR_SPACE)]. *)
Fixpoint lstrip (url : string) : string :=
  match url with
  | "" => ""
  | String c url' => if c0_control_or_space c then lstrip url' else url
  end.

(** Membership in [_UNSAFE_URL_BYTES_TO_REMOVE]: tab, carriage return, newline. *)
Definition unsafe_byte (c : ascii) : bool :=
  (str.code c =? 9)%nat || (str.code c =? 13)%nat || (str.code c =? 10)%nat.

(** Membership in [scheme_chars]. *)
Definition scheme_char (c : ascii) : bool :=
  str.is_alpha c || str.is_digit c
  || Ascii.eqb c "+" || Ascii.eqb c "-" || Ascii.eqb c ".".

Definition uses_params : list string :=
  [""; "ftp"; "hdl"; "prospero"; "http"; "imap"; "https"; "shttp"; "rtsp";
   "rtspu"; "sip"; "sips"; "mms"; "sftp"; "tel"].

(** One of the delimiters [/?#] that end the network location. *)
Definition netloc_delim (c : ascii) : bool :=
  Ascii.eqb c "/" || Ascii.eqb c "?" || Ascii.eqb c "#".

(** [_splitnetloc(url, 2)] on a [url] that starts with two slashes, given
    without them: the text up to the earliest of [/?#], and the rest. *)
Definition _splitnetloc (after_slashes : string) : string * string :=
  str.break netloc_delim after_slashes.

(** [_check_bracketed_netloc]; [check_host] is [_check_bracketed_host], which
    asks the [ipaddress] module: [true] when it returns, [false] when it
    raises [ValueError]. *)
Definition _check_bracketed_netloc (check_host : string -> bool)
    (netloc : string) : bool :=
  let hostname_and_port := (str.rpartition "@" netloc).2 in
  let '(before_bracket, have_open_br, bracketed) :=
    str.partition "[" hostname_and_port in
  if have_open_br then
    if str.nonempty before_bracket then false
    else
      let '(hostname, _, port) := str.partition "]" bracketed in
      if str.nonempty port
         && negb (match port with String ":" _ => true | _ => false end)
      then false
      else check_host hostname
  else
    let '(hostname, _, port) := str.partition ":" hostname_and_port in
    check_host hostname.

(** [urlsplit(url)] with the default arguments: [(scheme, netloc, url, query,
    fragment)], or [ValueError].  [_checknetloc] only acts on non-ASCII
    text and is left out. *)
Definition urlsplit (check_host : string -> bool) (url : string)
    : exn + (string * string * string * string * string) :=
  let url := lstrip url in
  let url := str.filter (fun c => negb (unsafe_byte c)) url in
  let '(scheme, url) :=
    match str.partition ":" url with
    | (String c0 _ as head, true, rest) =>
        if str.is_alpha c0 && str.all scheme_char head
        then (str.lower head, rest)
        else ("", url)
    | _ => ("", url)
    end in
  let '(netloc, url) :=
    match url with
    | String "/" (String "/" rest) => _splitnetloc rest
    | _ => ("", url)
    end in
  let open := str.contains "[" netloc in
  let close := str.contains "]" netloc in
  if (open && negb close) || (close && negb open) then inl ValueError
  else if open && close && negb (_check_bracketed_netloc check_host netloc)
  then inl ValueError
  else
    let '(url, fragment) :=
      if str.contains "#" url
      then let '(a, _, b) := str.partition "#" url in (a, b)
      else (url, "") in
    let '(url, query) :=
      if str.contains "?" url
      then let '(a, _, b) := str.partition "?" url in (a, b)
      else (url, "") in
    inr (scheme, netloc, url, query, fragment).

(** [_splitparams(url)]. *)
Definition _splitparams (url : string) : string * string :=
  if str.contains "/" url then
    let '(dir, _, last) := str.rpartition "/" url in
    let '(a, found, b) := str.partition ";" last in
    if found then (dir ++ "/" ++ a, b) else (url, "")
  else
    let '(a, found, b) := str.partition ";" url in
    if found then (a, b) else (str.drop_last url, url).

(** [urlparse(url)]. *)
Definition urlparse (check_host : string -> bool) (url : string)
    : exn + ParseResult :=
  match urlsplit check_host url with
  | inl e => inl e
  | inr (scheme, netloc, url, query, fragment) =>
      let '(url, params) :=
        if bool_decide (scheme ∈ uses_params) && str.contains ";" url
        then _splitparams url
        else (url, "") in
      inr (mk scheme netloc url params query fragment)
  end.

(** [_userinfo]: [(username, password)]. *)
Definition _userinfo (r : ParseResult) : option string * option string :=
  let '(userinfo, have_info, hostinfo) := str.rpartition "@" (netloc r) in
  if have_info then
    let '(username, have_password, password) := str.partition ":" userinfo in
    (Some username, if have_password then Some password else None)
  else (None, None).

Definition username (r : ParseResult) : option string := (_userinfo r).1.
Definition password (r : ParseResult) : option string := (_userinfo r).2.

(** [_hostinfo]: [(hostname, port)]. *)
Definition _hostinfo (r : ParseResult) : string * option string :=
  let hostinfo := (str.rpartition "@" (netloc r)).2 in
  let '(_, have_open_br, bracketed) := str.partition "[" hostinfo in
  let '(hostname, port) :=
    if have_open_br then
      let '(hostname, _, port) := str.partition "]" bracketed in
      (hostname, (str.partition ":" port).2)
    else
      let '(hostname, _, port) := str.partition ":" hostinfo in
      (hostname, port) in
  (hostname, if str.nonempty port then Some port else None).

(** The [hostname] property. *)
Definition hostname (r : ParseResult) : option string :=
  let hostname := (_hostinfo r).1 in
  if str.nonempty hostname then
    let '(hostname, percent, zone) := str.partition "%" hostname in
    Some (str.lower hostname ++ (if percent then "%" else "") ++ zone)
  else None.

(** The [port] property: [None], an integer, or [ValueError]. *)
Definition port (r : ParseResult) : exn + option Z :=
  match (_hostinfo r).2 with
  | None => inr None
  | Some port =>
      if str.all str.is_digit port then
        let port := str.int port in
        if (port <=? 65535)%Z then inr (Some port) else inl ValueError
      else inl ValueError
  end.

End urllib.

(** ** json.dumps(obj, default=str) *)

Module json.

Open Scope string_scope.

(** A value handed to [json.dumps]: integers, strings, booleans, [None],
    lists and dicts with string keys (in insertion order), and [Object repr]
    for any other object, which [default=str] turns into the string [repr].
    Floats are not modelled. *)
#[warnings="-register-all"]
Inductive t :=
| Null
| Bool (b : bool)
| Int (n : Z)
| Str (s : string)
| List (items : list t)
| Dict (fields : list (string * t))
| Object (repr : string).

Definition hex_digit (n : nat) : ascii :=
  if (n <? 10)%nat then ascii_of_nat (48 + n) else ascii_of_nat (87 + n).

(** One character as [ensure_ascii] writes it. *)
Definition escape_char (c : ascii) : string :=
  let n := str.code c in
  if Ascii.eqb c (ascii_of_nat 34) then String "\" str.dquote
  else if Ascii.eqb c "\" then "\\"
  else if (n =? 10)%nat then "\n"
  else if (n =? 13)%nat then "\r"
  else if (n =? 9)%nat then "\t"
  else if (n =? 8)%nat then "\b"
  else if (n =? 12)%nat then "\f"
  else if (32 <=? n)%nat && (n <=? 126)%nat then String c ""
  else "\u00" ++ String (hex_digit (n / 16)) (String (hex_digit (n mod 16)) "").

Fixpoint escape (s : string) : string :=
  match s with
  | "" => ""
  | String c s' => escape_char c ++ escape s'
  end.

(** A JSON string literal. *)
Definition quote (s : string) : string := str.dquote ++ escape s ++ str.dquote.

(** [json.dumps(v, default=str)] with the default separators. *)
Fixpoint dumps (v : t) : string :=
  match v with
  | Null => "null"
  | Bool true => "true"
  | Bool false => "false"
  | Int n => str.of_int n
  | Str s => quote s
  | Object repr => quote repr
  | List items =>
      "[" ++
      (fix go (l : list t) : string :=
         match l with
         | [] => ""
         | x :: l' =>
             dumps x ++ match l' with [] => "" | _ => ", " ++ go l' end
         end) items
      ++ "]"
  | Dict fields =>
      "{" ++
      (fix go (l : list (string * t)) : string :=
         match l with
         | [] => ""
         | (k, x) :: l' =>
             quote k ++ ": " ++ dumps x
             ++ match l' with [] => "" | _ => ", " ++ go l' end
         end) fields
      ++ "}"
  end.

End json.

(** ** What the module asks of the Python runtime *)

(** [check_bracketed_host] is [urllib.parse._check_bracketed_host] ([true]
    when it accepts the host); [hash_str] is [hash] on strings and
    [hash_BaseProxy] is [hash(BaseProxy)], the hash of the class object.
    Both hashes are fixed for the life of a process. *)
Class Runtime := {
  check_bracketed_host : string -> bool;
  hash_str : string -> Z;
  hash_BaseProxy : Z
}.

(** ** The object store: leases by reference *)

Section Store.

Context {W : Type}.

(** [heap] holds every [Proxy] object ever created, a reference being an
    index into it; [world] is the state of the external collaborators;
    [calls] lists the callbacks invoked so far with the lease each was given,
    oldest first. *)
Record State := mkState {
  heap : list Proxy.t;
  world : W;
  calls : list (callback * nat)
}.

Inductive Result (A : Type) :=
| Return (a : A) (s : State)
| Raise (e : exn) (s : State).

(** A computation that may mutate the store and may raise. *)
Definition M (A : Type) : Type := State -> Result A.

Definition ret {A} (a : A) : M A := fun s => Return A a s.

Definition bind {A B} (c : M A) (k : A -> M B) : M B :=
  fun s =>
    match c s with
    | Return _ a s' => k a s'
    | Raise _ e s' => Raise B e s'
    end.

Definition raise {A} (e : exn) : M A := fun s => Raise A e s.

(** [try: c  except TimeoutError: h]. *)
Definition except_TimeoutError {A} (c : M A) (h : M A) : M A :=
  fun s =>
    match c s with
    | Raise _ TimeoutError s' => h s'
    | r => r
    end.

(** A constructor call: the new object gets a reference no object has. *)
Definition alloc (p : Proxy.t) : M nat :=
  fun s => Return nat (length (heap s)) (mkState (heap s ++ [p]) (world s) (calls s)).

(** Reading the object behind a reference. *)
Definition deref (l : nat) : M Proxy.t :=
  fun s => Return Proxy.t (default Proxy.empty (heap s !! l)) s.

(** Mutating the object behind a reference in place. *)
Definition modify (l : nat) (f : Proxy.t -> Proxy.t) : M unit :=
  fun s =>
    Return unit tt
      (mkState (alter f l (heap s)) (world s) (calls s)).

End Store.

Arguments State : clear implicits.
Arguments Result : clear implicits.
Arguments M : clear implicits.
Arguments Return {W A}.
Arguments Raise {W A}.

#[global] Instance M_ret {W} : MRet (M W) := @ret W.
#[global] Instance M_bind {W} : MBind (M W) := fun A B k c => bind c k.

(** ** class BaseProxy: what every provider shares *)

(** The class of a provider instance. *)
Inductive provider_class :=
| Api
| Clash
| Redis
| Custom.

(** What a provider's own [get] hands to the wrapper: a [Proxy] object, or
    any other value (a string or [None]). *)
Inductive value :=
| ref (l : nat)
| text (s : option string).

Module BaseProxy.

Open Scope string_scope.

(** A provider instance: its identity [oid], its class, the [key] its
    subclass stores, and the attributes [BaseProxy.__init__] sets. *)
Record t := mk {
  oid : nat;
  class : provider_class;
  key : string;
  scheme : string;
  username : option string;
  password : option string;
  auth : slot;
  threshold : limit;
  recover : slot
}.

(** Truth value of an optional string: neither [None] nor empty. *)
Definition truthy (x : option string) : bool :=
  match x with
  | Some s => str.nonempty s
  | None => false
  end.

(** The credentials prefix [fmt] builds. *)
Definition prefix (self : t) : string :=
  if truthy (username self) && truthy (password self)
  then str.of_optional (username self) ++ ":"
       ++ str.of_optional (password self) ++ "@"
  else "".

(** [BaseProxy.fmt]: the formatted address, or the [ValueError] that
    [urlparse] or the [port] property raised. *)
Definition fmt `{Runtime} (self : t) (proxy : option string) : exn + string :=
  if negb (truthy proxy) then inr ""
  else
    let proxy := str.of_optional proxy in
    match urllib.urlparse check_bracketed_host proxy with
    | inl e => inl e
    | inr parsed =>
        let path := str.nonempty (urllib.path parsed) in
        let netloc := str.nonempty (urllib.netloc parsed) in
        let has_scheme := str.nonempty (urllib.scheme parsed) in
        if path && negb netloc && negb has_scheme then
          inr (scheme self ++ "://" ++ prefix self ++ proxy)
        else if netloc && negb has_scheme then
          inr (scheme self ++ "://" ++ prefix self ++ str.drop 2 proxy)
        else if has_scheme && netloc then
          inr (scheme self ++ "://" ++ prefix self ++ urllib.netloc parsed)
        else if truthy (urllib.username parsed)
                && truthy (urllib.password parsed) then
          match urllib.port parsed with
          | inl e => inl e
          | inr port =>
              inr (scheme self ++ "://"
                   ++ str.of_optional (urllib.username parsed) ++ ":"
                   ++ str.of_optional (urllib.password parsed) ++ "@"
                   ++ str.of_optional (urllib.hostname parsed)
                   ++ str.dquote
                   ++ match port with
                      | Some n => str.of_int n
                      | None => "None"
                      end)
          end
        else inr proxy
    end.

(** The bound method [self.clear], as stored in a lease. *)
Definition clear (self : t) : slot := Callable (clear_method (oid self)).

(** The assignments [_when_get] makes to the lease once it is formatted. *)
Definition adopt (self : t) (address : string) (p : Proxy.t) : Proxy.t :=
  Proxy.mk (threshold self) (Proxy.counter p) (Some address) (auth self)
    (recover self) (clear self) (Some (oid self)) (Proxy.rkey p).

(** [BaseProxy._when_get(raw_method)]: the wrapped method. *)
Definition _when_get `{Runtime} {W} (self : t)
    (raw_method : option Z -> M W value) (timeout : option Z) : M W nat :=
  r ← raw_method timeout;
  proxy ← match r with
          | ref l => mret l
          | text s =>
              alloc (Proxy.__init__ s (auth self) (recover self) Ellipsis
                       (threshold self) (Some (oid self)) None)
          end;
  p ← deref proxy;
  match fmt self (Proxy.proxy p) with
  | inl e => raise e
  | inr address => modify proxy (adopt self address);; mret proxy
  end.

End BaseProxy.

(** ** The external collaborators *)

(** What a call into a collaborator comes back with. *)
Inductive outcome (A : Type) :=
| returns (a : A)
| raises (e : exn).

Arguments returns {A}.
Arguments raises {A}.

(** [World] is the state of everything outside this module: the HTTP
    endpoints, the queue store, the Clash controller, the clock.
    [backend p timeout] stands for the part of provider [p]'s own [get] that
    talks to them until it holds one raw address or gives up: the buffer and
    fetch loop of [ApiProxy], the pop loop of [RedisProxy], the configs
    snapshot of [ClashProxy]; the HTTP client ([bricks.downloader.cffi]) and
    the store ([bricks.db.redis_]) are not part of the sources at hand.
    [instantiate] is the dynamic loader applied to a configuration record:
    [load_objects] on its [ref] field, then [build] with the record's fields
    as keyword arguments; [build] goes through a [pandora.prepare] that takes
    an [ignore] argument, which the [pandora] at hand does not, so the loader
    is a parameter with the interface the spec gives it: it yields a
    provider or raises.  [invoke f l h w] runs the callback [f] on the lease
    behind the reference [l] ([pandora.invoke(f, args=[proxy])], or
    [self.recover(self)] in [Proxy.use]), in the store [h] and the world
    [w].  The callback is handed the lease itself, a mutable object: it may
    write to it, and to any other lease, and may make new ones, so it comes
    back with a store of its own; no object ever leaves the store
    ([invoke_keeps]).  A callback is taken not to call into the manager that
    is running it.  A call that never returns has no outcome; the model
    speaks of calls that return or raise. *)
Class Collaborators := {
  World : Type;
  backend : BaseProxy.t -> option Z -> World -> outcome string * World;
  instantiate : list (string * json.t) -> World -> outcome BaseProxy.t * World;
  invoke : callback -> nat -> list Proxy.t -> World
           -> outcome unit * list Proxy.t * World;
  invoke_keeps : forall f l h w, length h <= length (invoke f l h w).1.2
}.

Section Calls.

Context `{Collaborators}.

(** A call into a collaborator, as a computation on the store. *)
Definition ask {A} (f : World -> outcome A * World) : M World A :=
  fun s =>
    let '(r, w) := f (world s) in
    let s' := mkState (heap s) w (calls s) in
    match r with
    | returns a => Return a s'
    | raises e => Raise e s'
    end.

(** [callable(f) and f(lease)] on the lease behind [l]: what comes back,
    and the store and the world as the call leaves them. *)
Definition applied (f : slot) (l : nat) (h : list Proxy.t) (w : World)
    : outcome unit * list Proxy.t * World :=
  match f with
  | Callable g => invoke g l h w
  | _ => (returns tt, h, w)
  end.

(** [callable(f) and pandora.invoke(f, args=[proxy])] as a computation: the
    call is recorded and run; an exception of the callback is raised. *)
Definition call (f : slot) (l : nat) : M World unit :=
  match f with
  | Callable g =>
      fun s =>
        let '(r, h, w) := invoke g l (heap s) (world s) in
        let s' := mkState h w (calls s ++ [(g, l)]) in
        match r with
        | returns _ => Return tt s'
        | raises e => Raise e s'
        end
  | _ => mret tt
  end.

End Calls.

Section LeaseCalls.

Context `{Collaborators}.

(** [Proxy.use], called on the lease behind the reference [l]: the counter
    moves in place; when the threshold is reached, the recover callback, if
    callable, is called on the lease, and only when it returns does [use]
    return [False]: an exception of the callback leaves [use]. *)
Definition use_lease (l : nat) : M World bool :=
  p ← deref l;
  let '(p', invoked, state) := Proxy.tick p in
  modify l (fun _ => p');;
  foldr (fun f rest => call (Callable f) l;; rest) (mret tt) invoked;;
  mret state.

(** [k] calls of [use] in a row on the lease behind [l]: the values they
    return, first call first.  An exception ends the run. *)
Fixpoint use_times (k : nat) (l : nat) : M World (list bool) :=
  match k with
  | O => mret []
  | S k => b ← use_lease l; bs ← use_times k l; mret (b :: bs)
  end.

End LeaseCalls.

(** ** The providers' own [get] methods

    Each ends by wrapping the raw address in a fresh [Proxy(proxy)]. *)

Module ApiProxy.

(** [ApiProxy.get]: under the lock, take the next address of the buffer,
    fetching over HTTP while it is empty. *)
Definition get `{Collaborators} (self : BaseProxy.t) (timeout : option Z)
    : M World value :=
  proxy ← ask (backend self timeout);
  l ← alloc (Proxy.of_address (Some proxy));
  mret (ref l).

End ApiProxy.

Module RedisProxy.

(** [RedisProxy.get]: pop from the store until an address comes or the
    timeout has passed, then [raise TimeoutError]. *)
Definition get `{Collaborators} (self : BaseProxy.t) (timeout : option Z)
    : M World value :=
  proxy ← ask (backend self timeout);
  l ← alloc (Proxy.of_address (Some proxy));
  mret (ref l).

End RedisProxy.

Module CustomProxy.

(** [CustomProxy.get]: [Proxy(self.key)]. *)
Definition get {W} (self : BaseProxy.t) (timeout : option Z) : M W value :=
  l ← alloc (Proxy.of_address (Some (BaseProxy.key self)));
  mret (ref l).

End CustomProxy.

Module itertools.

(** [itertools.cycle(items)]: the saved items and the index of the next one. *)
Record cycle := mk {
  items : list string;
  position : nat
}.

Definition cycle_of (items : list string) : cycle := mk items 0.

(** [next(c)]: the item and the advanced iterator, or [None] for
    [StopIteration] (no items). *)
Definition next (c : cycle) : option (string * cycle) :=
  match items c !! position c with
  | Some x => Some (x, mk (items c) (S (position c) mod length (items c)))
  | None => None
  end.

End itertools.

Module ClashProxy.

(** The attributes [nodes] reads and writes. *)
Record t := mk {
  selector : string;
  match_ : string -> bool;
  _nodes : option itertools.cycle
}.

(** The default [match]: [str(x) not in ['DIRECT', 'REJECT']]. *)
Definition default_match (x : string) : bool :=
  negb (String.eqb x "DIRECT" || String.eqb x "REJECT").

(** The controller's answer to [GET /proxies]: JSON with the key [proxies],
    of which [nodes] reads the selector group's [now] and [all], or any
    other JSON. *)
Inductive reply :=
| proxies (now : option string) (all : list string)
| other (data : json.t).

(** [nodes.index(now)]. *)
Fixpoint index (now : string) (nodes : list string) : option nat :=
  match nodes with
  | [] => None
  | x :: nodes' =>
      if String.eqb x now then Some O else S <$> index now nodes'
  end.

(** [[*nodes[i + 1:], *nodes[:i + 1]]] when [now in nodes]. *)
Definition reorder (now : option string) (nodes : list string) : list string :=
  match now with
  | Some now =>
      match index now nodes with
      | Some i => drop (i + 1) nodes ++ take (i + 1) nodes
      | None => nodes
      end
  | None => nodes
  end.

(** [ClashProxy.nodes], given the response [_run_cmd] returned: the provider
    afterwards and the value returned. *)
Definition nodes (self : t) (resp : reply) : t * (list string + json.t) :=
  match resp with
  | proxies now all =>
      let nodes := reorder now all in
      (mk (selector self) (match_ self)
          (Some (itertools.cycle_of (List.filter (match_ self) nodes))),
       inl nodes)
  | other data => (self, inr data)
  end.

(** [ClashProxy.get]: [Proxy] of the controller's host and listening port. *)
Definition get `{Collaborators} (self : BaseProxy.t) (timeout : option Z)
    : M World value :=
  proxy ← ask (backend self timeout);
  l ← alloc (Proxy.of_address (Some proxy));
  mret (ref l).

End ClashProxy.

Module Provider.

(** The [get] a provider's class defines. *)
Definition own_get `{Collaborators} (self : BaseProxy.t)
    : option Z -> M World value :=
  match BaseProxy.class self with
  | Api => ApiProxy.get self
  | Clash => ClashProxy.get self
  | Redis => RedisProxy.get self
  | Custom => CustomProxy.get self
  end.

(** The raw address the class's own [get] obtains before it wraps it: the
    fixed [key] of a static provider, what the backend yields for the rest. *)
Definition raw_address `{Collaborators} (self : BaseProxy.t)
    (timeout : option Z) (w : World) : outcome string * World :=
  match BaseProxy.class self with
  | Custom => (returns (BaseProxy.key self), w)
  | _ => backend self timeout w
  end.

(** Modelled from the spec: [pandora.with_metaclass], which decorates
    [BaseProxy], is not in the sources; by the invariant of the spec's data
    model (every Provider formats a raw address through one shared formatting
    rule before wrapping it in a Lease) it installs [_when_get] around the
    class's own [get].  This is [pins.get(timeout=timeout)] as a caller
    sees it. *)
Definition get `{Runtime} `{Collaborators} (self : BaseProxy.t)
    (timeout : option Z) : M World nat :=
  BaseProxy._when_get self (own_get self) timeout.

End Provider.

(** ** class Manager: the pool manager *)

Module Manager.

(** The object behind [self._local].  A [threading.local()] keeps one
    attribute dictionary per thread; a bare [object()] has no attribute
    dictionary: it has none of the attributes the manager asks for and
    refuses to have one set. *)
Inductive scope :=
| threading_local (attrs : gmap nat (gmap string nat))
| object_.

(** The object behind [self._context]. *)
Inductive context :=
| nullcontext
| Lock.

(** A manager: cache scope, guard, and the registry of built providers. *)
Record t := mk {
  _local : scope;
  _context : context;
  container : gmap string BaseProxy.t
}.

(** [Manager.__init__]. *)
Definition __init__ : t := mk (threading_local ∅) nullcontext ∅.

(** One candidate configuration: a declarative record (a dict, its fields in
    insertion order) or a live provider instance. *)
Inductive config :=
| record (fields : list (string * json.t))
| instance (p : BaseProxy.t).

(** [Manager.get_rkey]. *)
Definition get_rkey `{Runtime} (obj : config) : string :=
  let rkey :=
    match obj with
    | instance _ => hash_BaseProxy
    | record fields => hash_str (json.dumps (json.Dict fields))
    end in
  str.of_int rkey.

(** [getattr(self._local, name)] as thread [tid] sees it: the lease's
    reference, or [None] when the attribute is not there. *)
Definition getattr (l : scope) (tid : nat) (name : string) : option nat :=
  match l with
  | threading_local attrs => attrs !! tid ≫= (.!! name)
  | object_ => None
  end.

Definition hasattr (l : scope) (tid : nat) (name : string) : bool :=
  match getattr l tid name with Some _ => true | None => false end.

(** [setattr(self._local, name, v)]. *)
Definition setattr (l : scope) (tid : nat) (name : string) (v : nat)
    : exn + scope :=
  match l with
  | threading_local attrs =>
      inr (threading_local
             (<[tid := <[name := v]> (default ∅ (attrs !! tid))]> attrs))
  | object_ => inl AttributeError
  end.

(** [delattr(self._local, name)]. *)
Definition delattr (l : scope) (tid : nat) (name : string) : exn + scope :=
  match l with
  | threading_local attrs =>
      if hasattr l tid name
      then inr (threading_local
                  (<[tid := delete name (default ∅ (attrs !! tid))]> attrs))
      else inl AttributeError
  | object_ => inl AttributeError
  end.

Definition with_local (l : scope) (self : t) : t :=
  mk l (_context self) (container self).

(** An attribute update on [self._local], as a computation. *)
Definition update_local {W} (self : t) (r : exn + scope) : M W t :=
  match r with
  | inl e => raise e
  | inr l => mret (with_local l self)
  end.

(** [Manager.build]: the provider and the manager afterwards. *)
Definition build `{Runtime} `{Collaborators} (self : t) (obj : config)
    : M World (BaseProxy.t * t) :=
  let rkey := get_rkey obj in
  match container self !! rkey with
  | Some pins => mret (pins, self)
  | None =>
      pins ← match obj with
             | instance p => mret p
             | record fields => ask (instantiate fields)
             end;
      mret (pins,
            mk (_local self) (_context self) (<[rkey := pins]> (container self)))
  end.

(** The body of [if not hasattr(self._local, rkey)] in [Manager.get]:
    build the provider, ask it for a lease, cache the lease if it is not
    empty.  The result is the manager afterwards. *)
Definition acquire `{Runtime} `{Collaborators} (self : t) (tid : nat)
    (obj : config) (timeout : option Z) : M World t :=
  '(pins, self) ← build self obj;
  proxy ← except_TimeoutError (Provider.get pins timeout) (alloc Proxy.empty);
  p ← deref proxy;
  if Proxy.bool p
  then update_local self (setattr (_local self) tid (get_rkey obj) proxy)
  else mret self.

(** [Manager.get] on the candidates [objs], called by thread [tid]: the
    reference of the lease returned and the manager afterwards.  The guard
    [with self._context] is entered and left around the loop; one call runs
    at a time in this model.  [fallback] is the [Proxy()] that Python builds
    for the default argument of [getattr] before the call. *)
Fixpoint get `{Runtime} `{Collaborators} (self : t) (tid : nat)
    (objs : list config) (timeout : option Z) : M World (nat * t) :=
  match objs with
  | [] => l ← alloc Proxy.empty; mret (l, self)
  | obj :: objs' =>
      let rkey := get_rkey obj in
      self ← (if negb (hasattr (_local self) tid rkey)
              then acquire self tid obj timeout
              else mret self);
      fallback ← alloc Proxy.empty;
      let temp := default fallback (getattr (_local self) tid rkey) in
      modify temp (Proxy.set_rkey rkey);;
      p ← deref temp;
      if Proxy.bool p then mret (temp, self)
      else get self tid objs' timeout
  end.

(** [Manager.clear] on [objs], called by thread [tid]. *)
Fixpoint clear `{Runtime} `{Collaborators} (self : t) (tid : nat)
    (objs : list config) : M World t :=
  match objs with
  | [] => mret self
  | config :: objs' =>
      let rkey := get_rkey config in
      match getattr (_local self) tid rkey with
      | Some proxy =>
          p ← deref proxy;
          call (Proxy.clear p) proxy;;
          self ← update_local self (delattr (_local self) tid rkey);
          clear self tid objs'
      | None => clear self tid objs'
      end
  end.

(** [Manager.now] on [objs], called by thread [tid]. *)
Fixpoint now `{Runtime} {W} (self : t) (tid : nat) (objs : list config)
    : M W nat :=
  match objs with
  | [] => alloc Proxy.empty
  | config :: objs' =>
      match getattr (_local self) tid (get_rkey config) with
      | Some proxy => mret proxy
      | None => now self tid objs'
      end
  end.

(** [Manager.set_mode(mode)]. *)
Definition set_mode (self : t) (mode : Z) : t :=
  if (mode =? 0)%Z
  then mk (threading_local ∅) nullcontext (container self)
  else mk object_ Lock (container self).

(** [Manager.recover] on [objs], called by thread [tid]. *)
Fixpoint recover `{Runtime} `{Collaborators} (self : t) (tid : nat)
    (objs : list config) : M World t :=
  match objs with
  | [] => mret self
  | config :: objs' =>
      let rkey := get_rkey config in
      match getattr (_local self) tid rkey with
      | Some proxy =>
          p ← deref proxy;
          call (Proxy.recover p) proxy;;
          self ← update_local self (delattr (_local self) tid rkey);
          recover self tid objs'
      | None => recover self tid objs'
      end
  end.

(** [Manager.use(proxy)] called by thread [tid].  A lease that carries no
    key has [rkey = None], and [hasattr] refuses a name that is not a string
    with [TypeError]. *)
Definition use `{Collaborators} (self : t) (tid : nat) (proxy : nat)
    : M World t :=
  state ← use_lease proxy;
  if state : bool then (mret self : M World t)
  else
    p ← deref proxy;
    match Proxy.rkey p with
    | None => raise (Exception "TypeError")
    | Some rkey =>
        if hasattr (_local self) tid rkey
        then update_local self (delattr (_local self) tid rkey)
        else mret self
    end.

(** [Manager.fresh] on [objs], called by thread [tid]: [clear], then [get]
    with no timeout, both inside [with self._context].  [clear] and [get]
    enter [self._context] themselves; when that is a [threading.Lock], which
    a thread cannot take twice, the inner entry waits for ever: [None]. *)
Definition fresh `{Runtime} `{Collaborators} (self : t) (tid : nat)
    (objs : list config) : option (M World (nat * t)) :=
  match _context self with
  | Lock => None
  | nullcontext => Some (self ← clear self tid objs; get self tid objs None)
  end.

End Manager.

(** ** bricks.utils.pandora: prepare and invoke *)

Module inspect.

(** [inspect.Parameter.kind]. *)
Inductive _ParameterKind :=
| POSITIONAL_ONLY
| POSITIONAL_OR_KEYWORD
| VAR_POSITIONAL
| KEYWORD_ONLY
| VAR_KEYWORD.

(** What [prepare] reads of an [inspect.Parameter] object: its name, kind and
    annotation, and whether [default] differs from [Parameter.empty].  An
    annotation is an object of type [T]; a parameter without one has
    [Parameter.empty] there, which is an object like any other. *)
Record Parameter_ (T : Type) := mk {
  name : string;
  kind : _ParameterKind;
  annotation : T;
  has_default : bool
}.

Arguments mk {T}.
Arguments name {T}.
Arguments kind {T}.
Arguments annotation {T}.
Arguments has_default {T}.

End inspect.

Module pandora.

Import inspect.

(** What [prepare] is given as [func]: something that is not callable, a
    callable for which [inspect.signature] raises (many builtins), or a
    callable with the parameters of its signature, in order. *)
Inductive func (T : Type) :=
| not_callable
| opaque
| def (parameters : list (Parameter_ T)).

Arguments not_callable {T}.
Arguments opaque {T}.
Arguments def {T}.

Section Prepare.

(** Values of type [V], the classes and other annotation objects [T];
    [type_ v] is [type(v)], and [dict_ d] is the dictionary [d] as a value. *)
Context {V T : Type} `{Countable T}.
Context (type_ : V -> T) (dict_ : gmap string V -> V).

(** The named tuple [prepared], without its [func] field, which is the
    [func] given. *)
Record prepared := mk {
  args : list V;
  kwargs : gmap string V
}.

(** How one named parameter gets its value: a value and the position in
    [args] afterwards, nothing (the default is left to the function), or
    no value at all. *)
Inductive choice :=
| take (value : V) (index : nat)
| default_
| missing.

Section Loop.

Context (args_ : list V) (kwargs_ : gmap string V)
  (annotations : gmap T V) (namespace : gmap string V).

(** The [if]/[elif] chain of the loop body. *)
Definition value_of (param : Parameter_ T) (index : nat) : choice :=
  match kwargs_ !! name param with
  | Some value => take value index
  | None =>
      match namespace !! name param with
      | Some value => take value index
      | None =>
          match annotations !! annotation param, args_ !! index with
          | Some a, Some x =>
              if decide (type_ x = annotation param)
              then take x (index + 1)
              else take a index
          | Some a, None => take a index
          | None, Some x => take x (index + 1)
          | None, None =>
              if has_default param then default_ else missing
          end
      end
  end.

(** The loop over [parameters.items()], from position [index] of [args]
    with [new_args] and [new_kwargs] as built so far. *)
Fixpoint loop (parameters : list (Parameter_ T)) (index : nat)
    (new_args : list V) (new_kwargs : gmap string V) : exn + prepared :=
  match parameters with
  | [] => inr (mk new_args new_kwargs)
  | param :: parameters =>
      match kind param with
      | VAR_POSITIONAL =>
          loop parameters (index + length (drop index args_))
            (new_args ++ drop index args_) new_kwargs
      | VAR_KEYWORD =>
          loop parameters index new_args (kwargs_ ∪ new_kwargs)
      | k =>
          match value_of param index with
          | missing => inl (Exception "TypeError")
          | default_ => loop parameters index new_args new_kwargs
          | take value index =>
              let new_args :=
                match k with
                | POSITIONAL_ONLY => new_args ++ [value]
                | _ => new_args
                end in
              let new_kwargs :=
                match k with
                | KEYWORD_ONLY | POSITIONAL_OR_KEYWORD =>
                    <[name param := value]> new_kwargs
                | _ => new_kwargs
                end in
              loop parameters index new_args new_kwargs
          end
      end
  end.

End Loop.

(** [prepare(func, args, kwargs, annotations, namespace)]; an argument left
    out or [None] is the empty list or dictionary. *)
Definition prepare (f : func T) (args_ : list V) (kwargs_ : gmap string V)
    (annotations : gmap T V) (namespace : gmap string V) : exn + prepared :=
  match f with
  | not_callable => inl (Exception "AssertionError")
  | opaque =>
      inr (mk (args_ ++ (if decide (kwargs_ = ∅) then [] else [dict_ kwargs_]))
              ∅)
  | def parameters => loop args_ kwargs_ annotations namespace parameters 0 [] ∅
  end.

(** [invoke]: [prepare], then the call of [func] on the prepared
    positional and keyword arguments, which [call] stands for. *)
Definition invoke {R} (call : list V -> gmap string V -> exn + R)
    (f : func T) (args_ : list V) (kwargs_ : gmap string V)
    (annotations : gmap T V) (namespace : gmap string V) : exn + R :=
  match prepare f args_ kwargs_ annotations namespace with
  | inl e => inl e
  | inr p => call (args p) (kwargs p)
  end.

End Prepare.

Arguments mk {V}.
Arguments args {V}.
Arguments kwargs {V}.

(** A parameter that can be passed by keyword. *)
Definition by_keyword {T} (param : inspect.Parameter_ T) : Prop :=
  inspect.kind param = inspect.POSITIONAL_OR_KEYWORD
  \/ inspect.kind param = inspect.KEYWORD_ONLY.

End pandora.

(** ** class ClashProxy: talking to the controller *)

Module Clash.

Open Scope string_scope.

Definition upper_char (c : ascii) : ascii :=
  if str.is_lower c then ascii_of_nat (str.code c - 32) else c.

(** [s.upper()] on ASCII text. *)
Fixpoint upper (s : string) : string :=
  match s with
  | "" => ""
  | String c s' => String (upper_char c) (upper s')
  end.

(** [bool(v)] for a parsed JSON value. *)
Definition truthy (v : json.t) : bool :=
  match v with
  | json.Null => false
  | json.Bool b => b
  | json.Int n => negb (n =? 0)%Z
  | json.Str s => str.nonempty s
  | json.List items => match items with [] => false | _ => true end
  | json.Dict fields => match fields with [] => false | _ => true end
  | json.Object _ => true
  end.

(** [d.get(k)] on a parsed JSON value: the value under [k], [None] when
    the dictionary has no such key, [AttributeError] when [d] is no
    dictionary. *)
Definition dict_get (d : json.t) (k : string) : exn + json.t :=
  match d with
  | json.Dict fields =>
      inr (default json.Null
             (snd <$> List.find (fun kv => String.eqb kv.1 k) fields))
  | _ => inl AttributeError
  end.

(** [headers.setdefault(k, v)]. *)
Definition setdefault (k v : string) (headers : list (string * string))
    : list (string * string) :=
  if existsb (fun kv => String.eqb kv.1 k) headers then headers
  else headers ++ [(k, v)].

(** The dictionary handed to [self.downloader.fetch]; [url] is what
    [urljoin] made of the key and the command's path. *)
Record request := mk_request {
  url : string;
  method : string;
  params : list (string * json.t);
  body : option json.t;
  headers : list (string * string)
}.

(** What the module reads of a response: [resp.ok], [resp.json()], and what
    [nodes] takes from it through [resp.get]. *)
Record response := mk_response {
  ok : bool;
  json_ : json.t;
  reply_ : ClashProxy.reply
}.

(** The controller and the rest of the outside: the HTTP client
    ([self.downloader.fetch]), [urllib.parse.urljoin], which raises
    [ValueError] on a base it cannot split, the clock ([time.time()] and the
    test [time.time() - ts > cpolicy]) and [str] of a JSON value that is
    neither an integer, a string, a boolean nor [None]. *)
Class Controller := {
  Net : Type;
  Time : Type;
  fetch : request -> Net -> outcome response * Net;
  urljoin : string -> string -> exn + string;
  time : Net -> Time;
  elapsed_over : Net -> Time -> Z -> bool;
  repr : json.t -> string
}.

(** A [ClashProxy] instance. *)
Record t `{Controller} := mk {
  core : ClashProxy.t;
  key : string;
  scheme : string;
  cpolicy : Z;
  ts : Time;
  secret : option string;
  _configs : option json.t;
  now : option string
}.

Section Methods.

Context `{Controller}.

Definition with_cache (nodes : option itertools.cycle)
    (configs : option json.t) (self : t) : t :=
  mk _ (ClashProxy.mk (ClashProxy.selector (core self))
          (ClashProxy.match_ (core self)) nodes)
     (key self) (scheme self) (cpolicy self) (ts self) (secret self)
     configs (now self).

Definition with_core (c : ClashProxy.t) (self : t) : t :=
  mk _ c (key self) (scheme self) (cpolicy self) (ts self) (secret self)
     (_configs self) (now self).

Definition with_now (x : string) (self : t) : t :=
  mk _ (core self) (key self) (scheme self) (cpolicy self) (ts self)
     (secret self) (_configs self) (Some x).

(** The loop of [_run_cmd] with [n] rounds left: the first response that
    arrives and is [ok], or [RuntimeError]. *)
Fixpoint attempts (req : request) (n : nat) (w : Net)
    : (exn + response) * Net :=
  match n with
  | O => (inl (Exception "RuntimeError"), w)
  | S n =>
      match fetch req w with
      | (returns resp, w) =>
          if ok resp then (inr resp, w) else attempts req n w
      | (raises _, w) => attempts req n w
      end
  end.

(** The request [_run_cmd] builds for the joined address [url]. *)
Definition command (self : t) (url method : string)
    (params : list (string * json.t)) (body : option json.t)
    (headers : list (string * string)) : request :=
  let headers :=
    match secret self with
    | Some s =>
        if str.nonempty s
        then setdefault "Authorization" ("Bearer " ++ s) headers
        else headers
    | None => headers
    end in
  mk_request url (upper method) params body headers.

(** [ClashProxy._run_cmd]: the address is joined before the loop, outside
    the [try], so what [urljoin] raises leaves [_run_cmd] at once. *)
Definition _run_cmd (self : t) (uri method : string) (retry : Z)
    (params : list (string * json.t)) (body : option json.t)
    (headers : list (string * string)) (w : Net) : (exn + response) * Net :=
  match urljoin (key self) uri with
  | inl e => (inl e, w)
  | inr url =>
      attempts (command self url method params body headers) (Z.to_nat retry) w
  end.

Definition json_headers : list (string * string) :=
  [("Content-Type", "application/json")].

(** [ClashProxy.switch]. *)
Definition switch (self : t) (name : string) (selector : option string)
    (w : Net) : (exn + bool) * Net :=
  let group :=
    match selector with
    | Some g => if str.nonempty g then g else ClashProxy.selector (core self)
    | None => ClashProxy.selector (core self)
    end in
  match _run_cmd self ("/proxies/" ++ group) "PUT" 5 []
          (Some (json.Dict [("name", json.Str name)])) json_headers w with
  | (inr resp, w) => (inr (ok resp), w)
  | (inl e, w) => (inl e, w)
  end.

(** [ClashProxy.nodes], with the request it makes. *)
Definition nodes (self : t) (name : string) (w : Net)
    : (exn + (list string + json.t)) * t * Net :=
  let action := if str.nonempty name then "/proxies/" ++ name else "/proxies" in
  match _run_cmd self action "GET" 5 [] None [] w with
  | (inr resp, w) =>
      let '(c, r) := ClashProxy.nodes (core self) (reply_ resp) in
      (inr r, with_core c self, w)
  | (inl e, w) => (inl e, self, w)
  end.

(** The [configs] property. *)
Definition configs (self : t) (w : Net) : (exn + json.t) * t * Net :=
  match _configs self with
  | Some c =>
      if truthy c then (inr c, self, w)
      else
        match _run_cmd self "/configs" "GET" 5 [] None [] w with
        | (inr resp, w) =>
            (inr (json_ resp),
             with_cache (ClashProxy._nodes (core self)) (Some (json_ resp)) self,
             w)
        | (inl e, w) => (inl e, self, w)
        end
  | None =>
      match _run_cmd self "/configs" "GET" 5 [] None [] w with
      | (inr resp, w) =>
          (inr (json_ resp),
           with_cache (ClashProxy._nodes (core self)) (Some (json_ resp)) self,
           w)
      | (inl e, w) => (inl e, self, w)
      end
  end.

(** [ClashProxy.clear_cache]. *)
Definition clear_cache (self : t) (force : bool) (w : Net) : t :=
  if force
     || (negb (cpolicy self =? -1)%Z
         && elapsed_over w (ts self) (cpolicy self))
  then with_cache None None self
  else self.

(** [ClashProxy.clear]; the lease it is given is not looked at. *)
Definition clear (self : t) (w : Net) : (exn + unit) * t * Net :=
  let self := clear_cache self false w in
  match ClashProxy._nodes (core self) with
  | None =>
      match nodes self "" w with
      | (inr _, self, w) => (inr tt, self, w)
      | (inl e, self, w) => (inl e, self, w)
      end
  | Some c =>
      match itertools.next c with
      | None => (inl (Exception "StopIteration"), self, w)
      | Some (x, c) =>
          let self :=
            with_now x (with_cache (Some c) (_configs self) self) in
          match switch self x None w with
          | (inr _, w) => (inr tt, self, w)
          | (inl e, w) => (inl e, self, w)
          end
      end
  end.

(** [str(v)] as an f-string writes a JSON value. *)
Definition str_ (v : json.t) : string :=
  match v with
  | json.Null => "None"
  | json.Bool true => "True"
  | json.Bool false => "False"
  | json.Int n => str.of_int n
  | json.Str s => s
  | v => repr v
  end.

(** [ClashProxy.get], up to the address it wraps in [Proxy(...)]. *)
Definition get `{Runtime} (self : t) (timeout : option Z) (w : Net)
    : (exn + string) * t * Net :=
  let self := clear_cache self false w in
  match urllib.urlparse check_bracketed_host (key self) with
  | inl e => (inl e, self, w)
  | inr key_parsed =>
      match configs self w with
      | (inl e, self, w) => (inl e, self, w)
      | (inr configs, self, w) =>
          let second := if String.eqb (scheme self) "http"
                        then "port" else "socks-port" in
          match dict_get configs "mixed-port" with
          | inl e => (inl e, self, w)
          | inr mixed =>
              if truthy mixed
              then (inr (str.of_optional (urllib.hostname key_parsed)
                         ++ ":" ++ str_ mixed), self, w)
              else
                match dict_get configs second with
                | inl e => (inl e, self, w)
                | inr port =>
                    (inr (str.of_optional (urllib.hostname key_parsed)
                          ++ ":" ++ str_ port), self, w)
                end
          end
      end
  end.

(** The [configs] setter, then the deleter it ends with. *)
Definition set_configs (self : t) (v : list (string * json.t)) (w : Net)
    : (exn + unit) * t * Net :=
  let r :=
    match List.find (fun kv => String.eqb kv.1 "path") v with
    | Some (_, path) =>
        let force :=
          default (json.Int 1)
            (snd <$> List.find (fun kv => String.eqb kv.1 "force") v) in
        _run_cmd self "/configs" "PUT" 5 [("force", force)]
          (Some (json.Dict [("path", path)])) json_headers w
    | None =>
        _run_cmd self "/configs" "PATCH" 5 [] (Some (json.Dict v))
          json_headers w
    end in
  match r with
  | (inr _, w) =>
      (inr tt, with_cache (ClashProxy._nodes (core self)) None self, w)
  | (inl e, w) => (inl e, self, w)
  end.

(** The [key] the constructor stores. *)
Definition normalize (key : string) : string :=
  if String.prefix "http://" key then key else "http://" ++ key.

(** [ClashProxy.__init__], as far as the attributes above go; [match_] is
    the predicate given, or the default one. *)
Definition __init__ (key : string) (secret : option string) (cpolicy : Z)
    (selector : string) (match_ : string -> bool) (scheme : string)
    (w : Net) : (exn + t) * Net :=
  let self :=
    mk _ (ClashProxy.mk selector match_ None) (normalize key) scheme cpolicy
       (time w) secret None None in
  if String.eqb (upper selector) "GLOBAL"
  then
    match set_configs self [("mode", json.Str "Global")] w with
    | (inr _, self, w) => (inr self, w)
    | (inl e, _, w) => (inl e, w)
    end
  else (inr self, w).

(** [k] calls of [clear] in a row, stopping at the first that raises. *)
Fixpoint clear_times (k : nat) (self : t) (w : Net)
    : (exn + unit) * t * Net :=
  match k with
  | O => (inr tt, self, w)
  | S k =>
      match clear self w with
      | (inr _, self, w) => clear_times k self w
      | r => r
      end
  end.

(** The world after [n] rounds of [_run_cmd] on [req], and whether the
    round made in [w] fails. *)
Fixpoint after_rounds (req : request) (n : nat) (w : Net) : Net :=
  match n with
  | O => w
  | S n => after_rounds req n (fetch req w).2
  end.

Definition fails (req : request) (w : Net) : bool :=
  match (fetch req w).1 with
  | returns resp => negb (ok resp)
  | raises _ => true
  end.

End Methods.

End Clash.

(** ** ApiProxy and RedisProxy: the loops that wait for an address

    Both [get] methods loop until the backend yields an address or the time
    is up, so they are given as functions of a number of rounds [fuel]:
    [None] means the loop is still running after that many rounds. *)

(** The outside of the two providers: the clock ([time.time()], and the
    tests [time.time() - start < timeout] and [time.time() - start > timeout]
    for a finite [timeout]), [time.sleep(1)], the queue store
    ([self.container.pop(key)] of a [RedisProxy]) and the HTTP client
    ([self.downloader.fetch] of an [ApiProxy], with [bool(res)] of what it
    answers). *)
Class Sources := {
  Env : Type;
  Stamp : Type;
  Response : Type;
  clock : Env -> Stamp;
  elapsed_below : Env -> Stamp -> Z -> bool;
  elapsed_above : Env -> Stamp -> Z -> bool;
  sleep : Env -> Env;
  pop : string -> Env -> outcome (option string) * Env;
  download : string -> list (string * json.t) -> Env -> outcome Response * Env;
  truth : Response -> bool
}.

Module Redis.

Open Scope string_scope.

(** The attribute of a [RedisProxy] that its [get] reads. *)
Record t := mk {
  key : string
}.

Section Get.

Context `{Sources}.

(** The [while] loop of [RedisProxy.get]; a [timeout] of [None] stands for
    [math.inf], below which every elapsed time is. *)
Fixpoint loop (fuel : nat) (self : t) (timeout : option Z) (start : Stamp)
    (env : Env) : option ((exn + string) * Env) :=
  match fuel with
  | O => None
  | S fuel =>
      if match timeout with
         | Some t => elapsed_below env start t
         | None => true
         end
      then
        match pop (key self) env with
        | (returns proxy, env) =>
            if BaseProxy.truthy proxy
            then Some (inr (str.of_optional proxy), env)
            else loop fuel self timeout start (sleep env)
        | (raises e, env) => Some (inl e, env)
        end
      else Some (inl TimeoutError, env)
  end.

(** [RedisProxy.get], up to the address it wraps in [Proxy(...)]. *)
Definition get (fuel : nat) (self : t) (timeout : option Z) (env : Env)
    : option ((exn + string) * Env) :=
  loop fuel self timeout (clock env) env.

End Get.

End Redis.

Module Api.

Open Scope string_scope.

(** The attributes of an [ApiProxy] that [get] and [fetch] read and write;
    [container] is the queue, oldest address first. *)
Record t `{Sources} := mk {
  key : string;
  options : option (list (string * json.t));
  handle_response : Response -> list string;
  container : list string
}.

Section Get.

Context `{Sources}.

Definition with_options (o : list (string * json.t)) (self : t) : t :=
  mk _ (key self) (Some o) (handle_response self) (container self).

Definition with_container (c : list string) (self : t) : t :=
  mk _ (key self) (options self) (handle_response self) c.

(** [options.setdefault(k, v)]. *)
Definition setdefault (k : string) (v : json.t) (o : list (string * json.t))
    : list (string * json.t) :=
  if existsb (fun kv => String.eqb kv.1 k) o then o else o ++ [(k, v)].

(** The [while True] loop of [ApiProxy.fetch], with [options] the
    dictionary it sends. *)
Fixpoint fetch_loop (fuel : nat) (self : t) (o : list (string * json.t))
    (timeout : option Z) (start : Stamp) (env : Env)
    : option ((exn + unit) * t * Env) :=
  match fuel with
  | O => None
  | S fuel =>
      match download (key self) o env with
      | (returns res, env) =>
          if truth res
          then Some (inr tt,
                     with_container (container self ++ handle_response self res)
                       self,
                     env)
          else if match timeout with
                  | Some t => elapsed_above env start t
                  | None => false
                  end
          then Some (inl TimeoutError, self, env)
          else fetch_loop fuel self o timeout start (sleep env)
      | (raises e, env) => Some (inl e, self, env)
      end
  end.

(** [ApiProxy.fetch]; [setdefault] on an [options] that is [None] raises
    [AttributeError]. *)
Definition fetch (fuel : nat) (self : t) (timeout : option Z) (env : Env)
    : option ((exn + unit) * t * Env) :=
  match options self with
  | None => Some (inl AttributeError, self, env)
  | Some o =>
      let o := setdefault "method" (json.Str "GET") o in
      fetch_loop fuel (with_options o self) o timeout (clock env) env
  end.

(** [ApiProxy.get], up to the address it wraps in [Proxy(...)].  One thread
    uses the provider: a [self.container.get(timeout=1)] on an empty queue
    ends in [queue.Empty] a second later. *)
Fixpoint get (fuel : nat) (self : t) (timeout : option Z) (env : Env)
    : option ((exn + string) * t * Env) :=
  match fuel with
  | O => None
  | S fuel =>
      match container self with
      | proxy :: rest => Some (inr proxy, with_container rest self, env)
      | [] =>
          match fetch fuel self timeout (sleep env) with
          | Some (inr _, self, env) => get fuel self timeout env
          | Some (inl e, self, env) => Some (inl e, self, env)
          | None => None
          end
      end
  end.

End Get.

End Api.

(** ** Sample values *)

Open Scope string_scope.

(** A lease with threshold 2 whose recover callback is a function. *)
Definition lease_of_two : Proxy.t :=
  Proxy.__init__ (Some "1.2.3.4:80") NoneType (Callable (Function 0))
    Ellipsis (finite 2) None None.

(** A lease with threshold 1 whose recover callback is function 2 of
    [sample_invoke], the one that raises. *)
Definition lease_raising : Proxy.t :=
  Proxy.__init__ (Some "1.2.3.4:80") NoneType (Callable (Function 2))
    Ellipsis (finite 1) None None.

(** A Clash provider on the default selector group with the default match. *)
Definition clash_global : ClashProxy.t :=
  ClashProxy.mk "GLOBAL" ClashProxy.default_match None.

(** A hash on strings that is easy to compute. *)
Fixpoint sample_hash (acc : Z) (s : string) : Z :=
  match s with
  | "" => acc
  | String c s' => sample_hash (31 * acc + Z.of_nat (str.code c)) s'
  end.

(** A runtime that accepts every bracketed host and hashes with
    [sample_hash]. *)
Definition sample_runtime : Runtime := {|
  check_bracketed_host := fun _ => true;
  hash_str := sample_hash 7;
  hash_BaseProxy := 8765432
|}.

(** The record of a static provider. *)
Definition custom_fields : list (string * json.t) :=
  [("ref", json.Str "bricks.lib.proxies.CustomProxy");
   ("key", json.Str "1.2.3.4:80")].

(** A static provider with no credentials, and one with both. *)
Definition custom_plain : BaseProxy.t :=
  BaseProxy.mk 1 Custom "1.2.3.4:80" "http" None None NoneType inf NoneType.

Definition custom_with_credentials : BaseProxy.t :=
  BaseProxy.mk 2 Custom "1.2.3.4:80" "http" (Some "u") (Some "p") NoneType inf
    NoneType.

(** The record of a queue provider, and the provider the loader makes of it. *)
Definition redis_fields : list (string * json.t) :=
  [("ref", json.Str "bricks.lib.proxies.RedisProxy");
   ("key", json.Str "proxies")].

Definition redis_empty : BaseProxy.t :=
  BaseProxy.mk 3 Redis "proxies" "http" None None NoneType inf
    (Callable (Function 1)).

(** The callbacks of the worked examples: every one returns and writes
    nothing, but for function 2, which raises [RuntimeError] as the [clear]
    of a Clash provider does when its controller is out of reach, and
    function 3, which sets the counter of the lease back to 1. *)
Definition sample_invoke (f : callback) (l : nat) (h : list Proxy.t) (w : nat)
    : outcome unit * list Proxy.t * nat :=
  match f with
  | Function 2 => (raises (Exception "RuntimeError"), h, w)
  | Function 3 => (returns tt, alter (Proxy.set_counter 1) l h, w)
  | _ => (returns tt, h, w)
  end.

Definition sample_invoke_keeps (f : callback) (l : nat) (h : list Proxy.t)
    (w : nat) : length h <= length (sample_invoke f l h w).1.2.
Proof.
  destruct f as [[|[|[|[|n]]]]|o]; cbn; rewrite ?length_alter; lia.
Qed.

(** Collaborators for worked examples.  The world counts the calls made to
    the backend; every queue store is empty, so a queue provider times out,
    while any other backend answers with one address.  The loader knows the
    two records above, and the callbacks are those of [sample_invoke]. *)
Definition sample_collaborators : Collaborators := {|
  World := nat;
  backend := fun p timeout w =>
    (match BaseProxy.class p with
     | Redis => raises TimeoutError
     | _ => returns "5.6.7.8:90"
     end, S w);
  instantiate := fun fields w =>
    (if String.eqb (json.dumps (json.Dict fields))
          (json.dumps (json.Dict redis_fields))
     then returns redis_empty
     else if String.eqb (json.dumps (json.Dict fields))
               (json.dumps (json.Dict custom_fields))
     then returns custom_plain
     else raises (Exception "ImportError"), w);
  invoke := sample_invoke;
  invoke_keeps := sample_invoke_keeps
|}.

(** The store of a process that has created no lease yet. *)
Definition fresh_state : State nat := mkState [] O [].

(** A manager whose thread 0 holds a cached lease of [custom_plain], and the
    store that goes with it. *)
Definition cached_key : string := "8765432".

Definition cached_lease : Proxy.t :=
  Proxy.set_rkey cached_key
    (BaseProxy.adopt custom_plain "http://1.2.3.4:80"
       (Proxy.of_address (Some "1.2.3.4:80"))).

Definition cached_manager : Manager.t :=
  Manager.mk (Manager.threading_local {[ O := {[ cached_key := O ]} ]})
    Manager.nullcontext {[ cached_key := custom_plain ]}.

Definition cached_state : State nat := mkState [cached_lease] O [].

(** The keys of the two records under [sample_runtime], and the stages of a
    [get] over both: the manager once the queue provider is registered, the
    store once that provider has timed out and the loop has moved on, and
    the manager once the static provider is registered too. *)
Definition redis_key : string :=
  Eval vm_compute in @Manager.get_rkey sample_runtime (Manager.record redis_fields).

Definition custom_key : string :=
  Eval vm_compute in @Manager.get_rkey sample_runtime (Manager.record custom_fields).

Definition manager_with_redis : Manager.t :=
  Manager.mk (Manager.threading_local ∅) Manager.nullcontext
    {[ redis_key := redis_empty ]}.

Definition state_after_timeout : State nat :=
  mkState [Proxy.empty; Proxy.set_rkey redis_key Proxy.empty] 1 [].

Definition manager_with_both : Manager.t :=
  Manager.mk (Manager.threading_local ∅) Manager.nullcontext
    (<[ custom_key := custom_plain ]> {[ redis_key := redis_empty ]}).

(** A first [get] of the static record by thread 0 of a new manager: the
    lease it makes, and the manager and the store it leaves. *)
Definition custom_lease : Proxy.t :=
  Proxy.set_rkey custom_key
    (BaseProxy.adopt custom_plain "http://1.2.3.4:80"
       (Proxy.of_address (Some "1.2.3.4:80"))).

Definition manager_after_get : Manager.t :=
  Manager.mk (Manager.threading_local {[ O := {[ custom_key := O ]} ]})
    Manager.nullcontext {[ custom_key := custom_plain ]}.

Definition state_after_get : State nat :=
  mkState [custom_lease; Proxy.empty] O [].

(** [cached_manager] once thread 0 has released its lease, and the store
    after a [clear] (the lease's clear callback has run). *)
Definition released_manager : Manager.t :=
  Manager.mk (Manager.threading_local {[ O := ∅ ]})
    Manager.nullcontext {[ cached_key := custom_plain ]}.

Definition cleared_state : State nat :=
  mkState [cached_lease] O [(clear_method 1, O)].

(** What [fresh] leaves from [cached_manager]: a second lease, cached in
    place of the first. *)
Definition refreshed_manager : Manager.t :=
  Manager.mk (Manager.threading_local {[ O := {[ cached_key := 1 ]} ]})
    Manager.nullcontext {[ cached_key := custom_plain ]}.

Definition refreshed_state : State nat :=
  mkState [cached_lease; cached_lease; Proxy.empty] O [(clear_method 1, O)].

(** [lease_of_two] after one use, handed out under [cached_key] or made by
    hand, and the store holding it. *)
Definition used_lease : Proxy.t :=
  Proxy.set_rkey cached_key (Proxy.set_counter 2 lease_of_two).

Definition used_state : State nat := mkState [used_lease] O [].

Definition handmade_state : State nat :=
  mkState [Proxy.set_counter 2 lease_of_two] O [].

Definition unused_state : State nat := mkState [lease_of_two] O [].

(** Python values for worked examples of [prepare]: JSON-like values, the
    name of the class of each, and a dictionary as a value. *)
Definition sample_type (v : json.t) : string :=
  match v with
  | json.Null => "NoneType"
  | json.Bool _ => "bool"
  | json.Int _ => "int"
  | json.Str _ => "str"
  | json.List _ => "list"
  | json.Dict _ => "dict"
  | json.Object _ => "Proxy"
  end.

Definition sample_dict (d : gmap string json.t) : json.t :=
  json.Dict (map_to_list d).

(** The parameters of a bound [clear(self, proxy: Proxy)], and those of a
    function [def f(proxy, retry=3)]. *)
Definition clear_parameters : list (inspect.Parameter_ string) :=
  [inspect.mk "proxy" inspect.POSITIONAL_OR_KEYWORD "Proxy" false].

Definition retry_parameters : list (inspect.Parameter_ string) :=
  [inspect.mk "proxy" inspect.POSITIONAL_OR_KEYWORD "empty" false;
   inspect.mk "retry" inspect.POSITIONAL_OR_KEYWORD "empty" true].

(** Keyword arguments [proxy=1, verbose=True], and what [prepare] makes of
    them and the positional argument 7 for [retry_parameters]. *)
Definition sample_kwargs : gmap string json.t :=
  {[ "proxy" := json.Int 1; "verbose" := json.Bool true ]}.

Definition sample_prepared : pandora.prepared :=
  pandora.mk [] {[ "proxy" := json.Int 1; "retry" := json.Int 7 ]}.

(** A controller for worked examples: it answers every request with the
    same body, node B active among A, B, C and DIRECT; the world counts the
    requests made, and the clock stands still.  [sample_urljoin] joins a
    base that has no path with an absolute path, and refuses, as
    [urljoin] does, a base with an opening bracket that is never closed. *)
Definition sample_response : Clash.response :=
  Clash.mk_response true (json.Dict [("mode", json.Str "global")])
    (ClashProxy.proxies (Some "B") ["A"; "B"; "C"; "DIRECT"]).

Definition sample_urljoin (base uri : string) : exn + string :=
  if str.contains "[" base && negb (str.contains "]" base)
  then inl (Exception "ValueError")
  else inr (base ++ uri).

Definition sample_controller : Clash.Controller := {|
  Clash.Net := nat;
  Clash.Time := nat;
  Clash.fetch := fun _ w => (returns sample_response, S w);
  Clash.urljoin := sample_urljoin;
  Clash.time := fun _ => O;
  Clash.elapsed_over := fun _ _ _ => false;
  Clash.repr := fun _ => "..."
|}.

(** A provider on that controller: as constructed, with the node list
    loaded, with a match predicate that rejects every node, with a
    configuration cached, and one whose key was given with [https://]. *)
Definition clash_new : @Clash.t sample_controller :=
  Clash.mk sample_controller clash_global "http://127.0.0.1:9090" "http" (-1)
    O None None None.

Definition clash_loaded : @Clash.t sample_controller :=
  Clash.mk sample_controller
    (ClashProxy.mk "GLOBAL" ClashProxy.default_match
       (Some (itertools.cycle_of ["C"; "A"; "B"])))
    "http://127.0.0.1:9090" "http" (-1) O None None None.

Definition clash_picky : @Clash.t sample_controller :=
  Clash.mk sample_controller (ClashProxy.mk "GLOBAL" (fun _ => false) None)
    "http://127.0.0.1:9090" "http" (-1) O None None None.

Definition clash_configured : @Clash.t sample_controller :=
  Clash.mk sample_controller clash_global "http://127.0.0.1:9090" "socks5"
    (-1) O None
    (Some (json.Dict [("port", json.Int 7890); ("mixed-port", json.Int 0)]))
    None.

(** A provider whose key [urljoin] cannot split. *)
Definition clash_unsplittable : @Clash.t sample_controller :=
  Clash.mk sample_controller (ClashProxy.mk "nodes" ClashProxy.default_match None)
    "http://[" "http" (-1) O None None None.

Definition clash_https : @Clash.t sample_controller :=
  Clash.mk sample_controller clash_global
    (Clash.normalize "https://ctl.example:9090") "http" (-1) O None
    (Some (json.Dict [("mixed-port", json.Int 7890)])) None.

(** Sources for worked examples.  The world is the number of seconds gone
    by; the store yields nothing for the first two seconds and the address
    9.9.9.9:9 from then on; the API answers every request with a body, here
    the number of addresses it holds. *)
Definition sample_sources : Sources := {|
  Env := nat;
  Stamp := nat;
  Response := nat;
  clock := fun env => env;
  elapsed_below := fun env start t => (Z.of_nat (env - start) <? t)%Z;
  elapsed_above := fun env start t => (t <? Z.of_nat (env - start))%Z;
  sleep := S;
  pop := fun _ env =>
    (returns (if (env <? 2)%nat then None else Some "9.9.9.9:9"), env);
  download := fun _ _ env => (returns O, env);
  truth := fun _ => true
|}.

(** An [ApiProxy] made with the key alone, and one made with [options] whose
    API returns bodies without any address. *)
Definition api_without_options : @Api.t sample_sources :=
  Api.mk sample_sources "http://api.example/get" None
    (fun n => replicate n "1.2.3.4:80") [].

Definition api_with_options : @Api.t sample_sources :=
  Api.mk sample_sources "http://api.example/get" (Some [])
    (fun n => replicate n "1.2.3.4:80") [].

(** ** Shapes of addresses, for stating what [fmt] does *)

(** A URL scheme as [urlsplit] recognises one: an ASCII letter followed by
    characters of [scheme_chars]. *)
Definition valid_scheme (sch : string) : bool :=
  match sch with
  | "" => false
  | String c0 _ => str.is_alpha c0 && str.all urllib.scheme_char sch
  end.

(** A character of a plain authority: none of the delimiters [/?#], no
    bracket, no tab, carriage return or newline. *)
Definition authority_char (c : ascii) : bool :=
  negb (urllib.netloc_delim c) && negb (urllib.unsafe_byte c)
  && negb (Ascii.eqb c "[") && negb (Ascii.eqb c "]").

(** A non-empty authority such as [host:port] or [user:pass@host:port]. *)
Definition authority (a : string) : bool :=
  str.nonempty a && str.all authority_char a.

(** A bare [host:port] as the address extractor yields it: a plain
    authority that starts with a digit and holds no semicolon. *)
Definition bare_address (a : string) : bool :=
  match a with
  | "" => false
  | String c0 _ =>
      str.is_digit c0 && str.all authority_char a
      && negb (str.contains ";" a)
  end.

(** A host name as a controller address holds one: non-empty, plain
    authority characters, and none of [:], [@], [%]. *)
Definition plain_host (h : string) : bool :=
  str.nonempty h
  && str.all (fun c => authority_char c && negb (Ascii.eqb c ":")
                       && negb (Ascii.eqb c "@") && negb (Ascii.eqb c "%")) h.

(** ** Invariants of the store and the cache *)

(** Every object of [s] is still there in [s'], as empty or as non-empty as
    it was. *)
Definition persists {W} (s s' : State W) : Prop :=
  forall l p, heap s !! l = Some p ->
    exists p', heap s' !! l = Some p' /\ Proxy.bool p' = Proxy.bool p.

(** Every cached reference leads to a lease, and that lease is not empty. *)
Definition cache_ok {W} (self : Manager.t) (s : State W) : Prop :=
  forall tid name l, Manager.getattr (Manager._local self) tid name = Some l ->
    exists p, heap s !! l = Some p /\ Proxy.bool p = true.

Close Scope string_scope.

(** * Properties *)

(** ** Lease usage *)

Section ProxyFacts.

Implicit Types (self : Proxy.t) (N : Z).

Lemma tick_finite self N :
  Proxy.threshold self = finite N ->
  Proxy.tick self =
    (Proxy.set_counter (Proxy.counter self + 1) self,
     if (Proxy.counter self <? N)%Z then [] else called (Proxy.recover self),
     (Proxy.counter self <? N)%Z).
Proof.
  intros HN. unfold Proxy.tick. rewrite HN.
  destruct (Z.leb_spec N (Proxy.counter self)) as [Hle|Hlt];
    destruct (Z.ltb_spec (Proxy.counter self) N); try lia; reflexivity.
Qed.

Lemma alter_const (h : list Proxy.t) (l : nat) (p : Proxy.t) :
  alter (fun _ => p) l h = <[l := p]> h.
Proof.
  revert l. induction h as [|q h IH]; intros [|l]; cbn; try reflexivity.
  f_equal. apply IH.
Qed.

Lemma set_counter_same self : Proxy.set_counter (Proxy.counter self) self = self.
Proof. destruct self; reflexivity. Qed.

End ProxyFacts.

Section UseFacts.

Context `{Collaborators}.

Implicit Types (s : State World) (p : Proxy.t) (l k : nat) (N : Z) (f : slot).

(** [call] by what the callback does. *)
Lemma call_spec f l s :
  call f l s =
    match applied f l (heap s) (world s) with
    | (returns _, h, w) =>
        Return tt (mkState h w (calls s ++ ((fun g => (g, l)) <$> called f)))
    | (raises e, h, w) =>
        Raise e (mkState h w (calls s ++ ((fun g => (g, l)) <$> called f)))
    end.
Proof.
  destruct f as [| |g]; cbn [call applied called fmap list_fmap].
  - rewrite app_nil_r. destruct s; reflexivity.
  - rewrite app_nil_r. destruct s; reflexivity.
  - destruct (invoke g l (heap s) (world s)) as [[[[]|e] h] w]; reflexivity.
Qed.

(** One [use] on a lease with a finite threshold. *)
Lemma use_lease_spec l s p N :
  heap s !! l = Some p ->
  Proxy.threshold p = finite N ->
  use_lease l s =
    let h := <[l := Proxy.set_counter (Proxy.counter p + 1) p]> (heap s) in
    if (Proxy.counter p <? N)%Z
    then Return true (mkState h (world s) (calls s))
    else
      match applied (Proxy.recover p) l h (world s) with
      | (returns _, h1, w1) =>
          Return false
            (mkState h1 w1
               (calls s ++ ((fun g => (g, l)) <$> called (Proxy.recover p))))
      | (raises e, h1, w1) =>
          Raise e
            (mkState h1 w1
               (calls s ++ ((fun g => (g, l)) <$> called (Proxy.recover p))))
      end.
Proof.
  intros Hp HN. cbv zeta.
  unfold use_lease, mbind, M_bind, bind at 1, deref.
  rewrite Hp. cbn [default from_option id].
  rewrite (tick_finite p N HN).
  unfold bind at 1, modify. cbn [heap world calls]. rewrite alter_const.
  destruct (Proxy.counter p <? N)%Z; [reflexivity|].
  change (Proxy.recover (Proxy.set_counter _ p)) with (Proxy.recover p).
  destruct (Proxy.recover p) as [| |g];
    cbn [called foldr applied fmap list_fmap].
  - rewrite app_nil_r. reflexivity.
  - rewrite app_nil_r. reflexivity.
  - unfold bind, call. cbn [heap world calls].
    destruct (invoke g l _ (world s)) as [[[[]|e] h1] w1]; reflexivity.
Qed.

(** A run of [use] on a lease whose recover callback returns and writes
    nothing. *)
Lemma use_times_quiet l N k s p :
  heap s !! l = Some p ->
  Proxy.threshold p = finite N ->
  (forall h w, exists w',
      applied (Proxy.recover p) l h w = (returns tt, h, w')) ->
  exists s',
    use_times k l s
    = Return ((fun i => (Proxy.counter p + Z.of_nat i <? N)%Z) <$> seq 0 k) s'
    /\ calls s'
       = calls s
         ++ flat_map (fun i => if (Proxy.counter p + Z.of_nat i <? N)%Z
                               then []
                               else (fun g => (g, l))
                                      <$> called (Proxy.recover p))
              (seq 0 k)
    /\ heap s'
       = <[l := Proxy.set_counter (Proxy.counter p + Z.of_nat k) p]> (heap s).
Proof.
  intros Hp HN Hquiet. revert s p Hp HN Hquiet.
  induction k as [|k IH]; intros s p Hp HN Hquiet.
  - exists s. split; [reflexivity|]. split.
    + cbn. rewrite app_nil_r. reflexivity.
    + rewrite Z.add_0_r, set_counter_same, list_insert_id by exact Hp.
      reflexivity.
  - pose proof (lookup_lt_Some _ _ _ Hp) as Hl.
    set (p' := Proxy.set_counter (Proxy.counter p + 1) p).
    assert (Hstep : exists s1,
               use_lease l s = Return (Proxy.counter p <? N)%Z s1
               /\ heap s1 = <[l := p']> (heap s)
               /\ calls s1
                  = calls s
                    ++ (if (Proxy.counter p <? N)%Z then []
                        else (fun g => (g, l)) <$> called (Proxy.recover p))).
    { rewrite (use_lease_spec l s p N Hp HN). cbv zeta. fold p'.
      destruct (Proxy.counter p <? N)%Z.
      - eexists. split; [reflexivity|]. cbn. rewrite app_nil_r. auto.
      - destruct (Hquiet (<[l := p']> (heap s)) (world s)) as [w' ->].
        eexists. split; [reflexivity|]. auto. }
    destruct Hstep as (s1 & Hstep & Hheap1 & Hcalls1).
    assert (Hp1 : heap s1 !! l = Some p').
    { rewrite Hheap1. apply list_lookup_insert_eq. exact Hl. }
    destruct (IH s1 p' Hp1 HN Hquiet) as (s' & Hrun & Hcalls & Hheap).
    exists s'. split; [|split].
    + cbn [use_times]. unfold mbind, M_bind, bind at 1. rewrite Hstep.
      unfold bind at 1. rewrite Hrun. cbn [mret M_ret ret].
      change (seq 0 (S k)) with (0 :: seq 1 k).
      rewrite <- fmap_S_seq. cbn [fmap list_fmap].
      rewrite Z.add_0_r. do 2 f_equal.
      rewrite <- list_fmap_compose. apply list_fmap_ext.
      intros i x _. cbn. f_equal. unfold p'. cbn. lia.
    + rewrite Hcalls, Hcalls1, <- app_assoc. f_equal.
      change (seq 0 (S k)) with (0 :: seq 1 k).
      rewrite <- fmap_S_seq. cbn [flat_map]. rewrite Z.add_0_r. f_equal.
      rewrite flat_map_concat_map, flat_map_concat_map. f_equal.
      rewrite List.map_map. apply List.map_ext. intros i.
      replace (Proxy.counter p' + Z.of_nat i)%Z
        with (Proxy.counter p + Z.of_nat (S i))%Z by (unfold p'; cbn; lia).
      reflexivity.
    + rewrite Hheap, Hheap1, list_insert_insert_eq. f_equal.
      unfold p'. cbn.
      replace (Proxy.counter p + 1 + Z.of_nat k)%Z
        with (Proxy.counter p + Z.of_nat (S k))%Z by lia.
      reflexivity.
Qed.

(** C1 (as amended).  On a lease with a finite threshold [N]: a [use] with
    the counter below [N] returns [True] and calls nothing; a [use] with the
    counter at [N] or beyond calls the recover callback, if that is
    callable, on the lease, and returns [False] when the callback returns,
    while an exception of the callback leaves [use].  So on a lease that has
    not been used yet and whose recover callback returns and writes
    nothing, call number [i + 1] returns [True] when [i + 1 < N] and
    [False] otherwise, and the callback is called on the [N]th call and on
    every later one. *)
Theorem use_threshold l N s p :
  heap s !! l = Some p ->
  Proxy.threshold p = finite N ->
  let h := <[l := Proxy.set_counter (Proxy.counter p + 1) p]> (heap s) in
  let recorded :=
    calls s ++ ((fun g => (g, l)) <$> called (Proxy.recover p)) in
  ((Proxy.counter p < N)%Z ->
   use_lease l s = Return true (mkState h (world s) (calls s)))
  /\ ((N <= Proxy.counter p)%Z ->
      use_lease l s =
        match applied (Proxy.recover p) l h (world s) with
        | (returns _, h1, w1) => Return false (mkState h1 w1 recorded)
        | (raises e, h1, w1) => Raise e (mkState h1 w1 recorded)
        end)
  /\ (Proxy.counter p = 1%Z ->
      (forall h0 w, exists w',
          applied (Proxy.recover p) l h0 w = (returns tt, h0, w')) ->
      forall k, exists s',
        use_times k l s
        = Return ((fun i => (Z.of_nat i + 1 <? N)%Z) <$> seq 0 k) s'
        /\ calls s'
           = calls s
             ++ flat_map (fun i => if (Z.of_nat i + 1 <? N)%Z
                                   then []
                                   else (fun g => (g, l))
                                          <$> called (Proxy.recover p))
                  (seq 0 k)
        /\ heap s' = <[l := Proxy.set_counter (1 + Z.of_nat k) p]> (heap s)).
Proof.
  intros Hp HN h recorded. split; [|split].
  - intros Hlt. rewrite (use_lease_spec l s p N Hp HN). cbv zeta.
    apply Z.ltb_lt in Hlt. rewrite Hlt. reflexivity.
  - intros Hle. rewrite (use_lease_spec l s p N Hp HN). cbv zeta.
    apply Z.ltb_ge in Hle. rewrite Hle. reflexivity.
  - intros H1 Hquiet k.
    destruct (use_times_quiet l N k s p Hp HN Hquiet)
      as (s' & Hrun & Hcalls & Hheap).
    rewrite H1 in Hrun, Hcalls, Hheap.
    exists s'. split; [|split].
    + rewrite Hrun.
      rewrite (list_fmap_ext (fun i => (1 + Z.of_nat i <? N)%Z)
                 (fun i => (Z.of_nat i + 1 <? N)%Z) (seq 0 k));
        [reflexivity|].
      intros i x _. cbn. f_equal. lia.
    + rewrite Hcalls. f_equal.
      rewrite flat_map_concat_map, flat_map_concat_map.
      rewrite (List.map_ext _
                 (fun i => if (Z.of_nat i + 1 <? N)%Z then []
                           else (fun g => (g, l))
                                  <$> called (Proxy.recover p)));
        [reflexivity|].
      intros i.
      replace (1 + Z.of_nat i)%Z with (Z.of_nat i + 1)%Z by lia.
      reflexivity.
    + exact Hheap.
Qed.

End UseFacts.

(** Three calls on a lease with threshold 2, not used before: the first
    returns [True], the second and the third return [False]. *)
Lemma use_threshold_witness :
  exists s',
    @use_times sample_collaborators 3 0 unused_state
    = Return ((fun i => (Z.of_nat i + 1 <? 2)%Z) <$> seq 0 3) s'
    /\ calls s'
       = calls unused_state
         ++ flat_map (fun i => if (Z.of_nat i + 1 <? 2)%Z
                               then []
                               else (fun g => (g, 0))
                                      <$> called (Proxy.recover lease_of_two))
              (seq 0 3)
    /\ heap s'
       = <[0 := Proxy.set_counter (1 + Z.of_nat 3) lease_of_two]>
           (heap unused_state).
Proof.
  exact (proj2 (proj2 (@use_threshold sample_collaborators 0 2 unused_state
                         lease_of_two eq_refl eq_refl))
           eq_refl (fun h0 w => ex_intro _ w eq_refl) 3).
Defined.

(** C1 as stated fails.  Three calls on a lease with threshold 2 call the
    recover callback twice, on the second call and again on the third; and
    on a lease with threshold 1 whose recover callback raises, the first
    call does not return [False]: the exception leaves [use]. *)
Lemma use_recover_not_once :
  @use_times sample_collaborators 3 0 unused_state
  = Return [true; false; false]
      (mkState [Proxy.set_counter 4 lease_of_two] O
         [(Function 0, O); (Function 0, O)])
  /\ @use_lease sample_collaborators 0 (mkState [lease_raising] O [])
     = Raise (Exception "RuntimeError"%string)
         (mkState [Proxy.set_counter 2 lease_raising] O [(Function 2, O)]).
Proof. split; vm_compute; reflexivity. Qed.

(** ** Clash node rotation *)

Section ClashFacts.

Implicit Types (now : string) (before after : list string).

Lemma index_app now before after :
  now ∉ before ->
  ClashProxy.index now (before ++ now :: after) = Some (length before).
Proof.
  induction before as [|x before IH]; intros Hnot; cbn.
  - rewrite String.eqb_refl. reflexivity.
  - apply not_elem_of_cons in Hnot as [Hne Hnot].
    destruct (String.eqb_spec x now) as [->|_]; [congruence|].
    rewrite (IH Hnot). reflexivity.
Qed.

Lemma reorder_app now before after :
  now ∉ before ->
  ClashProxy.reorder (Some now) (before ++ now :: after)
  = after ++ before ++ [now].
Proof.
  intros Hnot. unfold ClashProxy.reorder. rewrite (index_app _ _ _ Hnot).
  replace (length before + 1) with (length (before ++ [now]))
    by (rewrite length_app; reflexivity).
  rewrite (cons_middle now before after), app_assoc.
  rewrite drop_app_length, take_app_length. reflexivity.
Qed.

(** C9 (as amended).  When the node list holds the active node, [nodes]
    reorders it to start right after the first occurrence of the active node
    and wrap around, so that the active node comes last; the provider keeps
    the cycle over the reordered list filtered by the match predicate, and
    the value returned is the reordered list before filtering. *)
Theorem nodes_reorders (self : ClashProxy.t) now before after :
  now ∉ before ->
  ClashProxy.nodes self (ClashProxy.proxies (Some now) (before ++ now :: after))
  = (ClashProxy.mk (ClashProxy.selector self) (ClashProxy.match_ self)
       (Some (itertools.cycle_of
                (List.filter (ClashProxy.match_ self)
                   (after ++ before ++ [now])))),
     inl (after ++ before ++ [now])).
Proof.
  intros Hnot. unfold ClashProxy.nodes.
  rewrite (reorder_app _ _ _ Hnot). reflexivity.
Qed.

End ClashFacts.

(** The active node B in the list A, B, C: the order becomes C, A, B. *)
Lemma nodes_reorders_witness :
  ClashProxy.nodes clash_global
    (ClashProxy.proxies (Some "B"%string) ["A"; "B"; "C"]%string)
  = (ClashProxy.mk "GLOBAL" ClashProxy.default_match
       (Some (itertools.cycle_of ["C"; "A"; "B"]%string)),
     inl ["C"; "A"; "B"]%string).
Proof.
  apply (nodes_reorders clash_global "B"%string ["A"%string] ["C"%string]).
  apply not_elem_of_cons. split; [discriminate|apply not_elem_of_nil].
Defined.

(** C9 as stated fails in its last clause: for the active node B in the
    list A, B, C the value returned is C, A, B, the reordered list, and not
    the list the controller sent. *)
Lemma nodes_returns_reordered :
  (ClashProxy.nodes clash_global
     (ClashProxy.proxies (Some "B"%string) ["A"; "B"; "C"]%string)).2
  = inl ["C"; "A"; "B"]%string
  /\ (ClashProxy.nodes clash_global
        (ClashProxy.proxies (Some "B"%string) ["A"; "B"; "C"]%string)).2
     <> inl ["A"; "B"; "C"]%string.
Proof. split; [reflexivity|discriminate]. Qed.

(** ** Configuration keys *)

Section KeyFacts.

Context `{Runtime}.

(** C7 (as amended).  The key of a declarative record is the decimal text
    of the hash of its [json.dumps] form, so records with the same
    serialised form (the same fields in the same order) get the same key;
    every live provider instance gets the one key of [hash(BaseProxy)]. *)
Theorem get_rkey_spec :
  (forall fields,
      Manager.get_rkey (Manager.record fields)
      = str.of_int (hash_str (json.dumps (json.Dict fields))))
  /\ (forall fields1 fields2,
         json.dumps (json.Dict fields1) = json.dumps (json.Dict fields2) ->
         Manager.get_rkey (Manager.record fields1)
         = Manager.get_rkey (Manager.record fields2))
  /\ (forall p1 p2,
         Manager.get_rkey (Manager.instance p1)
         = Manager.get_rkey (Manager.instance p2)).
Proof.
  split; [reflexivity|split; [|reflexivity]].
  intros fields1 fields2 Heq. unfold Manager.get_rkey.
  f_equal. f_equal. exact Heq.
Qed.

End KeyFacts.

(** C7 as stated fails: two records with the same fields in a different
    order are equal as mappings, yet serialise differently and, under a
    hash that tells the two texts apart, get different keys. *)
Lemma get_rkey_field_order :
  (list_to_map custom_fields : gmap string json.t)
  = list_to_map (reverse custom_fields)
  /\ json.dumps (json.Dict custom_fields)
     <> json.dumps (json.Dict (reverse custom_fields))
  /\ @Manager.get_rkey sample_runtime (Manager.record custom_fields)
     <> @Manager.get_rkey sample_runtime (Manager.record (reverse custom_fields)).
Proof.
  split; [vm_compute; reflexivity|].
  split; intros Heq; vm_compute in Heq; discriminate Heq.
Qed.

(** ** Address formatting *)

Section StrFacts.

Local Open Scope string_scope.

Implicit Types (s a b : string) (c sep : ascii) (p : ascii -> bool).

Lemma all_app p a b : str.all p (a ++ b) = str.all p a && str.all p b.
Proof.
  induction a as [|c a IH]; [reflexivity|].
  simpl. rewrite IH. apply andb_assoc.
Qed.

Lemma all_impl p (q : ascii -> bool) s :
  (forall c, p c = true -> q c = true) ->
  str.all p s = true -> str.all q s = true.
Proof.
  intros Hpq. induction s as [|c s IH]; [reflexivity|].
  cbn. intros [Hc Hs]%andb_prop. rewrite (Hpq c Hc), (IH Hs). reflexivity.
Qed.

Lemma filter_all p s : str.all p s = true -> str.filter p s = s.
Proof.
  induction s as [|c s IH]; [reflexivity|].
  cbn. intros [Hc Hs]%andb_prop. rewrite Hc, (IH Hs). reflexivity.
Qed.

Lemma partition_app sep a b :
  str.all (fun c => negb (Ascii.eqb c sep)) a = true ->
  str.partition sep (a ++ String sep b) = (a, true, b).
Proof.
  induction a as [|c a IH]; simpl.
  - intros _. rewrite Ascii.eqb_refl. reflexivity.
  - intros [Hc Ha]%andb_prop. apply negb_true_iff in Hc.
    rewrite Hc, (IH Ha). reflexivity.
Qed.

Lemma break_all p s :
  str.all (fun c => negb (p c)) s = true -> str.break p s = (s, "").
Proof.
  induction s as [|c s IH]; [reflexivity|].
  cbn. intros [Hc Hs]%andb_prop. apply negb_true_iff in Hc.
  rewrite Hc, (IH Hs). reflexivity.
Qed.

Lemma contains_all sep s :
  str.all (fun c => negb (Ascii.eqb c sep)) s = true ->
  str.contains sep s = false.
Proof.
  induction s as [|c s IH]; [reflexivity|].
  cbn. intros [Hc Hs]%andb_prop. apply negb_true_iff in Hc.
  rewrite Hc. exact (IH Hs).
Qed.

Lemma nonempty_app_l a b : str.nonempty a = true -> str.nonempty (a ++ b) = true.
Proof. destruct a; [discriminate|reflexivity]. Qed.

Lemma nonempty_lower s : str.nonempty (str.lower s) = str.nonempty s.
Proof. destruct s; reflexivity. Qed.

End StrFacts.

Section ParseFacts.

Local Open Scope string_scope.

Implicit Types (sch a : string) (c : ascii).

Lemma scheme_char_plain c :
  urllib.scheme_char c = true ->
  negb (Ascii.eqb c ":") = true /\ negb (urllib.unsafe_byte c) = true.
Proof.
  destruct c as [[] [] [] [] [] [] [] []]; vm_compute;
    first [discriminate | intros _; split; reflexivity].
Qed.

Lemma alpha_not_stripped c :
  str.is_alpha c = true -> urllib.c0_control_or_space c = false.
Proof.
  destruct c as [[] [] [] [] [] [] [] []]; vm_compute;
    first [discriminate | reflexivity].
Qed.

Lemma authority_char_plain c :
  authority_char c = true ->
  negb (urllib.netloc_delim c) = true
  /\ negb (urllib.unsafe_byte c) = true
  /\ negb (Ascii.eqb c "[") = true
  /\ negb (Ascii.eqb c "]") = true.
Proof.
  unfold authority_char.
  intros [[[H1 H2]%andb_prop H3]%andb_prop H4]%andb_prop. auto.
Qed.

(** [urlsplit] on [scheme://authority]. *)
Lemma urlsplit_scheme_authority (check_host : string -> bool) sch a :
  valid_scheme sch = true ->
  authority a = true ->
  urllib.urlsplit check_host (sch ++ "://" ++ a)
  = inr (str.lower sch, a, "", "", "").
Proof.
  intros Hsch Ha.
  destruct sch as [|c0 sch']; [discriminate|].
  apply andb_prop in Hsch as [Hc0 Hall].
  apply andb_prop in Ha as [Hne Hauth].
  unfold urllib.urlsplit.
  change (urllib.lstrip (String c0 sch' ++ "://" ++ a))
    with (if urllib.c0_control_or_space c0
          then urllib.lstrip (sch' ++ "://" ++ a)
          else String c0 sch' ++ "://" ++ a).
  rewrite (alpha_not_stripped c0 Hc0).
  rewrite filter_all.
  2:{ rewrite !all_app. apply andb_true_intro. split.
      - eapply all_impl; [|exact Hall]. intros c Hc.
        apply (scheme_char_plain c Hc).
      - apply andb_true_intro. split; [reflexivity|].
        eapply all_impl; [|exact Hauth]. intros c Hc.
        apply (authority_char_plain c Hc). }
  change (String c0 sch' ++ "://" ++ a)
    with (String c0 sch' ++ String ":" ("//" ++ a)).
  rewrite partition_app.
  2:{ eapply all_impl; [|exact Hall]. intros c Hc.
      apply (scheme_char_plain c Hc). }
  cbv beta iota. rewrite Hc0, Hall. cbv beta iota.
  change (andb true true) with true. cbv beta iota.
  change ("//" ++ a) with (String "/" (String "/" a)). cbv beta iota.
  unfold urllib._splitnetloc. rewrite break_all.
  2:{ eapply all_impl; [|exact Hauth]. intros c Hc.
      apply (authority_char_plain c Hc). }
  rewrite (contains_all "[" a), (contains_all "]" a).
  2,3: eapply all_impl; [|exact Hauth]; intros c Hc;
       apply (authority_char_plain c Hc).
  reflexivity.
Qed.

End ParseFacts.

Section ShapeFacts.

Local Open Scope string_scope.

Implicit Types (a s : string) (c : ascii).

Lemma digit_plain c :
  str.is_digit c = true ->
  str.is_alpha c = false /\ urllib.c0_control_or_space c = false
  /\ Ascii.eqb c "/" = false.
Proof.
  destruct c as [[] [] [] [] [] [] [] []]; vm_compute;
    first [discriminate | intros _; repeat split; reflexivity].
Qed.

(** No scheme is split off a text whose first character is not a letter. *)
Lemma no_scheme_without_letter c s :
  str.is_alpha c = false ->
  match str.partition ":" (String c s) with
  | (String c0 _ as head, true, rest) =>
      if str.is_alpha c0 && str.all urllib.scheme_char head
      then (str.lower head, rest)
      else ("", String c s)
  | _ => ("", String c s)
  end = ("", String c s).
Proof.
  intros Hc. cbn [str.partition].
  destruct (Ascii.eqb c ":"); [reflexivity|].
  destruct (str.partition ":" s) as [[head found] rest].
  destruct found; [|reflexivity].
  rewrite Hc. reflexivity.
Qed.

Lemma authority_no_delim a :
  str.all authority_char a = true ->
  str.all (fun c => negb (urllib.unsafe_byte c)) a = true
  /\ str.all (fun c => negb (urllib.netloc_delim c)) a = true
  /\ str.contains "[" a = false /\ str.contains "]" a = false
  /\ str.contains "#" a = false /\ str.contains "?" a = false.
Proof.
  intros Ha.
  assert (Hd : str.all (fun c => negb (urllib.netloc_delim c)) a = true).
  { eapply all_impl; [|exact Ha]. intros c Hc.
    apply (authority_char_plain c Hc). }
  repeat split.
  - eapply all_impl; [|exact Ha]. intros c Hc.
    apply (authority_char_plain c Hc).
  - exact Hd.
  - apply contains_all. eapply all_impl; [|exact Ha]. intros c Hc.
    apply (authority_char_plain c Hc).
  - apply contains_all. eapply all_impl; [|exact Ha]. intros c Hc.
    apply (authority_char_plain c Hc).
  - apply contains_all. eapply all_impl; [|exact Hd]. intros c Hc.
    unfold urllib.netloc_delim in Hc.
    destruct (Ascii.eqb c "#"); [|reflexivity].
    rewrite !orb_true_r in Hc. discriminate.
  - apply contains_all. eapply all_impl; [|exact Hd]. intros c Hc.
    unfold urllib.netloc_delim in Hc.
    destruct (Ascii.eqb c "?"); [|reflexivity].
    rewrite orb_true_r in Hc. discriminate.
Qed.

(** [urlsplit] on [//authority]. *)
Lemma urlsplit_slashes (check_host : string -> bool) a :
  authority a = true ->
  urllib.urlsplit check_host ("//" ++ a) = inr ("", a, "", "", "").
Proof.
  intros [Hne Ha]%andb_prop.
  destruct (authority_no_delim a Ha) as (Hu & Hd & Hopen & Hclose & _).
  unfold urllib.urlsplit.
  change (urllib.lstrip ("//" ++ a)) with ("//" ++ a).
  rewrite filter_all by (rewrite all_app, Hu; reflexivity).
  change ("//" ++ a) with (String "/" (String "/" a)).
  rewrite no_scheme_without_letter by reflexivity.
  cbv beta iota. unfold urllib._splitnetloc.
  rewrite (break_all _ a Hd), Hopen, Hclose. reflexivity.
Qed.

(** [urlsplit] on a bare [host:port]. *)
Lemma urlsplit_bare (check_host : string -> bool) a :
  bare_address a = true ->
  urllib.urlsplit check_host a = inr ("", "", a, "", "").
Proof.
  destruct a as [|c0 a']; [discriminate|].
  intros [[Hc0 Ha]%andb_prop _]%andb_prop.
  destruct (digit_plain c0 Hc0) as (Halpha & Hspace & Hslash).
  destruct (authority_no_delim _ Ha) as (Hu & _ & _ & _ & Hhash & Hquery).
  unfold urllib.urlsplit.
  change (urllib.lstrip (String c0 a'))
    with (if urllib.c0_control_or_space c0 then urllib.lstrip a'
          else String c0 a').
  rewrite Hspace, (filter_all _ _ Hu).
  rewrite (no_scheme_without_letter c0 a' Halpha). cbv beta iota.
  assert (Hnet : forall (f : string -> string * string),
             match String c0 a' with
             | String "/" (String "/" rest) => f rest
             | _ => ("", String c0 a')
             end = ("", String c0 a')).
  { intros f. clear -Hslash.
    destruct c0 as [[] [] [] [] [] [] [] []]; try reflexivity.
    discriminate Hslash. }
  rewrite Hnet. cbv beta iota.
  change (str.contains "[" "") with false.
  change (str.contains "]" "") with false. cbv beta iota.
  cbn [andb orb negb]. rewrite Hhash, Hquery. reflexivity.
Qed.

End ShapeFacts.


Section FmtFacts.

Context `{Runtime}.

Local Open Scope string_scope.

Implicit Types (self : BaseProxy.t) (sch a : string).

Lemma urlparse_scheme_authority sch a :
  valid_scheme sch = true ->
  authority a = true ->
  urllib.urlparse check_bracketed_host (sch ++ "://" ++ a)
  = inr (urllib.mk (str.lower sch) a "" "" "" "").
Proof.
  intros Hsch Ha. unfold urllib.urlparse.
  rewrite (urlsplit_scheme_authority _ sch a Hsch Ha).
  change (str.contains ";" "") with false.
  rewrite andb_false_r. reflexivity.
Qed.

(** On [scheme://authority], [fmt] swaps the scheme for the provider's, puts
    the provider's credentials prefix in front and keeps the authority. *)
Lemma fmt_scheme_authority self sch a :
  valid_scheme sch = true ->
  authority a = true ->
  BaseProxy.fmt self (Some (sch ++ "://" ++ a))
  = inr (BaseProxy.scheme self ++ "://" ++ BaseProxy.prefix self ++ a).
Proof.
  intros Hsch Ha. unfold BaseProxy.fmt.
  assert (Hne : str.nonempty (sch ++ "://" ++ a) = true).
  { apply nonempty_app_l. destruct sch; [discriminate|reflexivity]. }
  cbn [BaseProxy.truthy str.of_optional]. rewrite Hne. cbn [negb].
  rewrite (urlparse_scheme_authority sch a Hsch Ha).
  cbn [urllib.path urllib.netloc urllib.scheme].
  rewrite nonempty_lower.
  replace (str.nonempty sch) with true
    by (destruct sch; [discriminate|reflexivity]).
  apply andb_prop in Ha as [-> _]. reflexivity.
Qed.

(** C3 (as amended).  On an input [scheme://authority], [fmt] replaces the
    scheme by the provider's and keeps the authority as it stands.  When the
    authority embeds no credentials, the provider's credentials (if both
    are non-empty) are put before it; when the provider has no credentials
    configured, credentials embedded in the input stay in the output. *)
Theorem fmt_scheme_host self sch a :
  valid_scheme sch = true ->
  authority a = true ->
  (str.contains "@" a = false ->
   BaseProxy.fmt self (Some (sch ++ "://" ++ a))
   = inr (BaseProxy.scheme self ++ "://" ++ BaseProxy.prefix self ++ a))
  /\ (BaseProxy.prefix self = "" ->
      BaseProxy.fmt self (Some (sch ++ "://" ++ a))
      = inr (BaseProxy.scheme self ++ "://" ++ a)).
Proof.
  intros Hsch Ha. split.
  - intros _. exact (fmt_scheme_authority self sch a Hsch Ha).
  - intros Hprefix. rewrite (fmt_scheme_authority self sch a Hsch Ha), Hprefix.
    reflexivity.
Qed.

(** X14.  The branch of [fmt] for an input with credentials of its own is
    never taken: whenever the three branches before it are passed over, the
    parse result has no network location, hence no user name. *)
Lemma fmt_embedded_branch_dead (parsed : urllib.ParseResult) :
  let path := str.nonempty (urllib.path parsed) in
  let netloc := str.nonempty (urllib.netloc parsed) in
  let has_scheme := str.nonempty (urllib.scheme parsed) in
  path && negb netloc && negb has_scheme = false ->
  netloc && negb has_scheme = false ->
  has_scheme && netloc = false ->
  BaseProxy.truthy (urllib.username parsed)
  && BaseProxy.truthy (urllib.password parsed) = false.
Proof.
  destruct parsed as [sch netloc path params query fragment].
  unfold urllib.username, urllib.password, urllib._userinfo.
  cbn [urllib.path urllib.netloc urllib.scheme].
  destruct netloc as [|c netloc]; [reflexivity|].
  destruct sch; cbn; intros; discriminate.
Qed.

End FmtFacts.

Section IdempotenceFacts.

Context `{Runtime}.

Local Open Scope string_scope.

Implicit Types (self : BaseProxy.t) (sch a raw : string).

(** On [//authority], [fmt] puts the provider's scheme and credentials
    prefix where the two slashes were. *)
Lemma fmt_slashes self a :
  authority a = true ->
  BaseProxy.fmt self (Some ("//" ++ a))
  = inr (BaseProxy.scheme self ++ "://" ++ BaseProxy.prefix self ++ a).
Proof.
  intros Ha. unfold BaseProxy.fmt, urllib.urlparse.
  cbn [BaseProxy.truthy str.of_optional].
  change (str.nonempty ("//" ++ a)) with true. cbn [negb].
  rewrite (urlsplit_slashes _ a Ha).
  change (str.contains ";" "") with false. rewrite andb_false_r.
  cbn [urllib.path urllib.netloc urllib.scheme str.nonempty andb negb].
  apply andb_prop in Ha as [-> _]. reflexivity.
Qed.

(** On a bare [host:port], [fmt] puts the provider's scheme and credentials
    prefix in front. *)
Lemma fmt_bare self a :
  bare_address a = true ->
  BaseProxy.fmt self (Some a)
  = inr (BaseProxy.scheme self ++ "://" ++ BaseProxy.prefix self ++ a).
Proof.
  intros Ha. unfold BaseProxy.fmt, urllib.urlparse.
  rewrite (urlsplit_bare _ a Ha).
  destruct a as [|c0 a']; [discriminate|].
  apply andb_prop in Ha as [_ Hsemi]. apply negb_true_iff in Hsemi.
  rewrite Hsemi, andb_false_r. reflexivity.
Qed.

Lemma bare_is_authority a : bare_address a = true -> authority a = true.
Proof.
  destruct a as [|c0 a']; [discriminate|].
  intros [[_ Ha]%andb_prop _]%andb_prop. exact Ha.
Qed.

(** X13.  Without credentials, and with a provider scheme that is a URL
    scheme, formatting is idempotent on the three shapes [host:port],
    [//host:port] and [scheme://authority]. *)
Lemma fmt_idempotent_without_credentials self raw :
  valid_scheme (BaseProxy.scheme self) = true ->
  BaseProxy.prefix self = "" ->
  bare_address raw = true
  \/ (exists a, raw = "//" ++ a /\ authority a = true)
  \/ (exists sch a,
         raw = sch ++ "://" ++ a /\ valid_scheme sch = true
         /\ authority a = true) ->
  exists out,
    BaseProxy.fmt self (Some raw) = inr out
    /\ BaseProxy.fmt self (Some out) = inr out.
Proof.
  intros Hscheme Hprefix Hshape.
  assert (Hagain : forall a, authority a = true ->
             BaseProxy.fmt self (Some (BaseProxy.scheme self ++ "://" ++ a))
             = inr (BaseProxy.scheme self ++ "://" ++ a)).
  { intros a Ha.
    rewrite (fmt_scheme_authority self _ a Hscheme Ha), Hprefix. reflexivity. }
  destruct Hshape as [Hbare|[(a & -> & Ha)|(sch & a & -> & Hsch & Ha)]].
  - exists (BaseProxy.scheme self ++ "://" ++ raw).
    rewrite (fmt_bare self raw Hbare), Hprefix.
    split; [reflexivity|]. apply Hagain, bare_is_authority, Hbare.
  - exists (BaseProxy.scheme self ++ "://" ++ a).
    rewrite (fmt_slashes self a Ha), Hprefix.
    split; [reflexivity|]. apply Hagain, Ha.
  - exists (BaseProxy.scheme self ++ "://" ++ a).
    rewrite (fmt_scheme_authority self sch a Hsch Ha), Hprefix.
    split; [reflexivity|]. apply Hagain, Ha.
Qed.

Lemma length_append (p a : string) :
  String.length (p ++ a) = String.length p + String.length a.
Proof.
  induction p as [|c p IH]; [reflexivity|].
  simpl. rewrite IH. reflexivity.
Qed.

Lemma append_nonempty_neq (p a : string) : p <> "" -> p ++ a <> a.
Proof.
  intros Hp Heq. apply (f_equal String.length) in Heq.
  rewrite length_append in Heq.
  destruct p; [congruence|]. cbn in Heq. lia.
Qed.

Lemma append_inj_l (s x y : string) : s ++ x = s ++ y -> x = y.
Proof.
  induction s as [|c s IH]; [trivial|].
  simpl. intros [= Heq]. exact (IH Heq).
Qed.

(** With credentials configured, formatting a formatted address puts the
    credentials prefix in once more, whatever the address was. *)
Lemma fmt_twice_piles_credentials self sch a :
  valid_scheme (BaseProxy.scheme self) = true ->
  BaseProxy.prefix self <> "" ->
  str.all authority_char (BaseProxy.prefix self) = true ->
  valid_scheme sch = true ->
  authority a = true ->
  exists out out2,
    BaseProxy.fmt self (Some (sch ++ "://" ++ a)) = inr out
    /\ BaseProxy.fmt self (Some out) = inr out2
    /\ out2 = BaseProxy.scheme self ++ "://" ++ BaseProxy.prefix self
              ++ BaseProxy.prefix self ++ a
    /\ out2 <> out.
Proof.
  intros Hscheme Hne Hprefix Hsch Ha.
  assert (Hpa : authority (BaseProxy.prefix self ++ a) = true).
  { unfold authority. rewrite all_app, Hprefix.
    apply andb_prop in Ha as [_ ->].
    destruct (BaseProxy.prefix self); [congruence|reflexivity]. }
  eexists _, _.
  split; [exact (fmt_scheme_authority self sch a Hsch Ha)|].
  split; [exact (fmt_scheme_authority self _ _ Hscheme Hpa)|].
  split; [reflexivity|].
  intros Heq. apply append_inj_l in Heq.
  change ("://" ++ ?x) with (String ":" (String "/" (String "/" x))) in Heq.
  injection Heq as Heq.
  exact (append_nonempty_neq _ _ Hne Heq).
Qed.

End IdempotenceFacts.

(** A provider without credentials keeps the credentials of the input. *)
Lemma fmt_scheme_host_witness :
  @BaseProxy.fmt sample_runtime custom_plain
    (Some "https://a:b@1.2.3.4:80"%string)
  = inr "http://a:b@1.2.3.4:80"%string.
Proof.
  exact (proj2 (@fmt_scheme_host sample_runtime custom_plain "https"%string
                  "a:b@1.2.3.4:80"%string eq_refl eq_refl) eq_refl).
Defined.

(** C3 as stated fails: credentials embedded in the input are not dropped.
    A provider without credentials turns [https://a:b@1.2.3.4:80] into
    [http://a:b@1.2.3.4:80], not into [http://1.2.3.4:80]. *)
Lemma fmt_keeps_embedded_credentials :
  @BaseProxy.fmt sample_runtime custom_plain
    (Some "https://a:b@1.2.3.4:80"%string)
  = inr "http://a:b@1.2.3.4:80"%string
  /\ @BaseProxy.fmt sample_runtime custom_plain
       (Some "https://a:b@1.2.3.4:80"%string)
     <> inr "http://1.2.3.4:80"%string.
Proof. split; [reflexivity|intros Heq; vm_compute in Heq; discriminate Heq]. Qed.

(** C2 at its failing input: with credentials configured, formatting a
    formatted address puts the credentials in a second time. *)
Lemma fmt_twice_with_credentials :
  @BaseProxy.fmt sample_runtime custom_with_credentials
    (Some "http://1.2.3.4:80"%string)
  = inr "http://u:p@1.2.3.4:80"%string
  /\ @BaseProxy.fmt sample_runtime custom_with_credentials
       (Some "http://u:p@1.2.3.4:80"%string)
     = inr "http://u:p@u:p@1.2.3.4:80"%string.
Proof. split; reflexivity. Qed.

(** ** Acquisition through a provider *)

Section ProviderFacts.

Context `{Runtime} `{Collaborators}.

Implicit Types (self : BaseProxy.t) (timeout : option Z) (s : State World).

Lemma alter_snoc {A} (f : A -> A) (l : list A) (x : A) :
  alter f (length l) (l ++ [x]) = l ++ [f x].
Proof.
  replace (length l) with (length l + 0) by lia.
  rewrite alter_app_r. reflexivity.
Qed.

Lemma lookup_snoc {A} (l : list A) (x : A) : (l ++ [x]) !! length l = Some x.
Proof. apply list_lookup_middle. reflexivity. Qed.

(** The class's own [get]: a fresh [Proxy(raw)] for the raw address, or the
    exception the backend raised. *)
Lemma own_get_spec self timeout s :
  Provider.own_get self timeout s =
    match Provider.raw_address self timeout (world s) with
    | (returns raw, w) =>
        Return (ref (length (heap s)))
          (mkState (heap s ++ [Proxy.of_address (Some raw)]) w (calls s))
    | (raises e, w) => Raise e (mkState (heap s) w (calls s))
    end.
Proof.
  unfold Provider.own_get, Provider.raw_address.
  destruct (BaseProxy.class self);
    unfold ApiProxy.get, ClashProxy.get, RedisProxy.get, CustomProxy.get;
    unfold mbind, M_bind, bind, ask, alloc, mret, M_ret, ret; cbn;
    try (destruct (backend self timeout (world s)) as [[raw|e] w]; cbn);
    reflexivity.
Qed.

(** What the public [get] does, by the outcome of the backend and of [fmt]. *)
Lemma get_spec self timeout s :
  Provider.get self timeout s =
    match Provider.raw_address self timeout (world s) with
    | (returns raw, w) =>
        match BaseProxy.fmt self (Some raw) with
        | inr address =>
            Return (length (heap s))
              (mkState
                 (heap s ++ [BaseProxy.adopt self address
                               (Proxy.of_address (Some raw))])
                 w (calls s))
        | inl e =>
            Raise e
              (mkState (heap s ++ [Proxy.of_address (Some raw)]) w (calls s))
        end
    | (raises e, w) => Raise e (mkState (heap s) w (calls s))
    end.
Proof.
  unfold Provider.get, BaseProxy._when_get.
  unfold mbind, M_bind, bind at 1. rewrite own_get_spec.
  destruct (Provider.raw_address self timeout (world s)) as [[raw|e] w];
    [|reflexivity].
  unfold bind, mret, M_ret, ret, deref, modify, raise. cbn.
  rewrite lookup_snoc. cbn.
  destruct (BaseProxy.fmt self (Some raw)) as [e|address]; [reflexivity|].
  cbn [heap world calls]. rewrite alter_snoc. reflexivity.
Qed.

(** C4.  Whenever a provider's public [get] returns a lease, the backend
    yielded a raw address, [fmt] accepted it, and the lease's address is
    [fmt] of that raw address; and whenever the backend yields a raw address
    that [fmt] accepts, the public [get] returns a new lease holding the
    formatted address. *)
Theorem get_formats self timeout s :
  (forall l s',
      Provider.get self timeout s = Return l s' ->
      exists raw address,
        (Provider.raw_address self timeout (world s)).1 = returns raw
        /\ BaseProxy.fmt self (Some raw) = inr address
        /\ Proxy.proxy <$> heap s' !! l = Some (Some address))
  /\ (forall raw w address,
         Provider.raw_address self timeout (world s) = (returns raw, w) ->
         BaseProxy.fmt self (Some raw) = inr address ->
         exists s',
           Provider.get self timeout s = Return (length (heap s)) s'
           /\ Proxy.proxy <$> heap s' !! length (heap s) = Some (Some address)).
Proof.
  split.
  - intros l s'. rewrite get_spec.
    destruct (Provider.raw_address self timeout (world s)) as [[raw|e] w];
      [|discriminate].
    destruct (BaseProxy.fmt self (Some raw)) as [e|address] eqn:Hfmt;
      [discriminate|].
    intros [= <- <-]. exists raw, address. cbn.
    rewrite lookup_snoc. auto.
  - intros raw w address Hraw Hfmt. rewrite get_spec, Hraw, Hfmt.
    eexists. split; [reflexivity|]. cbn. rewrite lookup_snoc. reflexivity.
Qed.

End ProviderFacts.

(** ** The pool manager *)

Section ManagerFacts.

Context `{Runtime} `{Collaborators}.

Implicit Types (self : Manager.t) (tid : nat) (obj : Manager.config)
  (objs : list Manager.config) (timeout : option Z) (s : State World)
  (pins : BaseProxy.t).

(** [Manager.build], case by case: a provider registered under the key is
    reused; otherwise the instance itself, or what the loader builds, is
    registered under the key. *)
Lemma build_spec self obj s :
  Manager.build self obj s =
    match Manager.container self !! Manager.get_rkey obj with
    | Some pins => Return (pins, self) s
    | None =>
        let register pins :=
          Manager.mk (Manager._local self) (Manager._context self)
            (<[Manager.get_rkey obj := pins]> (Manager.container self)) in
        match obj with
        | Manager.instance p => Return (p, register p) s
        | Manager.record fields =>
            match instantiate fields (world s) with
            | (returns pins, w) =>
                Return (pins, register pins) (mkState (heap s) w (calls s))
            | (raises e, w) => Raise e (mkState (heap s) w (calls s))
            end
        end
    end.
Proof.
  unfold Manager.build.
  destruct (Manager.container self !! Manager.get_rkey obj); [reflexivity|].
  destruct obj as [fields|p]; [|reflexivity].
  unfold mbind, M_bind, bind, ask.
  destruct (instantiate fields (world s)) as [[pins|e] w]; reflexivity.
Qed.

Lemma build_local self obj s pins self1 s0 :
  Manager.build self obj s = Return (pins, self1) s0 ->
  Manager._local self1 = Manager._local self
  /\ Manager.container self1 !! Manager.get_rkey obj = Some pins
  /\ heap s0 = heap s /\ calls s0 = calls s.
Proof.
  rewrite build_spec.
  destruct (Manager.container self !! Manager.get_rkey obj) eqn:Hreg.
  - intros [= <- <- <-]. auto.
  - destruct obj as [fields|p].
    + destruct (instantiate fields (world s)) as [[pins'|e] w]; [|discriminate].
      intros [= <- <- <-]. cbn. rewrite lookup_insert_eq. auto.
    + intros [= <- <- <-]. cbn. rewrite lookup_insert_eq. auto.
Qed.

(** [acquire], by the outcomes of [build] and of the provider's [get]. *)
Lemma acquire_spec self tid obj timeout s :
  Manager.acquire self tid obj timeout s =
    match Manager.build self obj s with
    | Raise e s0 => Raise e s0
    | Return (pins, self1) s0 =>
        match Provider.get pins timeout s0 with
        | Return l s1 =>
            if Proxy.bool (default Proxy.empty (heap s1 !! l)) then
              match Manager.setattr (Manager._local self1) tid
                      (Manager.get_rkey obj) l with
              | inr scope => Return (Manager.with_local scope self1) s1
              | inl e => Raise e s1
              end
            else Return self1 s1
        | Raise TimeoutError s1 =>
            Return self1
              (mkState (heap s1 ++ [Proxy.empty]) (world s1) (calls s1))
        | Raise e s1 => Raise e s1
        end
    end.
Proof.
  unfold Manager.acquire, mbind, M_bind, bind at 1.
  destruct (Manager.build self obj s) as [[pins self1] s0|e s0]; [|reflexivity].
  unfold bind at 1, except_TimeoutError.
  destruct (Provider.get pins timeout s0) as [l s1|e s1].
  - unfold bind, deref, Manager.update_local, mret, M_ret, ret, raise.
    destruct (Proxy.bool (default Proxy.empty (heap s1 !! l))); [|reflexivity].
    destruct (Manager.setattr _ _ _ _); reflexivity.
  - destruct e; try reflexivity.
    unfold bind, alloc, deref, mret, M_ret, ret. cbn [heap world calls].
    rewrite lookup_snoc. reflexivity.
Qed.

(** One turn of the loop of [Manager.get]. *)
Lemma get_cons self tid obj objs timeout s :
  Manager.get self tid (obj :: objs) timeout s =
    let rkey := Manager.get_rkey obj in
    match (if negb (Manager.hasattr (Manager._local self) tid rkey)
           then Manager.acquire self tid obj timeout
           else mret self) s with
    | Raise e s' => Raise e s'
    | Return self' s' =>
        let temp :=
          default (length (heap s'))
            (Manager.getattr (Manager._local self') tid rkey) in
        let h := alter (Proxy.set_rkey rkey) temp (heap s' ++ [Proxy.empty]) in
        let s'' := mkState h (world s') (calls s') in
        if Proxy.bool (default Proxy.empty (h !! temp))
        then Return (temp, self') s''
        else Manager.get self' tid objs timeout s''
    end.
Proof.
  cbn [Manager.get]. unfold mbind, M_bind, bind at 1. cbv zeta.
  destruct (negb (Manager.hasattr (Manager._local self) tid
                    (Manager.get_rkey obj)));
    [destruct (Manager.acquire self tid obj timeout s) as [self' s'|e s'];
       [|reflexivity]
    |unfold mret, M_ret, ret];
    unfold mbind, M_bind, bind, alloc, modify, deref;
    cbn [heap world calls];
    destruct (Proxy.bool _); reflexivity.
Qed.

Lemma get_nil self tid timeout s :
  Manager.get self tid [] timeout s =
    Return (length (heap s), self)
      (mkState (heap s ++ [Proxy.empty]) (world s) (calls s)).
Proof. reflexivity. Qed.

Lemma hasattr_false (l : Manager.scope) tid (name : string) :
  Manager.hasattr l tid name = false <-> Manager.getattr l tid name = None.
Proof.
  unfold Manager.hasattr. destruct (Manager.getattr l tid name); split;
    congruence.
Qed.

Lemma setattr_error (l : Manager.scope) tid (name : string) (v : nat) e :
  Manager.setattr l tid name v = inl e -> e = AttributeError.
Proof. destruct l; cbn; congruence. Qed.

Lemma bool_set_rkey (k : string) (p : Proxy.t) :
  Proxy.bool (Proxy.set_rkey k p) = Proxy.bool p.
Proof. reflexivity. Qed.

(** A provider's public [get] returns a reference nothing held before. *)
Lemma get_returns_fresh pins timeout s l s' :
  Provider.get pins timeout s = Return l s' ->
  l = length (heap s)
  /\ length (heap s') = S (length (heap s))
  /\ calls s' = calls s.
Proof.
  rewrite get_spec.
  destruct (Provider.raw_address pins timeout (world s)) as [[raw|e] w];
    [|discriminate].
  destruct (BaseProxy.fmt pins (Some raw)); [discriminate|].
  intros [= <- <-]. cbn. rewrite length_app. cbn. repeat split; lia.
Qed.

Lemma get_raises_heap pins timeout s e s' :
  Provider.get pins timeout s = Raise e s' ->
  length (heap s) <= length (heap s').
Proof.
  rewrite get_spec.
  destruct (Provider.raw_address pins timeout (world s)) as [[raw|e'] w].
  - destruct (BaseProxy.fmt pins (Some raw)); [|discriminate].
    intros [= _ <-]. cbn. rewrite length_app. lia.
  - intros [= _ <-]. cbn. lia.
Qed.

(** A candidate whose provider times out is passed over: the loop goes on
    with the remaining candidates, two empty leases the richer. *)
Lemma get_skips_timeout self tid obj objs timeout s pins self1 s0 s1 :
  Manager.hasattr (Manager._local self) tid (Manager.get_rkey obj) = false ->
  Manager.build self obj s = Return (pins, self1) s0 ->
  Provider.get pins timeout s0 = Raise TimeoutError s1 ->
  Manager.get self tid (obj :: objs) timeout s =
    Manager.get self1 tid objs timeout
      (mkState
         (heap s1
          ++ [Proxy.empty; Proxy.set_rkey (Manager.get_rkey obj) Proxy.empty])
         (world s1) (calls s1)).
Proof.
  intros Hhas Hbuild Hget.
  rewrite get_cons. cbv zeta. rewrite Hhas. cbn [negb].
  rewrite acquire_spec, Hbuild, Hget.
  destruct (build_local _ _ _ _ _ _ Hbuild) as (-> & _).
  apply hasattr_false in Hhas. rewrite Hhas.
  cbn [heap world calls default from_option id].
  rewrite alter_snoc, lookup_snoc. cbn [default from_option id].
  rewrite bool_set_rkey. cbn [Proxy.bool Proxy.empty Proxy.__init__ Proxy.proxy].
  rewrite <- app_assoc. reflexivity.
Qed.

(** So is a candidate whose provider returns an empty lease. *)
Lemma get_skips_empty self tid obj objs timeout s pins self1 s0 l s1 :
  Manager.hasattr (Manager._local self) tid (Manager.get_rkey obj) = false ->
  Manager.build self obj s = Return (pins, self1) s0 ->
  Provider.get pins timeout s0 = Return l s1 ->
  Proxy.bool (default Proxy.empty (heap s1 !! l)) = false ->
  Manager.get self tid (obj :: objs) timeout s =
    Manager.get self1 tid objs timeout
      (mkState
         (heap s1 ++ [Proxy.set_rkey (Manager.get_rkey obj) Proxy.empty])
         (world s1) (calls s1)).
Proof.
  intros Hhas Hbuild Hget Hempty.
  rewrite get_cons. cbv zeta. rewrite Hhas. cbn [negb].
  rewrite acquire_spec, Hbuild, Hget, Hempty.
  destruct (build_local _ _ _ _ _ _ Hbuild) as (-> & _).
  apply hasattr_false in Hhas. rewrite Hhas.
  cbn [heap world calls default from_option id].
  rewrite alter_snoc, lookup_snoc. cbn [default from_option id].
  rewrite bool_set_rkey. reflexivity.
Qed.

Lemma build_not_timeout self obj s s0 :
  (forall fields w, (instantiate fields w).1 <> raises TimeoutError) ->
  Manager.build self obj s <> Raise TimeoutError s0.
Proof.
  intros Hinst. rewrite build_spec.
  destruct (Manager.container self !! Manager.get_rkey obj); [discriminate|].
  destruct obj as [fields|p]; [|discriminate].
  specialize (Hinst fields (world s)).
  destruct (instantiate fields (world s)) as [[pins|e] w]; [discriminate|].
  intros [= -> _]. apply Hinst. reflexivity.
Qed.

Lemma acquire_not_timeout self tid obj timeout s s' :
  (forall fields w, (instantiate fields w).1 <> raises TimeoutError) ->
  Manager.acquire self tid obj timeout s <> Raise TimeoutError s'.
Proof.
  intros Hinst. rewrite acquire_spec.
  destruct (Manager.build self obj s) as [[pins self1] s0|e s0] eqn:Hbuild.
  - destruct (Provider.get pins timeout s0) as [l s1|e s1].
    + destruct (Proxy.bool _); [|discriminate].
      destruct (Manager.setattr _ _ _ _) as [e|scope] eqn:Hset; [|discriminate].
      apply setattr_error in Hset as ->. discriminate.
    + destruct e; discriminate.
  - intros [= -> ->]. exact (build_not_timeout _ _ _ _ Hinst Hbuild).
Qed.

Lemma get_not_timeout self tid objs timeout s s' :
  (forall fields w, (instantiate fields w).1 <> raises TimeoutError) ->
  Manager.get self tid objs timeout s <> Raise TimeoutError s'.
Proof.
  intros Hinst. revert self s.
  induction objs as [|obj objs IH]; intros self s; [discriminate|].
  rewrite get_cons. cbv zeta.
  destruct (negb _).
  - destruct (Manager.acquire self tid obj timeout s) as [self1 s1|e s1]
      eqn:Hacq.
    + destruct (Proxy.bool _); [discriminate|apply IH].
    + intros [= -> ->]. exact (acquire_not_timeout _ _ _ _ _ _ Hinst Hacq).
  - unfold mret, M_ret, ret.
    destruct (Proxy.bool _); [discriminate|apply IH].
Qed.

(** C5.  [Manager.get] never lets a [TimeoutError] out, as long as building
    a provider does not raise one: when the provider's [get] raises it for
    a candidate, an empty lease stands in and the loop goes on with the
    remaining candidates; with none left, the value returned is an empty
    lease. *)
Theorem get_swallows_timeout :
  ((forall fields w, (instantiate fields w).1 <> raises TimeoutError) ->
   forall self tid objs timeout s s',
     Manager.get self tid objs timeout s <> Raise TimeoutError s')
  /\ (forall self tid obj objs timeout s pins self1 s0 s1,
         Manager.hasattr (Manager._local self) tid (Manager.get_rkey obj)
         = false ->
         Manager.build self obj s = Return (pins, self1) s0 ->
         Provider.get pins timeout s0 = Raise TimeoutError s1 ->
         Manager.get self tid (obj :: objs) timeout s =
           Manager.get self1 tid objs timeout
             (mkState
                (heap s1
                 ++ [Proxy.empty;
                     Proxy.set_rkey (Manager.get_rkey obj) Proxy.empty])
                (world s1) (calls s1)))
  /\ (forall self tid timeout s,
         Manager.get self tid [] timeout s =
           Return (length (heap s), self)
             (mkState (heap s ++ [Proxy.empty]) (world s) (calls s))
         /\ Proxy.bool Proxy.empty = false).
Proof.
  split; [|split].
  - intros Hinst self tid objs timeout s s'.
    exact (get_not_timeout self tid objs timeout s s' Hinst).
  - exact get_skips_timeout.
  - intros self tid timeout s. split; [apply get_nil|reflexivity].
Qed.

Lemma lookup_alter_snoc (f : Proxy.t -> Proxy.t) (h : list Proxy.t) (l : nat)
    (x : Proxy.t) :
  l < length h ->
  alter f l (h ++ [x]) = alter f l h ++ [x]
  /\ (alter f l h ++ [x]) !! l = f <$> h !! l.
Proof.
  intros Hl. split.
  - apply alter_app_l. exact Hl.
  - rewrite lookup_app_l by (rewrite length_alter; exact Hl).
    apply list_lookup_alter_eq.
Qed.

Lemma bool_lookup_set_rkey (k : string) (h : list Proxy.t) (l : nat) :
  Proxy.bool (default Proxy.empty (Proxy.set_rkey k <$> h !! l))
  = Proxy.bool (default Proxy.empty (h !! l)).
Proof. destruct (h !! l); reflexivity. Qed.

(** A candidate with a cached, non-empty lease: that lease is returned, the
    registry and the collaborators are left alone. *)
Lemma get_returns_cached self tid obj objs timeout s l :
  Manager.getattr (Manager._local self) tid (Manager.get_rkey obj) = Some l ->
  l < length (heap s) ->
  Proxy.bool (default Proxy.empty (heap s !! l)) = true ->
  Manager.get self tid (obj :: objs) timeout s =
    Return (l, self)
      (mkState
         (alter (Proxy.set_rkey (Manager.get_rkey obj)) l (heap s)
          ++ [Proxy.empty])
         (world s) (calls s)).
Proof.
  intros Hcached Hl Hbool.
  rewrite get_cons. cbv zeta. unfold Manager.hasattr. rewrite Hcached.
  cbn [negb]. unfold mret, M_ret, ret. rewrite Hcached.
  cbn [default from_option id].
  destruct (lookup_alter_snoc (Proxy.set_rkey (Manager.get_rkey obj))
              (heap s) l Proxy.empty Hl) as [-> ->].
  rewrite bool_lookup_set_rkey, Hbool. reflexivity.
Qed.

(** A candidate with nothing cached whose provider returns a non-empty
    lease, in a thread-local scope: the lease is cached under the key and
    returned at once. *)
Lemma get_returns_acquired self tid obj objs timeout s attrs pins self1 s0 l s1 :
  Manager._local self = Manager.threading_local attrs ->
  Manager.hasattr (Manager._local self) tid (Manager.get_rkey obj) = false ->
  Manager.build self obj s = Return (pins, self1) s0 ->
  Provider.get pins timeout s0 = Return l s1 ->
  Proxy.bool (default Proxy.empty (heap s1 !! l)) = true ->
  let scope :=
    Manager.threading_local
      (<[tid := <[Manager.get_rkey obj := l]> (default ∅ (attrs !! tid))]>
         attrs) in
  Manager.get self tid (obj :: objs) timeout s =
    Return (l, Manager.with_local scope self1)
      (mkState
         (alter (Proxy.set_rkey (Manager.get_rkey obj)) l (heap s1)
          ++ [Proxy.empty])
         (world s1) (calls s1))
  /\ Manager.getattr scope tid (Manager.get_rkey obj) = Some l.
Proof.
  intros Hlocal Hhas Hbuild Hget Hbool scope.
  assert (Hcached : Manager.getattr scope tid (Manager.get_rkey obj) = Some l).
  { unfold scope. cbn. rewrite lookup_insert_eq. cbn.
    apply lookup_insert_eq. }
  split; [|exact Hcached].
  rewrite get_cons. cbv zeta. rewrite Hhas. cbn [negb].
  rewrite acquire_spec, Hbuild, Hget, Hbool.
  destruct (build_local _ _ _ _ _ _ Hbuild) as (-> & _).
  rewrite Hlocal. cbn [Manager.setattr].
  change (Manager._local (Manager.with_local ?x _)) with x.
  fold scope. rewrite Hcached. cbn [default from_option id].
  destruct (get_returns_fresh _ _ _ _ _ Hget) as (-> & Hlen & _).
  destruct (lookup_alter_snoc (Proxy.set_rkey (Manager.get_rkey obj))
              (heap s1) (length (heap s0)) Proxy.empty ltac:(lia)) as [-> ->].
  rewrite bool_lookup_set_rkey, Hbool. reflexivity.
Qed.

(** Building a candidate leaves what the registry holds under every other
    key. *)
Lemma build_other self obj s pins self1 s0 (k : string) :
  Manager.build self obj s = Return (pins, self1) s0 ->
  k <> Manager.get_rkey obj ->
  Manager.container self1 !! k = Manager.container self !! k.
Proof.
  rewrite build_spec. intros Hbuild Hk.
  destruct (Manager.container self !! Manager.get_rkey obj).
  - injection Hbuild as _ <- _. reflexivity.
  - destruct obj as [fields|p].
    + destruct (instantiate fields (world s)) as [[pins'|e] w]; [|discriminate].
      injection Hbuild as _ <- _. cbn. apply lookup_insert_ne. congruence.
    + injection Hbuild as _ <- _. cbn. apply lookup_insert_ne. congruence.
Qed.

(** Building a candidate removes nothing from the registry. *)
Lemma build_keeps self obj s pins self1 s0 (k : string) p :
  Manager.build self obj s = Return (pins, self1) s0 ->
  Manager.container self !! k = Some p ->
  Manager.container self1 !! k = Some p.
Proof.
  intros Hbuild Hk.
  destruct (decide (k = Manager.get_rkey obj)) as [->|Hne].
  - rewrite build_spec, Hk in Hbuild. injection Hbuild as _ <- _. exact Hk.
  - rewrite (build_other _ _ _ _ _ _ _ Hbuild Hne). exact Hk.
Qed.

(** The lease a provider's public [get] returns names that provider as the
    one it comes from. *)
Lemma get_lease_owner pins timeout s l s' :
  Provider.get pins timeout s = Return l s' ->
  exists p, heap s' !! l = Some p
            /\ Proxy.derive p = Some (BaseProxy.oid pins).
Proof.
  rewrite get_spec.
  destruct (Provider.raw_address pins timeout (world s)) as [[raw|e] w];
    [|discriminate].
  destruct (BaseProxy.fmt pins (Some raw)) as [e|address]; [discriminate|].
  intros [= <- <-]. cbn [heap]. rewrite lookup_snoc.
  eexists. split; reflexivity.
Qed.

(** Two candidates with nothing cached, the first of which times out, and a
    provider [p2] built for the second: the lease [p2] makes is the one
    returned. *)
Lemma get_second self tid obj1 obj2 timeout s attrs pins1 self1 s0 s1 p2 self2
    s2 l s3 :
  Manager._local self = Manager.threading_local attrs ->
  Manager.hasattr (Manager._local self) tid (Manager.get_rkey obj1) = false ->
  Manager.hasattr (Manager._local self) tid (Manager.get_rkey obj2) = false ->
  Manager.build self obj1 s = Return (pins1, self1) s0 ->
  Provider.get pins1 timeout s0 = Raise TimeoutError s1 ->
  Manager.build self1 obj2
    (mkState
       (heap s1
        ++ [Proxy.empty; Proxy.set_rkey (Manager.get_rkey obj1) Proxy.empty])
       (world s1) (calls s1))
  = Return (p2, self2) s2 ->
  Provider.get p2 timeout s2 = Return l s3 ->
  Proxy.bool (default Proxy.empty (heap s3 !! l)) = true ->
  exists self' s' p',
    Manager.get self tid [obj1; obj2] timeout s = Return (l, self') s'
    /\ Manager.getattr (Manager._local self') tid (Manager.get_rkey obj2)
       = Some l
    /\ Manager.container self' !! Manager.get_rkey obj2 = Some p2
    /\ heap s' !! l = Some p'
    /\ Proxy.derive p' = Some (BaseProxy.oid p2)
    /\ Proxy.bool p' = true.
Proof.
  intros Hlocal Hhas1 Hhas2 Hbuild1 Hget1 Hbuild2 Hget2 Hbool.
  rewrite (get_skips_timeout _ _ _ _ _ _ _ _ _ _ Hhas1 Hbuild1 Hget1).
  destruct (build_local _ _ _ _ _ _ Hbuild1) as (Hlocal1 & _).
  rewrite <- Hlocal1 in Hlocal, Hhas2.
  destruct (get_returns_acquired self1 tid obj2 [] timeout _ attrs p2
              self2 s2 l s3 Hlocal Hhas2 Hbuild2 Hget2 Hbool) as [Heq Hcached].
  destruct (get_lease_owner _ _ _ _ _ Hget2) as (p & Hp & Hderive).
  pose proof (lookup_lt_Some _ _ _ Hp) as Hl.
  destruct (build_local _ _ _ _ _ _ Hbuild2) as (_ & Hreg & _).
  eexists _, _, (Proxy.set_rkey (Manager.get_rkey obj2) p).
  split; [exact Heq|]. split; [exact Hcached|]. split; [exact Hreg|].
  cbn [heap].
  destruct (lookup_alter_snoc (Proxy.set_rkey (Manager.get_rkey obj2))
              (heap s3) l Proxy.empty Hl) as [_ ->].
  rewrite Hp. split; [reflexivity|]. split; [exact Hderive|].
  rewrite bool_set_rkey. rewrite Hp in Hbool. exact Hbool.
Qed.

(** C6 (as amended).  [Manager.get] goes through the candidates in order.
    A cached non-empty lease is returned without asking the provider;
    otherwise the provider is taken from the registry, or built and
    registered under the key, and asked: a non-empty lease is cached under
    the key (here in a thread-local scope) and returned at once, an empty
    one sends the loop to the next candidate, and with no candidate left an
    empty lease is returned.  With two candidates with nothing cached, of
    which the first times out: when the second is a live instance whose key
    differs from the first's and has no provider registered under it, or
    when a provider is registered under the second's key, and that provider
    yields a non-empty lease, then that lease, which names the provider as
    its source, is returned and cached under the second's key. *)
Theorem get_first_nonempty :
  (forall self tid obj objs timeout s l,
      Manager.getattr (Manager._local self) tid (Manager.get_rkey obj) = Some l ->
      l < length (heap s) ->
      Proxy.bool (default Proxy.empty (heap s !! l)) = true ->
      Manager.get self tid (obj :: objs) timeout s =
        Return (l, self)
          (mkState
             (alter (Proxy.set_rkey (Manager.get_rkey obj)) l (heap s)
              ++ [Proxy.empty])
             (world s) (calls s)))
  /\ (forall self obj s pins,
         Manager.container self !! Manager.get_rkey obj = Some pins ->
         Manager.build self obj s = Return (pins, self) s)
  /\ (forall self obj s pins self1 s0,
         Manager.build self obj s = Return (pins, self1) s0 ->
         Manager.container self1 !! Manager.get_rkey obj = Some pins)
  /\ (forall self tid obj objs timeout s attrs pins self1 s0 l s1,
         Manager._local self = Manager.threading_local attrs ->
         Manager.hasattr (Manager._local self) tid (Manager.get_rkey obj)
         = false ->
         Manager.build self obj s = Return (pins, self1) s0 ->
         Provider.get pins timeout s0 = Return l s1 ->
         Proxy.bool (default Proxy.empty (heap s1 !! l)) = true ->
         exists self' s',
           Manager.get self tid (obj :: objs) timeout s = Return (l, self') s'
           /\ Manager.getattr (Manager._local self') tid (Manager.get_rkey obj)
              = Some l
           /\ world s' = world s1)
  /\ (forall self tid obj objs timeout s pins self1 s0 l s1,
         Manager.hasattr (Manager._local self) tid (Manager.get_rkey obj)
         = false ->
         Manager.build self obj s = Return (pins, self1) s0 ->
         Provider.get pins timeout s0 = Return l s1 ->
         Proxy.bool (default Proxy.empty (heap s1 !! l)) = false ->
         Manager.get self tid (obj :: objs) timeout s =
           Manager.get self1 tid objs timeout
             (mkState
                (heap s1 ++ [Proxy.set_rkey (Manager.get_rkey obj) Proxy.empty])
                (world s1) (calls s1)))
  /\ (forall self tid timeout s,
         Manager.get self tid [] timeout s =
           Return (length (heap s), self)
             (mkState (heap s ++ [Proxy.empty]) (world s) (calls s)))
  /\ (forall self tid obj1 timeout s attrs pins1 self1 s0 s1 p2 l s3,
         let obj2 := Manager.instance p2 in
         let s2 :=
           mkState
             (heap s1
              ++ [Proxy.empty;
                  Proxy.set_rkey (Manager.get_rkey obj1) Proxy.empty])
             (world s1) (calls s1) in
         Manager._local self = Manager.threading_local attrs ->
         Manager.hasattr (Manager._local self) tid (Manager.get_rkey obj1)
         = false ->
         Manager.hasattr (Manager._local self) tid (Manager.get_rkey obj2)
         = false ->
         Manager.get_rkey obj1 <> Manager.get_rkey obj2 ->
         Manager.container self !! Manager.get_rkey obj2 = None ->
         Manager.build self obj1 s = Return (pins1, self1) s0 ->
         Provider.get pins1 timeout s0 = Raise TimeoutError s1 ->
         Provider.get p2 timeout s2 = Return l s3 ->
         Proxy.bool (default Proxy.empty (heap s3 !! l)) = true ->
         exists self' s' p',
           Manager.get self tid [obj1; obj2] timeout s = Return (l, self') s'
           /\ Manager.getattr (Manager._local self') tid
                (Manager.get_rkey obj2) = Some l
           /\ Manager.container self' !! Manager.get_rkey obj2 = Some p2
           /\ heap s' !! l = Some p'
           /\ Proxy.derive p' = Some (BaseProxy.oid p2)
           /\ Proxy.bool p' = true)
  /\ (forall self tid obj1 obj2 timeout s attrs pins1 self1 s0 s1 p2 l s3,
         let s2 :=
           mkState
             (heap s1
              ++ [Proxy.empty;
                  Proxy.set_rkey (Manager.get_rkey obj1) Proxy.empty])
             (world s1) (calls s1) in
         Manager._local self = Manager.threading_local attrs ->
         Manager.hasattr (Manager._local self) tid (Manager.get_rkey obj1)
         = false ->
         Manager.hasattr (Manager._local self) tid (Manager.get_rkey obj2)
         = false ->
         Manager.container self !! Manager.get_rkey obj2 = Some p2 ->
         Manager.build self obj1 s = Return (pins1, self1) s0 ->
         Provider.get pins1 timeout s0 = Raise TimeoutError s1 ->
         Provider.get p2 timeout s2 = Return l s3 ->
         Proxy.bool (default Proxy.empty (heap s3 !! l)) = true ->
         exists self' s' p',
           Manager.get self tid [obj1; obj2] timeout s = Return (l, self') s'
           /\ Manager.getattr (Manager._local self') tid
                (Manager.get_rkey obj2) = Some l
           /\ Manager.container self' !! Manager.get_rkey obj2 = Some p2
           /\ heap s' !! l = Some p'
           /\ Proxy.derive p' = Some (BaseProxy.oid p2)
           /\ Proxy.bool p' = true).
Proof.
  split; [exact get_returns_cached|].
  split; [intros self obj s pins Hreg; rewrite build_spec, Hreg; reflexivity|].
  split; [intros self obj s pins self1 s0 Hbuild;
          apply (build_local _ _ _ _ _ _ Hbuild)|].
  split.
  { intros self tid obj objs timeout s attrs pins self1 s0 l s1
      Hlocal Hhas Hbuild Hget Hbool.
    destruct (get_returns_acquired self tid obj objs timeout s attrs pins
                self1 s0 l s1 Hlocal Hhas Hbuild Hget Hbool) as [Heq Hcached].
    eexists _, _. split; [exact Heq|]. split; [exact Hcached|reflexivity]. }
  split; [exact get_skips_empty|].
  split; [exact get_nil|].
  split.
  - intros self tid obj1 timeout s attrs pins1 self1 s0 s1 p2 l s3 obj2 s2
      Hlocal Hhas1 Hhas2 Hkeys Hfree Hbuild1 Hget1 Hget2 Hbool.
    eapply (get_second self tid obj1 obj2 timeout s attrs pins1 self1 s0 s1 p2);
      try eassumption.
    rewrite build_spec.
    rewrite (build_other _ _ _ _ _ _ _ Hbuild1) by congruence.
    rewrite Hfree. reflexivity.
  - intros self tid obj1 obj2 timeout s attrs pins1 self1 s0 s1 p2 l s3 s2
      Hlocal Hhas1 Hhas2 Hreg Hbuild1 Hget1 Hget2 Hbool.
    eapply (get_second self tid obj1 obj2 timeout s attrs pins1 self1 s0 s1 p2);
      try eassumption.
    rewrite build_spec.
    rewrite (build_keeps _ _ _ _ _ _ _ _ Hbuild1 Hreg). reflexivity.
Qed.

(** In shared mode the scope is a bare [object()]: storing the lease a
    provider returned raises [AttributeError]. *)
Lemma get_shared_raises self tid obj objs timeout s pins self1 s0 l s1 :
  Manager._local self = Manager.object_ ->
  Manager.build self obj s = Return (pins, self1) s0 ->
  Provider.get pins timeout s0 = Return l s1 ->
  Proxy.bool (default Proxy.empty (heap s1 !! l)) = true ->
  Manager.get self tid (obj :: objs) timeout s = Raise AttributeError s1.
Proof.
  intros Hlocal Hbuild Hget Hbool.
  rewrite get_cons. cbv zeta. rewrite Hlocal. cbn [Manager.hasattr
    Manager.getattr negb].
  rewrite acquire_spec, Hbuild, Hget, Hbool.
  destruct (build_local _ _ _ _ _ _ Hbuild) as (-> & _).
  rewrite Hlocal. reflexivity.
Qed.

Lemma set_mode_shared self (mode : Z) :
  mode <> 0%Z -> Manager._local (Manager.set_mode self mode) = Manager.object_.
Proof.
  intros Hmode. unfold Manager.set_mode.
  destruct (Z.eqb_spec mode 0); [contradiction|reflexivity].
Qed.





End ManagerFacts.

(** ** Worked examples *)

(** A static provider hands out its key, formatted. *)
Lemma get_formats_witness :
  exists s',
    @Provider.get sample_runtime sample_collaborators custom_plain None
      fresh_state = Return 0 s'
    /\ Proxy.proxy <$> heap s' !! 0 = Some (Some "http://1.2.3.4:80"%string).
Proof.
  exact (proj2 (@get_formats sample_runtime sample_collaborators custom_plain
                  None fresh_state)
           "1.2.3.4:80"%string O "http://1.2.3.4:80"%string eq_refl eq_refl).
Defined.

Lemma sample_instantiate_no_timeout (fields : list (string * json.t)) (w : nat) :
  (@instantiate sample_collaborators fields w).1 <> raises TimeoutError.
Proof.
  cbn. destruct (String.eqb _ _); [discriminate|].
  destruct (String.eqb _ _); discriminate.
Qed.

(** A queue provider over an empty store times out; the manager returns an
    empty lease instead. *)
Lemma get_swallows_timeout_witness :
  (forall s',
      @Manager.get sample_runtime sample_collaborators Manager.__init__ 0
        [Manager.record redis_fields] None fresh_state
      <> Raise TimeoutError s')
  /\ exists self' s',
       @Manager.get sample_runtime sample_collaborators Manager.__init__ 0
         [Manager.record redis_fields] None fresh_state
       = Return (2, self') s'
       /\ Proxy.bool <$> heap s' !! 2 = Some false.
Proof.
  split.
  - intros s'.
    exact (proj1 (@get_swallows_timeout sample_runtime sample_collaborators)
             sample_instantiate_no_timeout Manager.__init__ 0
             [Manager.record redis_fields] None fresh_state s').
  - eexists _, _. split; vm_compute; reflexivity.
Defined.

(** The queue provider, registered under the key of its record, times out;
    the static provider that follows it as a live instance succeeds: its
    lease is returned and cached under its key. *)
Lemma get_first_nonempty_witness :
  exists self' s' p',
    @Manager.get sample_runtime sample_collaborators manager_with_redis 0
      [Manager.record redis_fields; Manager.instance custom_plain] None
      fresh_state
    = Return (2, self') s'
    /\ Manager.getattr (Manager._local self') 0 cached_key = Some 2
    /\ Manager.container self' !! cached_key = Some custom_plain
    /\ heap s' !! 2 = Some p'
    /\ Proxy.derive p' = Some 1
    /\ Proxy.bool p' = true.
Proof.
  apply (proj1 (proj2 (proj2 (proj2 (proj2 (proj2 (proj2
           (@get_first_nonempty sample_runtime sample_collaborators)))))))
           manager_with_redis 0 (Manager.record redis_fields) None fresh_state
           ∅ redis_empty manager_with_redis fresh_state (mkState [] 1 [])
           custom_plain 2
           (mkState
              [Proxy.empty; Proxy.set_rkey redis_key Proxy.empty;
               BaseProxy.adopt custom_plain "http://1.2.3.4:80"%string
                 (Proxy.of_address (Some "1.2.3.4:80"%string))]
              1 []));
    vm_compute; try reflexivity; discriminate.
Defined.

(** C6 at its failing input: two live instances.  The queue provider times
    out; the static provider, asked alone, hands out the non-empty lease of
    1.2.3.4:80.  Both instances have the key of the base class, so the
    registry answers the second candidate with the queue provider, which
    times out again (the world counts its two calls): [get] returns an
    empty lease and the static provider is never asked. *)
Lemma get_second_instance_unasked :
  (exists s', @Provider.get sample_runtime sample_collaborators redis_empty
                None fresh_state = Raise TimeoutError s')
  /\ (exists s',
        @Provider.get sample_runtime sample_collaborators custom_plain None
          (mkState [Proxy.empty; Proxy.set_rkey cached_key Proxy.empty] 1 [])
        = Return 2 s'
        /\ Proxy.bool <$> heap s' !! 2 = Some true)
  /\ exists self' s',
       @Manager.get sample_runtime sample_collaborators Manager.__init__ 0
         [Manager.instance redis_empty; Manager.instance custom_plain] None
         fresh_state
       = Return (4, self') s'
       /\ heap s' !! 4 = Some Proxy.empty
       /\ Proxy.bool Proxy.empty = false
       /\ world s' = 2
       /\ Manager.container self' = {[ cached_key := redis_empty ]}
       /\ Manager.getattr (Manager._local self') 0 cached_key = None.
Proof.
  split; [eexists; vm_compute; reflexivity|].
  split; [eexists; split; vm_compute; reflexivity|].
  eexists _, _. repeat split; vm_compute; reflexivity.
Qed.


(** The same record gives the same key. *)
Lemma get_rkey_spec_witness :
  @Manager.get_rkey sample_runtime (Manager.record custom_fields)
  = @Manager.get_rkey sample_runtime
      (Manager.record (custom_fields ++ [])).
Proof.
  exact (proj1 (proj2 (@get_rkey_spec sample_runtime)) custom_fields
           (custom_fields ++ []) eq_refl).
Defined.

(** C8 at its failing input: after [set_mode(1)], a [get] whose provider
    returns the non-empty address 1.2.3.4:80 does not return the lease; it
    ends in [AttributeError], raised when the lease is stored on the bare
    [object()]. *)
Lemma get_in_shared_mode_raises :
  @Manager.get sample_runtime sample_collaborators
    (Manager.set_mode Manager.__init__ 1) 0 [Manager.instance custom_plain]
    None fresh_state
  = Raise AttributeError
      (mkState
         [BaseProxy.adopt custom_plain "http://1.2.3.4:80"%string
            (Proxy.of_address (Some "1.2.3.4:80"%string))]
         O []).
Proof. vm_compute. reflexivity. Qed.

(** ** The pool manager: invariants *)

Section ManagerInvariants.

Context `{Runtime} `{Collaborators}.

Implicit Types (self : Manager.t) (tid : nat) (obj : Manager.config)
  (objs : list Manager.config) (timeout : option Z) (s : State World)
  (pins : BaseProxy.t).

Lemma persists_refl s : persists s s.
Proof. intros l p Hl. exists p. auto. Qed.

Lemma persists_trans s1 s2 s3 : persists s1 s2 -> persists s2 s3 -> persists s1 s3.
Proof.
  intros H12 H23 l p Hl.
  destruct (H12 l p Hl) as (p2 & Hl2 & Hb2).
  destruct (H23 l p2 Hl2) as (p3 & Hl3 & Hb3).
  exists p3. split; [exact Hl3|congruence].
Qed.

Lemma persists_app s s' (extra : list Proxy.t) :
  heap s' = heap s ++ extra -> persists s s'.
Proof.
  intros Heq l p Hl. exists p. split; [|reflexivity].
  rewrite Heq. apply lookup_app_l_Some. exact Hl.
Qed.

Lemma persists_set_rkey s s' (k : string) (l : nat) :
  heap s' = alter (Proxy.set_rkey k) l (heap s) -> persists s s'.
Proof.
  intros Heq l0 p Hl. rewrite Heq.
  destruct (decide (l = l0)) as [->|Hne].
  - exists (Proxy.set_rkey k p). rewrite list_lookup_alter_eq, Hl. auto.
  - exists p. rewrite list_lookup_alter_ne by exact Hne. auto.
Qed.

(** The public [get] of a provider only adds objects to the store. *)
Lemma get_extends pins timeout s :
  match Provider.get pins timeout s with
  | Return _ s' | Raise _ s' => exists extra, heap s' = heap s ++ extra
  end.
Proof.
  rewrite get_spec.
  destruct (Provider.raw_address pins timeout (world s)) as [[raw|e] w].
  - destruct (BaseProxy.fmt pins (Some raw)); eexists; reflexivity.
  - exists []. cbn. rewrite app_nil_r. reflexivity.
Qed.

Lemma getattr_setattr (attrs : gmap nat (gmap string nat)) tid tid'
    (name name' : string) (l : nat) :
  Manager.getattr
    (Manager.threading_local
       (<[tid := <[name := l]> (default ∅ (attrs !! tid))]> attrs)) tid' name'
  = if decide (tid = tid' /\ name = name') then Some l
    else Manager.getattr (Manager.threading_local attrs) tid' name'.
Proof.
  cbn. destruct (decide (tid = tid')) as [<-|Htid].
  - rewrite lookup_insert_eq. cbn.
    destruct (decide (name = name')) as [<-|Hname].
    + rewrite lookup_insert_eq, decide_True by auto. reflexivity.
    + rewrite lookup_insert_ne by exact Hname.
      rewrite decide_False by (intros [_ ?]; contradiction).
      destruct (attrs !! tid); reflexivity.
  - rewrite lookup_insert_ne by exact Htid.
    rewrite decide_False by (intros [? _]; contradiction). reflexivity.
Qed.

Lemma getattr_delattr (attrs : gmap nat (gmap string nat)) tid tid'
    (name name' : string) :
  Manager.getattr
    (Manager.threading_local
       (<[tid := delete name (default ∅ (attrs !! tid))]> attrs)) tid' name'
  = if decide (tid = tid' /\ name = name') then None
    else Manager.getattr (Manager.threading_local attrs) tid' name'.
Proof.
  cbn. destruct (decide (tid = tid')) as [<-|Htid].
  - rewrite lookup_insert_eq. cbn.
    destruct (decide (name = name')) as [<-|Hname].
    + rewrite lookup_delete_eq, decide_True by auto. reflexivity.
    + rewrite lookup_delete_ne by exact Hname.
      rewrite decide_False by (intros [_ ?]; contradiction).
      destruct (attrs !! tid); reflexivity.
  - rewrite lookup_insert_ne by exact Htid.
    rewrite decide_False by (intros [? _]; contradiction). reflexivity.
Qed.

(** What [acquire] leaves behind when it returns: the store has only grown,
    the registry has at most gained the candidate's provider, and the cache
    is as it was except, perhaps, for a new non-empty lease under the
    candidate's key in the calling thread. *)
Lemma acquire_post self tid obj timeout s self1 s1 :
  Manager.acquire self tid obj timeout s = Return self1 s1 ->
  persists s s1
  /\ forall tid' name,
       Manager.getattr (Manager._local self1) tid' name
       = Manager.getattr (Manager._local self) tid' name
       \/ (tid' = tid /\ name = Manager.get_rkey obj
           /\ exists l p,
                Manager.getattr (Manager._local self1) tid' name = Some l
                /\ heap s1 !! l = Some p /\ Proxy.bool p = true).
Proof.
  rewrite acquire_spec.
  destruct (Manager.build self obj s) as [[pins self0] s0|e s0] eqn:Hbuild;
    [|discriminate].
  destruct (build_local _ _ _ _ _ _ Hbuild) as (Hlocal & _ & Hheap & _).
  assert (Hs0 : persists s s0).
  { apply (persists_app _ _ []). rewrite app_nil_r. exact Hheap. }
  pose proof (get_extends pins timeout s0) as Hext.
  destruct (Provider.get pins timeout s0) as [l s'|e s'] eqn:Hget.
  - destruct Hext as [extra Hext].
    assert (Hs1 : persists s s').
    { eapply persists_trans; [exact Hs0|]. eapply persists_app, Hext. }
    destruct (heap s' !! l) as [p|] eqn:Hp; cbn [default from_option id].
    + destruct (Proxy.bool p) eqn:Hbool.
      * destruct (Manager._local self0) as [attrs|] eqn:Hscope; [|discriminate].
        cbn [Manager.setattr]. intros [= <- <-]. split; [exact Hs1|].
        intros tid' name.
        change (Manager._local (Manager.with_local ?x _)) with x.
        rewrite <- Hlocal, getattr_setattr.
        destruct (decide (tid = tid' /\ Manager.get_rkey obj = name))
          as [[<- <-]|_]; [|left; reflexivity].
        right. repeat split. exists l, p. auto.
      * intros [= <- <-]. split; [exact Hs1|].
        intros tid' name. left. rewrite Hlocal. reflexivity.
    + cbn [Proxy.bool Proxy.empty Proxy.__init__ Proxy.proxy].
      intros [= <- <-]. split; [exact Hs1|].
      intros tid' name. left. rewrite Hlocal. reflexivity.
  - destruct e; try discriminate. destruct Hext as [extra Hext].
    intros [= <- <-]. split.
    + eapply persists_trans; [exact Hs0|].
      apply (persists_app _ _ (extra ++ [Proxy.empty])). cbn [heap].
      rewrite Hext, app_assoc. reflexivity.
    + intros tid' name. left. rewrite Hlocal. reflexivity.
Qed.

Lemma cache_ok_persists self s s' :
  cache_ok self s -> persists s s' -> cache_ok self s'.
Proof.
  intros Hok Hper tid name l Hl.
  destruct (Hok tid name l Hl) as (p & Hp & Hb).
  destruct (Hper l p Hp) as (p' & Hp' & Hb').
  exists p'. split; [exact Hp'|congruence].
Qed.

(** What [Manager.get] leaves behind when it returns. *)
Lemma get_post self tid objs timeout s l self' s' :
  cache_ok self s ->
  Manager.get self tid objs timeout s = Return (l, self') s' ->
  persists s s'
  /\ cache_ok self' s'
  /\ (forall tid' name,
        Manager.getattr (Manager._local self') tid' name
        = Manager.getattr (Manager._local self) tid' name
        \/ (tid' = tid
            /\ Manager.getattr (Manager._local self') tid' name = Some l))
  /\ exists p,
       heap s' !! l = Some p
       /\ if Proxy.bool p
          then exists obj,
                 obj ∈ objs
                 /\ Manager.getattr (Manager._local self') tid
                      (Manager.get_rkey obj) = Some l
                 /\ Proxy.rkey p = Some (Manager.get_rkey obj)
          else p = Proxy.empty.
Proof.
  revert self s. induction objs as [|obj objs IH]; intros self s Hok.
  - rewrite get_nil. intros [= <- <- <-].
    split; [eapply persists_app; reflexivity|].
    split; [eapply cache_ok_persists; [exact Hok|];
            eapply persists_app; reflexivity|].
    split; [left; reflexivity|].
    exists Proxy.empty. cbn [heap]. rewrite lookup_snoc.
    split; reflexivity.
  - rewrite get_cons. cbv zeta.
    set (rkey := Manager.get_rkey obj) in *.
    assert (Hstep : forall self1 s1,
      (if negb (Manager.hasattr (Manager._local self) tid rkey)
       then Manager.acquire self tid obj timeout else mret self) s
      = Return self1 s1 ->
      persists s s1 /\ cache_ok self1 s1
      /\ forall tid' name,
           Manager.getattr (Manager._local self1) tid' name
           = Manager.getattr (Manager._local self) tid' name
           \/ (tid' = tid /\ name = rkey)).
    { intros self1 s1. destruct (negb _).
      - intros Hacq. destruct (acquire_post _ _ _ _ _ _ _ Hacq) as [Hper Hattr].
        split; [exact Hper|]. split.
        + intros tid' name l' Hl'.
          destruct (Hattr tid' name) as [Heq|(_ & _ & l0 & p & Hl0 & Hp & Hb)].
          * rewrite Heq in Hl'. destruct (Hok _ _ _ Hl') as (p & Hp & Hb).
            destruct (Hper _ _ Hp) as (p' & Hp' & Hb').
            exists p'. split; [exact Hp'|congruence].
          * rewrite Hl0 in Hl'. injection Hl' as <-. eauto.
        + intros tid' name.
          destruct (Hattr tid' name) as [Heq|(Heq & Hname & _)]; auto.
      - intros [= <- <-]. split; [apply persists_refl|]. auto. }
    destruct ((if negb (Manager.hasattr (Manager._local self) tid rkey)
               then Manager.acquire self tid obj timeout
               else mret self) s) as [self1 s1|e s1] eqn:Hfirst;
      [|discriminate].
    destruct (Hstep self1 s1 eq_refl) as (Hper1 & Hok1 & Hattr1).
    set (temp := default (length (heap s1))
                   (Manager.getattr (Manager._local self1) tid rkey)).
    set (h := alter (Proxy.set_rkey rkey) temp (heap s1 ++ [Proxy.empty])).
    set (s2 := mkState h (world s1) (calls s1)).
    assert (Hper2 : persists s1 s2).
    { eapply persists_trans;
        [apply (persists_app s1 (mkState (heap s1 ++ [Proxy.empty])
                                   (world s1) (calls s1)) [Proxy.empty]);
         reflexivity|].
      apply (persists_set_rkey _ _ rkey temp). reflexivity. }
    assert (Hok2 : cache_ok self1 s2)
      by (eapply cache_ok_persists; [exact Hok1|exact Hper2]).
    destruct (Proxy.bool (default Proxy.empty (h !! temp))) eqn:Hbool.
    + intros [= <- <- <-].
      split; [eapply persists_trans; eassumption|].
      split; [exact Hok2|].
      subst s2 h temp.
      destruct (Manager.getattr (Manager._local self1) tid rkey) as [l0|]
        eqn:Hcached; cbn [default from_option id heap] in *.
      * split.
        { intros tid' name.
          destruct (Hattr1 tid' name) as [Heq|[-> ->]]; [left; exact Heq|].
          right. auto. }
        destruct (Hok1 _ _ _ Hcached) as (p & Hp & Hb).
        pose proof (lookup_lt_Some _ _ _ Hp) as Hlt.
        exists (Proxy.set_rkey rkey p).
        destruct (lookup_alter_snoc (Proxy.set_rkey rkey) (heap s1) l0
                    Proxy.empty Hlt) as [-> ->].
        rewrite Hp. split; [reflexivity|].
        rewrite bool_set_rkey, Hb. exists obj.
        split; [apply list_elem_of_here|]. split; [exact Hcached|reflexivity].
      * exfalso.
        rewrite alter_snoc, lookup_snoc in Hbool. discriminate Hbool.
    + intros Hrec.
      destruct (IH self1 s2 Hok2 Hrec) as (Hper3 & Hok3 & Hattr3 & p & Hp & Hres).
      assert (Hnone : Manager.getattr (Manager._local self1) tid rkey = None).
      { destruct (Manager.getattr (Manager._local self1) tid rkey) as [l0|]
          eqn:Hcached; [|reflexivity]. exfalso.
        destruct (Hok1 _ _ _ Hcached) as (p0 & Hp0 & Hb0).
        pose proof (lookup_lt_Some _ _ _ Hp0) as Hlt.
        subst h temp. cbn [default from_option id] in Hbool.
        destruct (lookup_alter_snoc (Proxy.set_rkey rkey) (heap s1) l0
                    Proxy.empty Hlt) as [Ha Hb].
        rewrite Ha, Hb, bool_lookup_set_rkey, Hp0 in Hbool.
        cbn [default from_option id] in Hbool. congruence. }
      split; [eapply persists_trans; [exact Hper1|];
              eapply persists_trans; eassumption|].
      split; [exact Hok3|].
      split.
      { intros tid' name.
        destruct (Hattr3 tid' name) as [Heq3|Hnew]; [|right; exact Hnew].
        destruct (Hattr1 tid' name) as [Heq1|[-> ->]].
        - left. congruence.
        - left. rewrite Heq3, Hnone.
          destruct (Manager.getattr (Manager._local self) tid rkey) as [l0|]
            eqn:Hc; [|reflexivity].
          exfalso. unfold Manager.hasattr in Hfirst. rewrite Hc in Hfirst.
          cbn in Hfirst. injection Hfirst as Hself _. rewrite <- Hself in Hnone.
          congruence. }
      exists p. split; [exact Hp|].
      destruct (Proxy.bool p); [|exact Hres].
      destruct Hres as (obj' & Hin & Hres). exists obj'.
      split; [apply list_elem_of_further; exact Hin|exact Hres].
Qed.

Lemma cache_ok_init s : cache_ok Manager.__init__ s.
Proof. intros tid name l Hl. cbn in Hl. rewrite lookup_empty in Hl. discriminate. Qed.

(** X1.  In a thread-local scope a [get] by one thread leaves what every
    other thread has cached exactly as it was. *)
Theorem get_leaves_other_threads self tid objs timeout s l self' s' tid' name :
  cache_ok self s ->
  Manager.get self tid objs timeout s = Return (l, self') s' ->
  tid' <> tid ->
  Manager.getattr (Manager._local self') tid' name
  = Manager.getattr (Manager._local self) tid' name.
Proof.
  intros Hok Hget Hne.
  destruct (get_post _ _ _ _ _ _ _ _ Hok Hget) as (_ & _ & Hattr & _).
  destruct (Hattr tid' name) as [Heq|[Heq _]]; [exact Heq|contradiction].
Qed.

(** X2.  [Manager.get] keeps the cache sound (every cached reference leads
    to a non-empty lease), and what it returns is either a non-empty lease
    that is now cached for the calling thread under the key of one of the
    candidates and carries that key, or a lease equal to [Proxy()]. *)
Theorem get_returns_cached_or_empty self tid objs timeout s l self' s' :
  cache_ok self s ->
  Manager.get self tid objs timeout s = Return (l, self') s' ->
  cache_ok self' s'
  /\ exists p,
       heap s' !! l = Some p
       /\ if Proxy.bool p
          then exists obj,
                 obj ∈ objs
                 /\ Manager.getattr (Manager._local self') tid
                      (Manager.get_rkey obj) = Some l
                 /\ Proxy.rkey p = Some (Manager.get_rkey obj)
          else p = Proxy.empty.
Proof.
  intros Hok Hget.
  destruct (get_post _ _ _ _ _ _ _ _ Hok Hget) as (_ & Hok' & _ & Hres).
  split; assumption.
Qed.

(** [Manager.now] in closed form. *)
Lemma now_spec self tid objs s :
  Manager.now self tid objs s =
    match head (omap (fun obj =>
                        Manager.getattr (Manager._local self) tid
                          (Manager.get_rkey obj)) objs) with
    | Some l => Return l s
    | None =>
        Return (length (heap s))
          (mkState (heap s ++ [Proxy.empty]) (world s) (calls s))
    end.
Proof.
  induction objs as [|obj objs IH]; [reflexivity|].
  cbn [Manager.now omap list_omap].
  destruct (Manager.getattr (Manager._local self) tid (Manager.get_rkey obj));
    [reflexivity|exact IH].
Qed.

Lemma get_head_cached self tid objs timeout s l self' s' p :
  cache_ok self s ->
  Manager.get self tid objs timeout s = Return (l, self') s' ->
  heap s' !! l = Some p ->
  Proxy.bool p = true ->
  head (omap (fun obj =>
                Manager.getattr (Manager._local self') tid
                  (Manager.get_rkey obj)) objs) = Some l.
Proof.
  revert self s. induction objs as [|obj objs IH]; intros self s Hok Hget Hp Hb.
  - rewrite get_nil in Hget. injection Hget as <- <- <-.
    cbn [heap] in Hp. rewrite lookup_snoc in Hp. injection Hp as <-.
    discriminate Hb.
  - pose proof Hget as Hget0. rewrite get_cons in Hget. cbv zeta in Hget.
    destruct ((if negb (Manager.hasattr (Manager._local self) tid
                          (Manager.get_rkey obj))
               then Manager.acquire self tid obj timeout
               else mret self) s) as [self1 s1|e s1] eqn:Hfirst;
      [|discriminate].
    assert (Hok1 : cache_ok self1 s1).
    { destruct (negb _).
      - destruct (acquire_post _ _ _ _ _ _ _ Hfirst) as [Hper Hattr].
        intros tid' name l' Hl'.
        destruct (Hattr tid' name) as [Heq|(_ & _ & l0 & p0 & Hl0 & Hp0 & Hb0)].
        + rewrite Heq in Hl'. destruct (Hok _ _ _ Hl') as (p0 & Hp0 & Hb0).
          destruct (Hper _ _ Hp0) as (p' & Hp' & Hb').
          exists p'. split; [exact Hp'|congruence].
        + rewrite Hl0 in Hl'. injection Hl' as <-. eauto.
      - injection Hfirst as <- <-. exact Hok. }
    cbn [omap list_omap].
    destruct (Manager.getattr (Manager._local self1) tid (Manager.get_rkey obj))
      as [l0|] eqn:Hcached; cbn [default from_option id] in Hget.
    + destruct (Hok1 _ _ _ Hcached) as (p0 & Hp0 & Hb0).
      pose proof (lookup_lt_Some _ _ _ Hp0) as Hlt.
      destruct (lookup_alter_snoc (Proxy.set_rkey (Manager.get_rkey obj))
                  (heap s1) l0 Proxy.empty Hlt) as [Ha Hl0].
      rewrite Ha, Hl0, bool_lookup_set_rkey, Hp0 in Hget.
      cbn [default from_option id] in Hget. rewrite Hb0 in Hget.
      injection Hget as <- <- <-. rewrite Hcached. reflexivity.
    + rewrite alter_snoc, lookup_snoc in Hget.
      cbn [default from_option id] in Hget. rewrite bool_set_rkey in Hget.
      cbn [Proxy.bool Proxy.empty Proxy.__init__ Proxy.proxy] in Hget.
      assert (Hok2 : cache_ok self1
                (mkState (heap s1 ++ [Proxy.set_rkey (Manager.get_rkey obj)
                                        Proxy.empty]) (world s1) (calls s1))).
      { eapply cache_ok_persists; [exact Hok1|].
        eapply persists_app. reflexivity. }
      destruct (get_post _ _ _ _ _ _ _ _ Hok2 Hget) as (_ & _ & Hattr & _).
      specialize (IH _ _ Hok2 Hget Hp Hb).
      destruct (Hattr tid (Manager.get_rkey obj)) as [Heq|[_ Heq]];
        rewrite Heq; [rewrite Hcached; exact IH|reflexivity].
Qed.

(** X3.  After a [get] that returned a non-empty lease, [now] on the same
    candidates by the same thread returns that very lease and changes
    nothing. *)
Theorem get_then_now self tid objs timeout s l self' s' p :
  cache_ok self s ->
  Manager.get self tid objs timeout s = Return (l, self') s' ->
  heap s' !! l = Some p ->
  Proxy.bool p = true ->
  Manager.now self' tid objs s' = Return l s'.
Proof.
  intros Hok Hget Hp Hb.
  rewrite now_spec, (get_head_cached _ _ _ _ _ _ _ _ _ Hok Hget Hp Hb).
  reflexivity.
Qed.

(** X4.  Every live provider instance has the same key, so once one
    instance is registered, [build] answers every other instance with the
    registered one and never registers the other. *)
Theorem build_instances_collide self (p1 p2 : BaseProxy.t) s s2 :
  Manager.container self !! Manager.get_rkey (Manager.instance p1) = None ->
  exists self1,
    Manager.build self (Manager.instance p1) s = Return (p1, self1) s
    /\ Manager.build self1 (Manager.instance p2) s2 = Return (p1, self1) s2.
Proof.
  intros Hfree. rewrite build_spec, Hfree. eexists. split; [reflexivity|].
  rewrite build_spec. cbn [Manager.container].
  change (Manager.get_rkey (Manager.instance p2))
    with (Manager.get_rkey (Manager.instance p1)).
  rewrite lookup_insert_eq. reflexivity.
Qed.

(** X5.  [set_mode], whichever mode it selects, forgets every lease cached
    so far (for every thread, [now] finds nothing and returns a new
    [Proxy()]) and keeps the registry of built providers. *)
Theorem set_mode_forgets self (mode : Z) tid objs s :
  Manager.now (Manager.set_mode self mode) tid objs s
  = Return (length (heap s))
      (mkState (heap s ++ [Proxy.empty]) (world s) (calls s))
  /\ Manager.container (Manager.set_mode self mode) = Manager.container self.
Proof.
  split.
  - rewrite now_spec.
    replace (omap _ objs) with (@nil nat); [reflexivity|].
    induction objs as [|obj objs IH]; [reflexivity|].
    cbn [omap list_omap]. rewrite <- IH.
    unfold Manager.set_mode. destruct (mode =? 0)%Z; cbn.
    + rewrite lookup_empty. reflexivity.
    + reflexivity.
  - unfold Manager.set_mode. destruct (mode =? 0)%Z; reflexivity.
Qed.

End ManagerInvariants.

Section ManagerRelease.

Context `{Runtime} `{Collaborators}.

Implicit Types (self : Manager.t) (s : State World).

(** No callback removes an object from the store. *)
Lemma applied_keeps (f : slot) (l : nat) (h : list Proxy.t) (w : World) :
  length h <= length (applied f l h w).1.2.
Proof.
  destruct f as [| |g]; cbn [applied fst snd]; [lia..|apply invoke_keeps].
Qed.

(** The step [clear] and [recover] share: the callback [f] of the cached
    lease runs, then the slot is deleted. *)
Lemma release_step self tid (name : string) (l : nat) (f : slot) s self1 s1 :
  Manager.getattr (Manager._local self) tid name = Some l ->
  (call f l;; Manager.update_local self
                (Manager.delattr (Manager._local self) tid name)) s
  = Return self1 s1 ->
  applied f l (heap s) (world s) = (returns tt, heap s1, world s1)
  /\ calls s1 = calls s ++ ((fun g => (g, l)) <$> called f)
  /\ Manager.container self1 = Manager.container self
  /\ Manager._context self1 = Manager._context self
  /\ forall tid' name',
       Manager.getattr (Manager._local self1) tid' name'
       = if decide (tid = tid' /\ name = name') then None
         else Manager.getattr (Manager._local self) tid' name'.
Proof.
  intros Hcached Hrun.
  unfold mbind, M_bind, bind in Hrun. rewrite call_spec in Hrun.
  destruct (Manager._local self) as [attrs|] eqn:Hlocal; [|discriminate].
  assert (Hdel : Manager.delattr (Manager.threading_local attrs) tid name
                 = inr (Manager.threading_local
                          (<[tid := delete name (default ∅ (attrs !! tid))]>
                             attrs))).
  { unfold Manager.delattr, Manager.hasattr. rewrite Hcached. reflexivity. }
  rewrite Hdel in Hrun. cbn [Manager.update_local] in Hrun.
  assert (Hattr : forall tid' name',
             Manager.getattr
               (Manager._local
                  (Manager.with_local
                     (Manager.threading_local
                        (<[tid := delete name (default ∅ (attrs !! tid))]>
                           attrs)) self)) tid' name'
             = if decide (tid = tid' /\ name = name') then None
               else Manager.getattr (Manager.threading_local attrs) tid' name').
  { intros tid' name'. apply getattr_delattr. }
  destruct (applied f l (heap s) (world s)) as [[[[]|e] h1] w1];
    [|discriminate].
  injection Hrun as <- <-. repeat split; try reflexivity. exact Hattr.
Qed.

Lemma release_merge (name name' : string) (names : list string)
    (x : option nat) (tid tid' : nat) :
  (if decide (tid' = tid /\ name' ∈ names) then None
   else if decide (tid = tid' /\ name = name') then None else x)
  = if decide (tid' = tid /\ name' ∈ name :: names) then None else x.
Proof.
  destruct (decide (tid' = tid /\ name' ∈ names)) as [[-> Hin]|Hn].
  - rewrite decide_True; [reflexivity|]. split; [reflexivity|].
    apply elem_of_cons. right. exact Hin.
  - destruct (decide (tid = tid' /\ name = name')) as [[-> ->]|Hn'].
    + rewrite decide_True; [reflexivity|]. split; [reflexivity|].
      apply elem_of_cons. left. reflexivity.
    + rewrite decide_False; [reflexivity|]. intros [-> Hin].
      apply elem_of_cons in Hin as [->|Hin]; [apply Hn'|apply Hn]; auto.
Qed.

(** What a [clear] that returns leaves behind.  The store is touched by
    the callbacks only. *)
Lemma clear_post self tid objs s self' s' :
  Manager.clear self tid objs s = Return self' s' ->
  length (heap s) <= length (heap s')
  /\ ((forall obj l p g h w,
         obj ∈ objs ->
         Manager.getattr (Manager._local self) tid (Manager.get_rkey obj)
         = Some l ->
         heap s !! l = Some p ->
         Proxy.clear p = Callable g ->
         (invoke g l h w).1.2 = h) ->
      heap s' = heap s)
  /\ Manager.container self' = Manager.container self
  /\ forall tid' name,
       Manager.getattr (Manager._local self') tid' name
       = if decide (tid' = tid /\ name ∈ (Manager.get_rkey <$> objs))
         then None
         else Manager.getattr (Manager._local self) tid' name.
Proof.
  revert self s. induction objs as [|obj objs IH]; intros self s Hrun.
  - injection Hrun as <- <-. repeat split; [lia|]. intros tid' name.
    rewrite decide_False; [reflexivity|]. intros [_ Hin].
    apply elem_of_nil in Hin. exact Hin.
  - cbn [Manager.clear] in Hrun.
    destruct (Manager.getattr (Manager._local self) tid (Manager.get_rkey obj))
      as [l|] eqn:Hcached.
    + unfold mbind at 1, M_bind at 1, bind at 1, deref at 1 in Hrun.
      set (f := Proxy.clear (default Proxy.empty (heap s !! l))) in Hrun.
      destruct ((call f l;; Manager.update_local self
                   (Manager.delattr (Manager._local self) tid
                      (Manager.get_rkey obj))) s) as [self1 s1|e s1] eqn:Hstep.
      * destruct (release_step _ _ _ _ _ _ _ _ Hcached Hstep)
          as (Happ & _ & Hcont & _ & Hattr).
        assert (Hrest : Manager.clear self1 tid objs s1 = Return self' s').
        { revert Hrun Hstep. unfold mbind, M_bind, bind.
          destruct (call f l s) as [[] s0|e s0]; [|discriminate].
          intros Hrun Hstep. rewrite Hstep in Hrun. exact Hrun. }
        destruct (IH _ _ Hrest) as (Hlen' & Hheap' & Hcont' & Hattr').
        pose proof (applied_keeps f l (heap s) (world s)) as Hlen.
        rewrite Happ in Hlen. cbn [fst snd] in Hlen.
        split; [lia|]. split; [|split; [congruence|]].
        -- intros Hquiet.
           assert (Hsame : heap s1 = heap s).
           { destruct (heap s !! l) as [p|] eqn:Hp.
             - cbn [default from_option id] in f.
               destruct (Proxy.clear p) as [| |g] eqn:Hclear; subst f;
                 cbn [applied] in Happ; [congruence..|].
               pose proof (Hquiet obj l p g (heap s) (world s)
                             ltac:(apply elem_of_cons; auto) Hcached Hp Hclear)
                 as Hq.
               rewrite Happ in Hq. exact Hq.
             - subst f. cbn in Happ. congruence. }
           rewrite <- Hsame. apply Hheap'.
           intros obj' l' p' g h w Hin Hc' Hp' Hclear'.
           rewrite Hattr in Hc'.
           destruct (decide (tid = tid /\ _)); [discriminate|].
           rewrite Hsame in Hp'.
           apply (Hquiet obj' l' p' g h w); auto.
           apply elem_of_cons. auto.
        -- intros tid' name. rewrite Hattr', Hattr. cbn [fmap list_fmap].
           apply release_merge.
      * exfalso. revert Hrun Hstep. unfold mbind, M_bind, bind.
        destruct (call f l s) as [[] s0|e0 s0]; [|discriminate].
        intros Hrun Hstep. rewrite Hstep in Hrun. discriminate.
    + destruct (IH _ _ Hrun) as (Hlen' & Hheap' & Hcont' & Hattr').
      split; [exact Hlen'|]. split; [|split; [exact Hcont'|]].
      * intros Hquiet. apply Hheap'.
        intros obj' l' p' g h w Hin. apply Hquiet. apply elem_of_cons. auto.
      * intros tid' name. rewrite Hattr'. cbn [fmap list_fmap].
        rewrite <- (release_merge (Manager.get_rkey obj) name _ _ tid tid').
        destruct (decide (tid' = tid /\ _)); [reflexivity|].
        destruct (decide (tid = tid' /\ _)) as [[<- <-]|]; [|reflexivity].
        exact Hcached.
Qed.

(** With none of the candidates cached for the thread, [clear] does
    nothing. *)
Lemma clear_uncached self tid objs s :
  (forall obj, obj ∈ objs ->
     Manager.getattr (Manager._local self) tid (Manager.get_rkey obj) = None) ->
  Manager.clear self tid objs s = Return self s.
Proof.
  induction objs as [|obj objs IH]; intros Hnone; [reflexivity|].
  cbn [Manager.clear]. rewrite (Hnone obj) by (apply elem_of_cons; auto).
  apply IH. intros obj' Hin. apply Hnone. apply elem_of_cons. auto.
Qed.

(** X6.  A [clear] that returns has deleted, for the calling thread, the
    slot of every candidate listed and nothing else: the other slots of the
    thread, the slots of every other thread and the registry of built
    providers are as before.  [clear] itself writes to no lease: no object
    leaves the store, and when the clear callbacks of the leases cached for
    the candidates leave the store as they find it, every lease object is as
    before.  A second [clear] of the same candidates then does nothing at
    all: no callback runs again. *)
Theorem clear_forgets self tid objs s self' s' :
  Manager.clear self tid objs s = Return self' s' ->
  length (heap s) <= length (heap s')
  /\ ((forall obj l p g h w,
         obj ∈ objs ->
         Manager.getattr (Manager._local self) tid (Manager.get_rkey obj)
         = Some l ->
         heap s !! l = Some p ->
         Proxy.clear p = Callable g ->
         (invoke g l h w).1.2 = h) ->
      heap s' = heap s)
  /\ Manager.container self' = Manager.container self
  /\ (forall tid' name,
        Manager.getattr (Manager._local self') tid' name
        = if decide (tid' = tid /\ name ∈ (Manager.get_rkey <$> objs))
          then None
          else Manager.getattr (Manager._local self) tid' name)
  /\ Manager.clear self' tid objs s' = Return self' s'.
Proof.
  intros Hrun.
  destruct (clear_post _ _ _ _ _ _ Hrun) as (Hlen & Hheap & Hcont & Hattr).
  split; [exact Hlen|]. split; [exact Hheap|]. split; [exact Hcont|].
  split; [exact Hattr|].
  apply clear_uncached. intros obj Hin.
  rewrite Hattr, decide_True; [reflexivity|].
  split; [reflexivity|]. apply list_elem_of_fmap. exists obj. auto.
Qed.

(** X7.  [recover] releases exactly as [clear] does, with the recover
    callback in place of the clear callback: when it returns, the slot of
    every listed candidate is gone for the calling thread and nothing else
    in the cache or the registry changed; no object has left the store, and
    when the recover callbacks of the leases cached for the candidates leave
    the store as they find it, every lease object is as before. *)
Theorem recover_forgets self tid objs s self' s' :
  Manager.recover self tid objs s = Return self' s' ->
  length (heap s) <= length (heap s')
  /\ ((forall obj l p g h w,
         obj ∈ objs ->
         Manager.getattr (Manager._local self) tid (Manager.get_rkey obj)
         = Some l ->
         heap s !! l = Some p ->
         Proxy.recover p = Callable g ->
         (invoke g l h w).1.2 = h) ->
      heap s' = heap s)
  /\ Manager.container self' = Manager.container self
  /\ forall tid' name,
       Manager.getattr (Manager._local self') tid' name
       = if decide (tid' = tid /\ name ∈ (Manager.get_rkey <$> objs))
         then None
         else Manager.getattr (Manager._local self) tid' name.
Proof.
  revert self s. induction objs as [|obj objs IH]; intros self s Hrun.
  - injection Hrun as <- <-. repeat split; [lia|]. intros tid' name.
    rewrite decide_False; [reflexivity|]. intros [_ Hin].
    apply elem_of_nil in Hin. exact Hin.
  - cbn [Manager.recover] in Hrun.
    destruct (Manager.getattr (Manager._local self) tid (Manager.get_rkey obj))
      as [l|] eqn:Hcached.
    + unfold mbind at 1, M_bind at 1, bind at 1, deref at 1 in Hrun.
      set (f := Proxy.recover (default Proxy.empty (heap s !! l))) in Hrun.
      destruct ((call f l;; Manager.update_local self
                   (Manager.delattr (Manager._local self) tid
                      (Manager.get_rkey obj))) s) as [self1 s1|e s1] eqn:Hstep.
      * destruct (release_step _ _ _ _ _ _ _ _ Hcached Hstep)
          as (Happ & _ & Hcont & _ & Hattr).
        assert (Hrest : Manager.recover self1 tid objs s1 = Return self' s').
        { revert Hrun Hstep. unfold mbind, M_bind, bind.
          destruct (call f l s) as [[] s0|e s0]; [|discriminate].
          intros Hrun Hstep. rewrite Hstep in Hrun. exact Hrun. }
        destruct (IH _ _ Hrest) as (Hlen' & Hheap' & Hcont' & Hattr').
        pose proof (applied_keeps f l (heap s) (world s)) as Hlen.
        rewrite Happ in Hlen. cbn [fst snd] in Hlen.
        split; [lia|]. split; [|split; [congruence|]].
        -- intros Hquiet.
           assert (Hsame : heap s1 = heap s).
           { destruct (heap s !! l) as [p|] eqn:Hp.
             - cbn [default from_option id] in f.
               destruct (Proxy.recover p) as [| |g] eqn:Hrec; subst f;
                 cbn [applied] in Happ; [congruence..|].
               pose proof (Hquiet obj l p g (heap s) (world s)
                             ltac:(apply elem_of_cons; auto) Hcached Hp Hrec)
                 as Hq.
               rewrite Happ in Hq. exact Hq.
             - subst f. cbn in Happ. congruence. }
           rewrite <- Hsame. apply Hheap'.
           intros obj' l' p' g h w Hin Hc' Hp' Hrec'.
           rewrite Hattr in Hc'.
           destruct (decide (tid = tid /\ _)); [discriminate|].
           rewrite Hsame in Hp'.
           apply (Hquiet obj' l' p' g h w); auto.
           apply elem_of_cons. auto.
        -- intros tid' name. rewrite Hattr', Hattr. cbn [fmap list_fmap].
           apply release_merge.
      * exfalso. revert Hrun Hstep. unfold mbind, M_bind, bind.
        destruct (call f l s) as [[] s0|e0 s0]; [|discriminate].
        intros Hrun Hstep. rewrite Hstep in Hrun. discriminate.
    + destruct (IH _ _ Hrun) as (Hlen' & Hheap' & Hcont' & Hattr').
      split; [exact Hlen'|]. split; [|split; [exact Hcont'|]].
      * intros Hquiet. apply Hheap'.
        intros obj' l' p' g h w Hin. apply Hquiet. apply elem_of_cons. auto.
      * intros tid' name. rewrite Hattr'. cbn [fmap list_fmap].
        rewrite <- (release_merge (Manager.get_rkey obj) name _ _ tid tid').
        destruct (decide (tid' = tid /\ _)); [reflexivity|].
        destruct (decide (tid = tid' /\ _)) as [[<- <-]|]; [|reflexivity].
        exact Hcached.
Qed.

End ManagerRelease.

Section ManagerUse.

Context `{Runtime} `{Collaborators}.

Implicit Types (self : Manager.t) (s : State World).

(** X8.  [Manager.use] on a lease that is still valid (no threshold, or the
    counter below it) leaves the manager as it is and calls nothing; the
    only effect is the step of the lease's counter. *)
Theorem use_keeps_valid self tid l s p :
  heap s !! l = Some p ->
  (Proxy.tick p).2 = true ->
  Manager.use self tid l s
  = Return self
      (mkState (<[l := (Proxy.tick p).1.1]> (heap s)) (world s) (calls s)).
Proof.
  intros Hp Hvalid.
  unfold Manager.use, use_lease, mbind, M_bind, bind, deref, modify.
  rewrite Hp. cbn [default from_option id].
  destruct (Proxy.tick p) as [[p' invoked] state] eqn:Huse.
  cbn in Hvalid. subst state. cbn [fst snd heap world calls].
  assert (invoked = []) as ->.
  { unfold Proxy.tick in Huse. destruct (Proxy.threshold p).
    - injection Huse as _ <-. reflexivity.
    - destruct (n <=? Proxy.counter p)%Z; [discriminate|].
      injection Huse as _ <-. reflexivity. }
  cbn. rewrite alter_const. reflexivity.
Qed.

(** [Manager.use] on a lease whose threshold is reached, by what the recover
    callback does. *)
Lemma use_exhausted self tid l s p (n : Z) :
  heap s !! l = Some p ->
  Proxy.threshold p = finite n ->
  (n <= Proxy.counter p)%Z ->
  Manager.use self tid l s =
    match applied (Proxy.recover p) l
            (<[l := Proxy.set_counter (Proxy.counter p + 1) p]> (heap s))
            (world s) with
    | (returns _, h1, w1) =>
        let s1 :=
          mkState h1 w1
            (calls s ++ ((fun g => (g, l)) <$> called (Proxy.recover p))) in
        match Proxy.rkey (default Proxy.empty (h1 !! l)) with
        | None => Raise (Exception "TypeError") s1
        | Some rkey =>
            if Manager.hasattr (Manager._local self) tid rkey
            then Manager.update_local self
                   (Manager.delattr (Manager._local self) tid rkey) s1
            else Return self s1
        end
    | (raises e, h1, w1) =>
        Raise e
          (mkState h1 w1
             (calls s ++ ((fun g => (g, l)) <$> called (Proxy.recover p))))
    end.
Proof.
  intros Hp Hthr Hle.
  unfold Manager.use, mbind, M_bind, bind at 1.
  rewrite (use_lease_spec l s p n Hp Hthr). cbv zeta.
  replace (Proxy.counter p <? n)%Z with false by (symmetry; apply Z.ltb_ge; lia).
  destruct (applied _ _ _ _) as [[[[]|e] h1] w1]; [|reflexivity].
  unfold bind, deref. cbn [heap].
  destruct (Proxy.rkey _); [|reflexivity].
  destruct (Manager.hasattr _ _ _); reflexivity.
Qed.

(** X9.  [Manager.use] on a lease whose threshold is reached: the counter
    steps, the recover callback (if callable; here it returns) is called
    once on the lease, and the calling thread's slot under the key the lease
    carries afterwards is deleted, whichever lease that slot holds; every
    other slot stays.  The store and the world are those the callback
    left. *)
Theorem use_evicts_exhausted self tid l s p (n : Z) (k : string) attrs h1 w1
    p1 :
  heap s !! l = Some p ->
  Proxy.threshold p = finite n ->
  (n <= Proxy.counter p)%Z ->
  Manager._local self = Manager.threading_local attrs ->
  applied (Proxy.recover p) l
    (<[l := Proxy.set_counter (Proxy.counter p + 1) p]> (heap s)) (world s)
  = (returns tt, h1, w1) ->
  h1 !! l = Some p1 ->
  Proxy.rkey p1 = Some k ->
  exists self' s',
    Manager.use self tid l s = Return self' s'
    /\ heap s' = h1
    /\ world s' = w1
    /\ calls s' = calls s ++ ((fun g => (g, l)) <$> called (Proxy.recover p))
    /\ Manager.container self' = Manager.container self
    /\ forall tid' name,
         Manager.getattr (Manager._local self') tid' name
         = if decide (tid = tid' /\ k = name) then None
           else Manager.getattr (Manager._local self) tid' name.
Proof.
  intros Hp Hthr Hle Hlocal Hcb Hp1 Hkey.
  rewrite (use_exhausted self tid l s p n Hp Hthr Hle), Hcb. cbv zeta.
  rewrite Hp1. cbn [default from_option id]. rewrite Hkey.
  unfold Manager.hasattr.
  destruct (Manager.getattr (Manager._local self) tid k) as [l0|] eqn:Hc.
  - assert (Hdel : Manager.delattr (Manager._local self) tid k
                   = inr (Manager.threading_local
                            (<[tid := delete k (default ∅ (attrs !! tid))]>
                               attrs))).
    { unfold Manager.delattr. rewrite Hlocal. rewrite <- Hlocal at 1.
      unfold Manager.hasattr. rewrite Hc. reflexivity. }
    rewrite Hdel. eexists _, _. split; [reflexivity|].
    repeat (split; [reflexivity|]).
    intros tid' name.
    change (Manager._local (Manager.with_local ?x _)) with x.
    rewrite Hlocal. apply getattr_delattr.
  - eexists _, _. split; [reflexivity|]. repeat (split; [reflexivity|]).
    intros tid' name.
    destruct (decide (tid = tid' /\ k = name)) as [[<- <-]|];
      [exact Hc|reflexivity].
Qed.

(** X10.  A lease that carries no key (one made by hand, not handed out by
    [Manager.get]) makes [Manager.use] end in [TypeError] once its threshold
    is reached and its recover callback, if any, has returned: [hasattr] is
    asked for the attribute named [None]. *)
Theorem use_without_key_raises self tid l s p (n : Z) h1 w1 p1 :
  heap s !! l = Some p ->
  Proxy.threshold p = finite n ->
  (n <= Proxy.counter p)%Z ->
  applied (Proxy.recover p) l
    (<[l := Proxy.set_counter (Proxy.counter p + 1) p]> (heap s)) (world s)
  = (returns tt, h1, w1) ->
  h1 !! l = Some p1 ->
  Proxy.rkey p1 = None ->
  Manager.use self tid l s
  = Raise (Exception "TypeError")
      (mkState h1 w1
         (calls s ++ ((fun g => (g, l)) <$> called (Proxy.recover p)))).
Proof.
  intros Hp Hthr Hle Hcb Hp1 Hkey.
  rewrite (use_exhausted self tid l s p n Hp Hthr Hle), Hcb. cbv zeta.
  rewrite Hp1. cbn [default from_option id]. rewrite Hkey. reflexivity.
Qed.

(** What [acquire] caches is an object made during the call. *)
Lemma acquire_new self tid obj timeout s self1 s1 :
  Manager.acquire self tid obj timeout s = Return self1 s1 ->
  length (heap s) <= length (heap s1)
  /\ forall tid' name l,
       Manager.getattr (Manager._local self1) tid' name = Some l ->
       Manager.getattr (Manager._local self) tid' name = Some l
       \/ length (heap s) <= l.
Proof.
  rewrite acquire_spec.
  destruct (Manager.build self obj s) as [[pins self0] s0|e s0] eqn:Hbuild;
    [|discriminate].
  destruct (build_local _ _ _ _ _ _ Hbuild) as (Hlocal & _ & Hheap & _).
  apply (f_equal length) in Hheap.
  destruct (Provider.get pins timeout s0) as [l s'|e s'] eqn:Hget.
  - destruct (get_returns_fresh _ _ _ _ _ Hget) as (-> & Hlen & _).
    destruct (Proxy.bool _).
    + destruct (Manager._local self0) as [attrs|] eqn:Hscope; [|discriminate].
      cbn [Manager.setattr]. intros [= <- <-]. split; [lia|].
      intros tid' name l.
      change (Manager._local (Manager.with_local ?x _)) with x.
      rewrite <- Hlocal, getattr_setattr.
      destruct (decide _); [intros [= <-]; right; lia|auto].
    + intros [= <- <-]. split; [lia|]. intros tid' name l.
      rewrite Hlocal. auto.
  - destruct e; try discriminate.
    pose proof (get_raises_heap _ _ _ _ _ Hget) as Hh.
    intros [= <- <-]. cbn [heap]. rewrite length_app. split; [lia|].
    intros tid' name l. rewrite Hlocal. auto.
Qed.

(** With none of the candidates cached for the thread, whatever
    [Manager.get] returns is an object made during the call. *)
Lemma get_uncached_new self tid objs timeout s l self' s' :
  (forall obj, obj ∈ objs ->
     Manager.getattr (Manager._local self) tid (Manager.get_rkey obj) = None) ->
  Manager.get self tid objs timeout s = Return (l, self') s' ->
  length (heap s) <= l.
Proof.
  revert self s. induction objs as [|obj objs IH]; intros self s Hnone Hget.
  - rewrite get_nil in Hget. injection Hget as <- _ _. lia.
  - rewrite get_cons in Hget. cbv zeta in Hget.
    unfold Manager.hasattr in Hget at 1.
    rewrite (Hnone obj) in Hget by (apply elem_of_cons; auto).
    cbn [negb] in Hget.
    destruct (Manager.acquire self tid obj timeout s) as [self1 s1|e s1]
      eqn:Hacq; [|discriminate].
    destruct (acquire_new _ _ _ _ _ _ _ Hacq) as [Hlen Hnew].
    destruct (acquire_post _ _ _ _ _ _ _ Hacq) as [_ Hattr].
    destruct (Manager.getattr (Manager._local self1) tid (Manager.get_rkey obj))
      as [l0|] eqn:Hcached; cbn [default from_option id] in Hget.
    + destruct (Hattr tid (Manager.get_rkey obj))
        as [Heq|(_ & _ & l1 & p1 & Hl1 & Hp1 & Hb1)].
      { rewrite Hcached, (Hnone obj) in Heq by (apply elem_of_cons; auto).
        discriminate. }
      rewrite Hcached in Hl1. injection Hl1 as <-.
      pose proof (lookup_lt_Some _ _ _ Hp1) as Hlt.
      destruct (lookup_alter_snoc (Proxy.set_rkey (Manager.get_rkey obj))
                  (heap s1) l0 Proxy.empty Hlt) as [Ha Hl0].
      rewrite Ha, Hl0, bool_lookup_set_rkey, Hp1 in Hget.
      cbn [default from_option id] in Hget. rewrite Hb1 in Hget.
      injection Hget as <- _ _.
      destruct (Hnew _ _ _ Hcached) as [Hold|Hge]; [|exact Hge].
      rewrite (Hnone obj) in Hold by (apply elem_of_cons; auto).
      discriminate.
    + rewrite alter_snoc, lookup_snoc in Hget.
      cbn [default from_option id] in Hget. rewrite bool_set_rkey in Hget.
      cbn [Proxy.bool Proxy.empty Proxy.__init__ Proxy.proxy] in Hget.
      apply IH in Hget.
      * cbn [heap] in Hget. rewrite length_app in Hget. cbn in Hget. lia.
      * intros obj' Hin.
        destruct (Hattr tid (Manager.get_rkey obj'))
          as [Heq|(_ & Hname & l1 & _ & Hl1 & _)].
        -- rewrite Heq. apply Hnone. apply elem_of_cons. auto.
        -- rewrite Hname in Hl1. rewrite Hcached in Hl1. discriminate.
Qed.

(** X11.  In the thread-isolated mode [fresh] never hands back a lease that
    existed before the call: whatever it returns, and so whatever was cached
    for the candidates before, the lease returned is an object made during
    the call. *)
Theorem fresh_returns_new self tid objs m s l self' s' :
  Manager.fresh self tid objs = Some m ->
  m s = Return (l, self') s' ->
  length (heap s) <= l.
Proof.
  unfold Manager.fresh. destruct (Manager._context self); [|discriminate].
  intros [= <-]. unfold mbind, M_bind, bind.
  destruct (Manager.clear self tid objs s) as [self1 s1|e s1] eqn:Hclear;
    [|discriminate].
  destruct (clear_post _ _ _ _ _ _ Hclear) as (Hlen & _ & _ & Hattr).
  intros Hget. etransitivity; [exact Hlen|].
  eapply get_uncached_new; [|exact Hget].
  intros obj Hin. rewrite Hattr, decide_True; [reflexivity|].
  split; [reflexivity|]. apply list_elem_of_fmap. exists obj. auto.
Qed.

End ManagerUse.

(** X1 at a first [get] by thread 0: thread 1 sees what it saw before. *)
Lemma get_leaves_other_threads_witness :
  Manager.getattr (Manager._local manager_after_get) 1 custom_key
  = Manager.getattr (Manager._local Manager.__init__) 1 custom_key.
Proof.
  apply (@get_leaves_other_threads sample_runtime sample_collaborators
           Manager.__init__ 0 [Manager.record custom_fields] None fresh_state
           0 manager_after_get state_after_get 1 custom_key).
  - apply cache_ok_init.
  - vm_compute; reflexivity.
  - lia.
Defined.

(** X2 at a first [get] of the static record. *)
Lemma get_returns_cached_or_empty_witness :
  @cache_ok nat manager_after_get state_after_get
  /\ exists p,
       heap state_after_get !! 0 = Some p
       /\ if Proxy.bool p
          then exists obj,
                 obj ∈ [Manager.record custom_fields]
                 /\ Manager.getattr (Manager._local manager_after_get) 0
                      (@Manager.get_rkey sample_runtime obj) = Some 0
                 /\ Proxy.rkey p = Some (@Manager.get_rkey sample_runtime obj)
          else p = Proxy.empty.
Proof.
  apply (@get_returns_cached_or_empty sample_runtime sample_collaborators
           Manager.__init__ 0 [Manager.record custom_fields] None fresh_state
           0 manager_after_get state_after_get).
  - apply cache_ok_init.
  - vm_compute; reflexivity.
Defined.

(** X3 at a first [get] of the static record. *)
Lemma get_then_now_witness :
  @Manager.now sample_runtime nat manager_after_get 0
    [Manager.record custom_fields] state_after_get
  = Return 0 state_after_get.
Proof.
  apply (@get_then_now sample_runtime sample_collaborators
           Manager.__init__ 0 [Manager.record custom_fields] None fresh_state
           0 manager_after_get state_after_get custom_lease).
  - apply cache_ok_init.
  - vm_compute; reflexivity.
  - reflexivity.
  - reflexivity.
Defined.

(** X4 with two different static providers. *)
Lemma build_instances_collide_witness :
  exists self1,
    @Manager.build sample_runtime sample_collaborators Manager.__init__
      (Manager.instance custom_plain) fresh_state
    = Return (custom_plain, self1) fresh_state
    /\ @Manager.build sample_runtime sample_collaborators self1
         (Manager.instance custom_with_credentials) fresh_state
       = Return (custom_plain, self1) fresh_state.
Proof.
  apply (@build_instances_collide sample_runtime sample_collaborators
           Manager.__init__ custom_plain custom_with_credentials
           fresh_state fresh_state).
  vm_compute; reflexivity.
Defined.

(** X6 on the cached lease of thread 0, whose clear callback writes
    nothing. *)
Lemma clear_forgets_witness :
  heap cleared_state = heap cached_state
  /\ Manager.container released_manager = Manager.container cached_manager
  /\ (forall tid' name,
        Manager.getattr (Manager._local released_manager) tid' name
        = if decide (tid' = 0
                     /\ name ∈ (@Manager.get_rkey sample_runtime
                                  <$> [Manager.instance custom_plain]))
          then None
          else Manager.getattr (Manager._local cached_manager) tid' name)
  /\ @Manager.clear sample_runtime sample_collaborators released_manager 0
       [Manager.instance custom_plain] cleared_state
     = Return released_manager cleared_state.
Proof.
  destruct (@clear_forgets sample_runtime sample_collaborators cached_manager 0
              [Manager.instance custom_plain] cached_state released_manager
              cleared_state ltac:(vm_compute; reflexivity))
    as (_ & Hheap & Hrest).
  split; [|exact Hrest].
  apply Hheap. intros obj l p g h w Hin Hcached Hp Hclear.
  apply list_elem_of_singleton in Hin. subst obj.
  vm_compute in Hcached. injection Hcached as <-.
  injection Hp as <-. injection Hclear as <-. reflexivity.
Defined.

(** X7 on a lease of thread 0 whose recover callback is a function that
    writes nothing: the callback is called once, the slot goes. *)
Lemma recover_forgets_witness :
  heap (mkState [used_lease] O [(Function 0, O)]) = heap used_state
  /\ Manager.container released_manager = Manager.container cached_manager
  /\ forall tid' name,
       Manager.getattr (Manager._local released_manager) tid' name
       = if decide (tid' = 0
                    /\ name ∈ (@Manager.get_rkey sample_runtime
                                 <$> [Manager.instance custom_plain]))
         then None
         else Manager.getattr (Manager._local cached_manager) tid' name.
Proof.
  destruct (@recover_forgets sample_runtime sample_collaborators cached_manager
              0 [Manager.instance custom_plain] used_state released_manager
              (mkState [used_lease] O [(Function 0, O)])
              ltac:(vm_compute; reflexivity))
    as (_ & Hheap & Hrest).
  split; [|exact Hrest].
  apply Hheap. intros obj l p g h w Hin Hcached Hp Hrec.
  apply list_elem_of_singleton in Hin. subst obj.
  vm_compute in Hcached. injection Hcached as <-.
  injection Hp as <-. injection Hrec as <-. reflexivity.
Defined.

(** X8 on the first use of a lease with threshold 2. *)
Lemma use_keeps_valid_witness :
  @Manager.use sample_collaborators cached_manager 0 0 unused_state
  = Return cached_manager
      (mkState (<[0 := (Proxy.tick lease_of_two).1.1]> (heap unused_state))
         (world unused_state) (calls unused_state)).
Proof.
  apply (@use_keeps_valid sample_collaborators cached_manager 0 0 unused_state
           lease_of_two).
  - reflexivity.
  - reflexivity.
Defined.

(** X9 on the second use of a lease with threshold 2 handed out under
    [cached_key]: the recover callback is called, and the slot of thread 0
    goes. *)
Lemma use_evicts_exhausted_witness :
  exists self' s',
    @Manager.use sample_collaborators cached_manager 0 0 used_state
    = Return self' s'
    /\ heap s' = [Proxy.set_counter 3 used_lease]
    /\ world s' = O
    /\ calls s' = calls used_state
                  ++ ((fun g => (g, 0)) <$> called (Proxy.recover used_lease))
    /\ Manager.container self' = Manager.container cached_manager
    /\ forall tid' name,
         Manager.getattr (Manager._local self') tid' name
         = if decide (0 = tid' /\ cached_key = name) then None
           else Manager.getattr (Manager._local cached_manager) tid' name.
Proof.
  apply (@use_evicts_exhausted sample_collaborators cached_manager 0 0
           used_state used_lease 2 cached_key {[ O := {[ cached_key := O ]} ]}
           [Proxy.set_counter 3 used_lease] O (Proxy.set_counter 3 used_lease)).
  - reflexivity.
  - reflexivity.
  - vm_compute; discriminate.
  - reflexivity.
  - reflexivity.
  - reflexivity.
  - reflexivity.
Defined.

(** X10 on the second use of a hand-made lease with threshold 2. *)
Lemma use_without_key_raises_witness :
  @Manager.use sample_collaborators cached_manager 0 0 handmade_state
  = Raise (Exception "TypeError")
      (mkState [Proxy.set_counter 3 lease_of_two] O [(Function 0, O)]).
Proof.
  apply (@use_without_key_raises sample_collaborators cached_manager 0 0
           handmade_state (Proxy.set_counter 2 lease_of_two) 2
           [Proxy.set_counter 3 lease_of_two] O
           (Proxy.set_counter 3 lease_of_two)).
  - reflexivity.
  - reflexivity.
  - vm_compute; discriminate.
  - reflexivity.
  - reflexivity.
  - reflexivity.
Defined.

(** X11 on the cached lease of thread 0: the lease returned is a new one. *)
Lemma fresh_returns_new_witness : length (heap cached_state) <= 1.
Proof.
  apply (@fresh_returns_new sample_runtime sample_collaborators cached_manager
           0 [Manager.instance custom_plain]
           (self ← @Manager.clear sample_runtime sample_collaborators
                     cached_manager 0 [Manager.instance custom_plain];
            @Manager.get sample_runtime sample_collaborators self 0
              [Manager.instance custom_plain] None)
           cached_state 1 refreshed_manager refreshed_state).
  - reflexivity.
  - vm_compute; reflexivity.
Defined.

Section NamedHostFacts.

Context `{Runtime}.

Local Open Scope string_scope.

Implicit Types (self : BaseProxy.t) (host port : string) (c : ascii).

Lemma digit_no_delim c :
  str.is_digit c = true ->
  negb (urllib.unsafe_byte c) = true
  /\ negb (Ascii.eqb c "#") = true
  /\ negb (Ascii.eqb c "?") = true
  /\ negb (Ascii.eqb c ";") = true.
Proof.
  destruct c as [[] [] [] [] [] [] [] []]; vm_compute;
    first [discriminate | intros _; repeat split; reflexivity].
Qed.

(** [urlsplit] takes a host name that starts with a letter for a scheme. *)
Lemma urlsplit_named (check_host : string -> bool) host port :
  valid_scheme host = true ->
  str.all str.is_digit port = true ->
  urllib.urlsplit check_host (host ++ ":" ++ port)
  = inr (str.lower host, "", port, "", "").
Proof.
  intros Hhost Hport.
  destruct host as [|c0 host']; [discriminate|].
  apply andb_prop in Hhost as [Hc0 Hall].
  unfold urllib.urlsplit.
  change (urllib.lstrip (String c0 host' ++ ":" ++ port))
    with (if urllib.c0_control_or_space c0
          then urllib.lstrip (host' ++ ":" ++ port)
          else String c0 host' ++ ":" ++ port).
  rewrite (alpha_not_stripped c0 Hc0).
  rewrite filter_all.
  2:{ rewrite !all_app. apply andb_true_intro. split.
      - eapply all_impl; [|exact Hall]. intros c Hc.
        apply (scheme_char_plain c Hc).
      - apply andb_true_intro. split; [reflexivity|].
        eapply all_impl; [|exact Hport]. intros c Hc.
        apply (digit_no_delim c Hc). }
  change (String c0 host' ++ ":" ++ port)
    with (String c0 host' ++ String ":" port).
  rewrite partition_app.
  2:{ eapply all_impl; [|exact Hall]. intros c Hc.
      apply (scheme_char_plain c Hc). }
  cbv beta iota. rewrite Hc0, Hall. cbv beta iota.
  change (andb true true) with true. cbv beta iota.
  assert (Hnet : forall (f : string -> string * string),
             match port with
             | String "/" (String "/" rest) => f rest
             | _ => ("", port)
             end = ("", port)).
  { intros f. destruct port as [|d port']; [reflexivity|].
    apply andb_prop in Hport as [Hd _].
    destruct (digit_plain d Hd) as (_ & _ & Hslash). clear -Hslash.
    destruct d as [[] [] [] [] [] [] [] []]; try reflexivity.
    discriminate Hslash. }
  rewrite Hnet. cbv beta iota.
  change (str.contains "[" "") with false.
  change (str.contains "]" "") with false. cbv beta iota.
  cbn [andb orb negb].
  rewrite (contains_all "#" port), (contains_all "?" port).
  2,3: eapply all_impl; [|exact Hport]; intros c Hc;
       apply (digit_no_delim c Hc).
  reflexivity.
Qed.

(** X12.  An address [name:port] whose host is a name, not a number (a
    letter first, then letters, digits, [+], [-] or [.], as in
    [localhost:8080] or [proxy.example.com:3128]) comes out of [fmt] exactly
    as it went in: neither the provider's scheme nor its credentials are
    added, whatever they are. *)
Theorem fmt_named_host_unchanged self host port :
  valid_scheme host = true ->
  str.all str.is_digit port = true ->
  BaseProxy.fmt self (Some (host ++ ":" ++ port))
  = inr (host ++ ":" ++ port).
Proof.
  intros Hhost Hport.
  unfold BaseProxy.fmt, urllib.urlparse.
  rewrite (urlsplit_named _ host port Hhost Hport).
  rewrite (contains_all ";" port), andb_false_r.
  2:{ eapply all_impl; [|exact Hport]. intros c Hc.
      apply (digit_no_delim c Hc). }
  destruct host as [|c0 host']; [discriminate|].
  cbn [BaseProxy.truthy str.of_optional].
  change (str.nonempty (String c0 host' ++ ":" ++ port)) with true.
  cbn [negb urllib.path urllib.netloc urllib.scheme].
  rewrite nonempty_lower.
  change (str.nonempty (String c0 host')) with true.
  change (str.nonempty "") with false.
  cbn [negb andb]. rewrite andb_false_r.
  reflexivity.
Qed.

End NamedHostFacts.

(** X12 on [localhost:8080], with credentials configured. *)
Lemma fmt_named_host_unchanged_witness :
  @BaseProxy.fmt sample_runtime custom_with_credentials
    (Some "localhost:8080"%string)
  = inr "localhost:8080"%string.
Proof.
  exact (@fmt_named_host_unchanged sample_runtime custom_with_credentials
           "localhost"%string "8080"%string eq_refl eq_refl).
Defined.

(** X13 on the three shapes, for a provider without credentials. *)
Lemma fmt_idempotent_without_credentials_witness :
  exists out,
    @BaseProxy.fmt sample_runtime custom_plain (Some "//1.2.3.4:80"%string)
    = inr out
    /\ @BaseProxy.fmt sample_runtime custom_plain (Some out) = inr out.
Proof.
  apply (@fmt_idempotent_without_credentials sample_runtime custom_plain
           "//1.2.3.4:80"%string).
  - reflexivity.
  - reflexivity.
  - right. left. exists "1.2.3.4:80"%string. split; reflexivity.
Defined.

(** X14 on the parse result of [localhost:8080], which passes the first
    three branches over. *)
Lemma fmt_embedded_branch_dead_witness :
  BaseProxy.truthy
    (urllib.username (urllib.mk "localhost" "" "8080" "" "" ""))
  && BaseProxy.truthy
       (urllib.password (urllib.mk "localhost" "" "8080" "" "" ""))
  = false.
Proof.
  apply (fmt_embedded_branch_dead (urllib.mk "localhost" "" "8080" "" "" ""));
    reflexivity.
Defined.

(** ** pandora.prepare *)

Section PrepareFacts.

Import inspect.

Context {V T : Type} `{Countable T}.
Context (type_ : V -> T) (dict_ : gmap string V -> V).

Implicit Types (parameters : list (Parameter_ T)) (param : Parameter_ T)
  (p : @pandora.prepared V) (index : nat) (args new_args : list V)
  (kwargs namespace new_kwargs : gmap string V) (annotations : gmap T V)
  (k : string) (v : V).

(** One step of the loop on a named parameter, by the value chosen. *)
Lemma loop_named args kwargs annotations namespace param parameters index
    new_args new_kwargs :
  kind param <> VAR_POSITIONAL ->
  kind param <> VAR_KEYWORD ->
  pandora.loop type_ args kwargs annotations namespace (param :: parameters)
    index new_args new_kwargs
  = match pandora.value_of type_ args kwargs annotations namespace param
            index with
    | pandora.missing => inl (Exception "TypeError")
    | pandora.default_ =>
        pandora.loop type_ args kwargs annotations namespace parameters
          index new_args new_kwargs
    | pandora.take value index' =>
        pandora.loop type_ args kwargs annotations namespace parameters
          index'
          (match kind param with
           | POSITIONAL_ONLY => new_args ++ [value]
           | _ => new_args
           end)
          (match kind param with
           | KEYWORD_ONLY | POSITIONAL_OR_KEYWORD =>
               <[name param := value]> new_kwargs
           | _ => new_kwargs
           end)
    end.
Proof.
  intros Hp Hk. cbn [pandora.loop].
  destruct (kind param); try contradiction; reflexivity.
Qed.

Lemma kind_cases param :
  kind param = VAR_POSITIONAL \/ kind param = VAR_KEYWORD
  \/ kind param = POSITIONAL_ONLY \/ pandora.by_keyword param.
Proof. unfold pandora.by_keyword. destruct (kind param); auto. Qed.

(** Where the keys of the prepared keyword arguments come from. *)
Lemma loop_keys args kwargs annotations namespace parameters index new_args
    new_kwargs p k :
  pandora.loop type_ args kwargs annotations namespace parameters index
    new_args new_kwargs = inr p ->
  is_Some (pandora.kwargs p !! k) ->
  is_Some (new_kwargs !! k)
  \/ (exists param, param ∈ parameters /\ pandora.by_keyword param
                    /\ name param = k)
  \/ (is_Some (kwargs !! k)
      /\ exists param, param ∈ parameters /\ kind param = VAR_KEYWORD).
Proof.
  revert index new_args new_kwargs.
  induction parameters as [|param parameters IH];
    intros index new_args new_kwargs Hrun Hk.
  - injection Hrun as <-. left. exact Hk.
  - assert (Hrest : forall index' new_args' new_kwargs',
               pandora.loop type_ args kwargs annotations namespace
                 parameters index' new_args' new_kwargs' = inr p ->
               (is_Some (new_kwargs' !! k) ->
                is_Some (new_kwargs !! k)
                \/ (pandora.by_keyword param /\ name param = k)
                \/ (is_Some (kwargs !! k) /\ kind param = VAR_KEYWORD)) ->
               is_Some (new_kwargs !! k)
               \/ (exists param', param' ∈ param :: parameters
                                  /\ pandora.by_keyword param'
                                  /\ name param' = k)
               \/ (is_Some (kwargs !! k)
                   /\ exists param', param' ∈ param :: parameters
                                     /\ kind param' = VAR_KEYWORD)).
    { intros index' new_args' new_kwargs' Hrun' Hstep.
      destruct (IH _ _ _ Hrun' Hk) as [Hnew|[(q & Hq & Hkw & Hn)|(Hin & q & Hq & Hv)]].
      - destruct (Hstep Hnew) as [?|[[? ?]|[? ?]]]; [auto| |].
        + right. left. exists param. split; [apply elem_of_cons; auto|auto].
        + right. right. split; [assumption|].
          exists param. split; [apply elem_of_cons; auto|auto].
      - right. left. exists q. split; [apply elem_of_cons; auto|auto].
      - right. right. split; [assumption|].
        exists q. split; [apply elem_of_cons; auto|auto]. }
    destruct (kind_cases param) as [Hkind|[Hkind|Hkind]].
    + cbn [pandora.loop] in Hrun. rewrite Hkind in Hrun.
      apply (Hrest _ _ _ Hrun). auto.
    + cbn [pandora.loop] in Hrun. rewrite Hkind in Hrun.
      apply (Hrest _ _ _ Hrun). intros Hsome.
      apply lookup_union_is_Some in Hsome as [Hsome|Hsome]; auto.
    + rewrite loop_named in Hrun
        by (destruct Hkind as [Hkind|[Hkind|Hkind]]; rewrite Hkind; discriminate).
      destruct (pandora.value_of _ _ _ _ _ _ _) as [value index'| |];
        [| |discriminate].
      * apply (Hrest _ _ _ Hrun). intros Hsome.
        destruct Hkind as [Hkind|Hkind].
        -- rewrite Hkind in Hsome. auto.
        -- destruct (decide (name param = k)) as [Heq|Hne]; [auto|].
           left. destruct Hkind as [Hkind|Hkind]; rewrite Hkind in Hsome;
             rewrite lookup_insert_ne in Hsome by exact Hne; exact Hsome.
      * apply (Hrest _ _ _ Hrun). auto.
Qed.

(** X15.  Every keyword argument [prepare] hands on is named after a
    parameter of the function that can be passed by keyword, or, only when
    the function has a [**] parameter, was among the keyword arguments
    given.  So a keyword argument the function does not know is dropped
    silently. *)
Theorem prepare_keeps_known_keywords parameters args kwargs annotations
    namespace p k :
  pandora.prepare type_ dict_ (pandora.def parameters) args kwargs
    annotations namespace = inr p ->
  is_Some (pandora.kwargs p !! k) ->
  (exists param, param ∈ parameters /\ pandora.by_keyword param
                 /\ name param = k)
  \/ (is_Some (kwargs !! k)
      /\ exists param, param ∈ parameters /\ kind param = VAR_KEYWORD).
Proof.
  intros Hrun Hk. cbn [pandora.prepare] in Hrun.
  destruct (loop_keys _ _ _ _ _ _ _ _ _ _ Hrun Hk) as [Hempty|Hrest];
    [|exact Hrest].
  rewrite lookup_empty in Hempty. destruct Hempty as [? [=]].
Qed.

(** Keys bound so far stay bound, and every parameter without a default
    that can be passed by keyword gets bound. *)
Lemma loop_binds args kwargs annotations namespace parameters index new_args
    new_kwargs p :
  pandora.loop type_ args kwargs annotations namespace parameters index
    new_args new_kwargs = inr p ->
  (forall k, is_Some (new_kwargs !! k) -> is_Some (pandora.kwargs p !! k))
  /\ forall param, param ∈ parameters -> pandora.by_keyword param ->
       has_default param = false ->
       is_Some (pandora.kwargs p !! name param).
Proof.
  revert index new_args new_kwargs.
  induction parameters as [|param parameters IH];
    intros index new_args new_kwargs Hrun.
  - injection Hrun as <-. split; [auto|].
    intros param Hin. apply elem_of_nil in Hin. contradiction.
  - destruct (kind_cases param) as [Hkind|[Hkind|Hkind]].
    + cbn [pandora.loop] in Hrun. rewrite Hkind in Hrun.
      destruct (IH _ _ _ Hrun) as [Hkeep Hreq]. split; [exact Hkeep|].
      intros q [->|Hq]%elem_of_cons Hkw Hdef; [|auto].
      destruct Hkw as [Hkw|Hkw]; rewrite Hkind in Hkw; discriminate.
    + cbn [pandora.loop] in Hrun. rewrite Hkind in Hrun.
      destruct (IH _ _ _ Hrun) as [Hkeep Hreq]. split.
      * intros k Hk. apply Hkeep. apply lookup_union_is_Some. auto.
      * intros q [->|Hq]%elem_of_cons Hkw Hdef; [|auto].
        destruct Hkw as [Hkw|Hkw]; rewrite Hkind in Hkw; discriminate.
    + rewrite loop_named in Hrun
        by (destruct Hkind as [Hkind|[Hkind|Hkind]]; rewrite Hkind; discriminate).
      destruct (pandora.value_of _ _ _ _ _ _ _) as [value index'| |] eqn:Hval;
        [| |discriminate].
      * destruct (IH _ _ _ Hrun) as [Hkeep Hreq]. split.
        -- intros k Hk. apply Hkeep.
           destruct (kind param); try exact Hk;
             (destruct (decide (name param = k)) as [->|Hne];
              [rewrite lookup_insert_eq; eauto
              |rewrite lookup_insert_ne by exact Hne; exact Hk]).
        -- intros q [->|Hq]%elem_of_cons Hkw Hdef; [|auto].
           apply Hkeep.
           destruct Hkw as [Hkw|Hkw]; rewrite Hkw;
             rewrite lookup_insert_eq; eauto.
      * destruct (IH _ _ _ Hrun) as [Hkeep Hreq]. split; [exact Hkeep|].
        intros q [->|Hq]%elem_of_cons Hkw Hdef; [|auto].
        exfalso. revert Hval. unfold pandora.value_of.
        destruct (kwargs !! name param); [discriminate|].
        destruct (namespace !! name param); [discriminate|].
        destruct (annotations !! annotation param), (args !! index);
          try discriminate.
        -- destruct (decide _); discriminate.
        -- rewrite Hdef. discriminate.
Qed.

(** The only failure of the loop. *)
Lemma loop_raises args kwargs annotations namespace parameters index new_args
    new_kwargs e :
  pandora.loop type_ args kwargs annotations namespace parameters index
    new_args new_kwargs = inl e ->
  e = Exception "TypeError"
  /\ exists param, param ∈ parameters
       /\ has_default param = false
       /\ kwargs !! name param = None
       /\ namespace !! name param = None
       /\ annotations !! annotation param = None.
Proof.
  revert index new_args new_kwargs.
  induction parameters as [|param parameters IH];
    intros index new_args new_kwargs Hrun; [discriminate|].
  assert (Hrest : forall index' new_args' new_kwargs',
             pandora.loop type_ args kwargs annotations namespace
               parameters index' new_args' new_kwargs' = inl e ->
             e = Exception "TypeError"
             /\ exists param', param' ∈ param :: parameters
                  /\ has_default param' = false
                  /\ kwargs !! name param' = None
                  /\ namespace !! name param' = None
                  /\ annotations !! annotation param' = None).
  { intros index' new_args' new_kwargs' Hrun'.
    destruct (IH _ _ _ Hrun') as (-> & q & Hq & Hd & Hk & Hn & Ha).
    split; [reflexivity|]. exists q.
    split; [apply elem_of_cons; auto|]. repeat split; auto. }
  destruct (kind_cases param) as [Hkind|[Hkind|Hkind]].
  - cbn [pandora.loop] in Hrun. rewrite Hkind in Hrun. eauto.
  - cbn [pandora.loop] in Hrun. rewrite Hkind in Hrun. eauto.
  - rewrite loop_named in Hrun
      by (destruct Hkind as [Hkind|[Hkind|Hkind]]; rewrite Hkind; discriminate).
    destruct (pandora.value_of _ _ _ _ _ _ _) as [value index'| |] eqn:Hval;
      [eauto|eauto|].
    injection Hrun as <-. split; [reflexivity|]. exists param.
    split; [apply elem_of_cons; auto|].
    revert Hval. unfold pandora.value_of.
    destruct (kwargs !! name param); [discriminate|].
    destruct (namespace !! name param); [discriminate|].
    destruct (annotations !! annotation param), (args !! index);
      try discriminate.
    + destruct (decide _); discriminate.
    + destruct (has_default param); [discriminate|]. auto.
Qed.

(** X16.  [prepare] either returns, and then every parameter without a
    default that can be passed by keyword is among the keyword arguments it
    hands on, or raises [TypeError], and then some parameter has no default
    and no value in the keyword arguments, the namespace or the
    annotations. *)
Theorem prepare_binds_required parameters args kwargs annotations namespace :
  match pandora.prepare type_ dict_ (pandora.def parameters) args kwargs
          annotations namespace with
  | inr p =>
      forall param, param ∈ parameters -> pandora.by_keyword param ->
        has_default param = false ->
        is_Some (pandora.kwargs p !! name param)
  | inl e =>
      e = Exception "TypeError"
      /\ exists param, param ∈ parameters
           /\ has_default param = false
           /\ kwargs !! name param = None
           /\ namespace !! name param = None
           /\ annotations !! annotation param = None
  end.
Proof.
  cbn [pandora.prepare].
  destruct (pandora.loop type_ args kwargs annotations namespace parameters
              0 [] ∅) as [e|p] eqn:Hrun.
  - exact (loop_raises _ _ _ _ _ _ _ _ _ Hrun).
  - exact (proj2 (loop_binds _ _ _ _ _ _ _ _ _ Hrun)).
Qed.

Lemma value_of_keyword args kwargs annotations namespace param index v :
  kwargs !! name param = Some v ->
  pandora.value_of type_ args kwargs annotations namespace param index
  = pandora.take v index.
Proof. intros Hk. unfold pandora.value_of. rewrite Hk. reflexivity. Qed.

(** A keyword argument given, once bound, stays bound to its value. *)
Lemma loop_keyword_stays args kwargs annotations namespace parameters index
    new_args new_kwargs p k v :
  kwargs !! k = Some v ->
  new_kwargs !! k = Some v ->
  pandora.loop type_ args kwargs annotations namespace parameters index
    new_args new_kwargs = inr p ->
  pandora.kwargs p !! k = Some v.
Proof.
  intros Hk. revert index new_args new_kwargs.
  induction parameters as [|param parameters IH];
    intros index new_args new_kwargs Hnew Hrun.
  - injection Hrun as <-. exact Hnew.
  - destruct (kind_cases param) as [Hkind|[Hkind|Hkind]].
    + cbn [pandora.loop] in Hrun. rewrite Hkind in Hrun. eauto.
    + cbn [pandora.loop] in Hrun. rewrite Hkind in Hrun.
      apply (IH _ _ _ ltac:(apply lookup_union_Some_l; exact Hk) Hrun).
    + rewrite loop_named in Hrun
        by (destruct Hkind as [Hkind|[Hkind|Hkind]]; rewrite Hkind; discriminate).
      destruct (decide (name param = k)) as [Heq|Hne].
      * rewrite (value_of_keyword _ _ _ _ _ _ v) in Hrun
          by (rewrite Heq; exact Hk).
        refine (IH _ _ _ _ Hrun).
        destruct (kind param); try exact Hnew;
          rewrite Heq, lookup_insert_eq; reflexivity.
      * destruct (pandora.value_of _ _ _ _ _ _ _) as [value index'| |];
          [| |discriminate].
        -- refine (IH _ _ _ _ Hrun).
           destruct (kind param); try exact Hnew;
             rewrite lookup_insert_ne by exact Hne; exact Hnew.
        -- eauto.
Qed.

(** X17.  A keyword argument given under the name of a parameter that can
    be passed by keyword reaches the function under that name with the
    value given, whatever the positional arguments, the namespace and the
    annotations hold; and when the function has a [**] parameter, every
    keyword argument given reaches it unchanged. *)
Theorem prepare_keyword_wins parameters args kwargs annotations namespace p
    param k v :
  pandora.prepare type_ dict_ (pandora.def parameters) args kwargs
    annotations namespace = inr p ->
  kwargs !! k = Some v ->
  param ∈ parameters ->
  (pandora.by_keyword param /\ name param = k) \/ kind param = VAR_KEYWORD ->
  pandora.kwargs p !! k = Some v.
Proof.
  cbn [pandora.prepare]. generalize 0 (@nil V) (∅ : gmap string V).
  intros index new_args new_kwargs Hrun Hk Hin Hparam.
  revert index new_args new_kwargs Hrun.
  induction parameters as [|q parameters IH];
    intros index new_args new_kwargs Hrun;
    [apply elem_of_nil in Hin; contradiction|].
  apply elem_of_cons in Hin as [->|Hin].
  - destruct Hparam as [[Hkw Hname]|Hvar].
    + rewrite loop_named in Hrun
        by (destruct Hkw as [Hkw|Hkw]; rewrite Hkw; discriminate).
      rewrite (value_of_keyword _ _ _ _ _ _ v) in Hrun
        by (rewrite Hname; exact Hk).
      refine (loop_keyword_stays _ _ _ _ _ _ _ _ _ _ _ Hk _ Hrun).
      destruct Hkw as [Hkw|Hkw]; rewrite Hkw, Hname, lookup_insert_eq;
        reflexivity.
    + cbn [pandora.loop] in Hrun. rewrite Hvar in Hrun.
      refine (loop_keyword_stays _ _ _ _ _ _ _ _ _ _ _ Hk _ Hrun).
      apply lookup_union_Some_l. exact Hk.
  - destruct (kind_cases q) as [Hkind|[Hkind|Hkind]].
    + cbn [pandora.loop] in Hrun. rewrite Hkind in Hrun. eauto.
    + cbn [pandora.loop] in Hrun. rewrite Hkind in Hrun. eauto.
    + rewrite loop_named in Hrun
        by (destruct Hkind as [Hkind|[Hkind|Hkind]]; rewrite Hkind; discriminate).
      destruct (pandora.value_of _ _ _ _ _ _ _) as [value index'| |];
        [eauto|eauto|discriminate].
Qed.

(** With positional arguments only, parameters all of the ordinary kind get
    the arguments in order, by name. *)
Lemma loop_positional args parameters index new_args new_kwargs :
  (forall param, param ∈ parameters -> kind param = POSITIONAL_OR_KEYWORD) ->
  NoDup (name <$> parameters) ->
  index + length parameters <= length args ->
  exists p,
    pandora.loop type_ args ∅ ∅ ∅ parameters index new_args new_kwargs = inr p
    /\ pandora.args p = new_args
    /\ (forall i param, parameters !! i = Some param ->
          pandora.kwargs p !! name param = args !! (index + i))
    /\ (forall k, k ∉ (name <$> parameters) ->
          pandora.kwargs p !! k = new_kwargs !! k).
Proof.
  revert index new_kwargs.
  induction parameters as [|param parameters IH];
    intros index new_kwargs Hkind Hnodup Hlen.
  - eexists. split; [reflexivity|]. split; [reflexivity|]. split; [|auto].
    intros i param [=].
  - cbn [fmap list_fmap] in Hnodup. apply NoDup_cons in Hnodup as [Hfresh Hnodup].
    cbn [length] in Hlen.
    destruct (lookup_lt_is_Some_2 args index ltac:(lia)) as [x Hx].
    rewrite loop_named
      by (rewrite (Hkind param) by (apply elem_of_cons; auto); discriminate).
    unfold pandora.value_of. rewrite !lookup_empty, Hx.
    rewrite (Hkind param) by (apply elem_of_cons; auto).
    destruct (IH (index + 1) (<[name param := x]> new_kwargs))
      as (p & Hrun & Hargs & Hbound & Hother).
    { intros q Hq. apply Hkind. apply elem_of_cons. auto. }
    { exact Hnodup. }
    { lia. }
    exists p. split; [exact Hrun|]. split; [exact Hargs|]. split.
    + intros [|i] q Hq.
      * injection Hq as <-. rewrite Hother by exact Hfresh.
        rewrite lookup_insert_eq, Nat.add_0_r, Hx. reflexivity.
      * rewrite (Hbound i q Hq). f_equal. lia.
    + intros k Hk. apply not_elem_of_cons in Hk as [Hne Hk].
      rewrite (Hother k Hk). apply lookup_insert_ne. congruence.
Qed.

(** X18.  Called with positional arguments only, on a function whose
    parameters are all of the ordinary kind and no more than the arguments
    given, [prepare] hands every argument on by keyword: no positional
    argument is left, the i-th parameter's name is bound to the i-th
    argument, and the arguments in excess are dropped. *)
Theorem prepare_positional_by_name parameters args :
  (forall param, param ∈ parameters -> kind param = POSITIONAL_OR_KEYWORD) ->
  NoDup (name <$> parameters) ->
  length parameters <= length args ->
  exists p,
    pandora.prepare type_ dict_ (pandora.def parameters) args ∅ ∅ ∅ = inr p
    /\ pandora.args p = []
    /\ (forall i param, parameters !! i = Some param ->
          pandora.kwargs p !! name param = args !! i)
    /\ (forall k, k ∉ (name <$> parameters) -> pandora.kwargs p !! k = None).
Proof.
  intros Hkind Hnodup Hlen.
  destruct (loop_positional args parameters 0 [] ∅ Hkind Hnodup Hlen)
    as (p & Hrun & Hargs & Hbound & Hother).
  exists p. split; [exact Hrun|]. split; [exact Hargs|].
  split; [exact Hbound|].
  intros k Hk. rewrite (Hother k Hk). apply lookup_empty.
Qed.

End PrepareFacts.

(** X15 on [f(proxy=1, verbose=True)] for [def f(proxy, retry=3)]: the
    key that is handed on names a parameter. *)
Lemma prepare_keeps_known_keywords_witness :
  (exists param, param ∈ retry_parameters /\ pandora.by_keyword param
                 /\ inspect.name param = "proxy"%string)
  \/ (is_Some (sample_kwargs !! "proxy"%string)
      /\ exists param, param ∈ retry_parameters
                       /\ inspect.kind param = inspect.VAR_KEYWORD).
Proof.
  apply (prepare_keeps_known_keywords sample_type sample_dict retry_parameters
           [json.Int 7] sample_kwargs ∅ ∅ sample_prepared "proxy"%string).
  - vm_compute; reflexivity.
  - exists (json.Int 1). vm_compute; reflexivity.
Defined.

(** X17 on the same call: [proxy] is 1, not the positional 7, which goes
    to [retry]. *)
Lemma prepare_keyword_wins_witness :
  pandora.kwargs sample_prepared !! "proxy"%string = Some (json.Int 1).
Proof.
  apply (prepare_keyword_wins sample_type sample_dict retry_parameters
           [json.Int 7] sample_kwargs ∅ ∅ sample_prepared
           (inspect.mk "proxy" inspect.POSITIONAL_OR_KEYWORD "empty" false)
           "proxy"%string (json.Int 1)).
  - vm_compute; reflexivity.
  - vm_compute; reflexivity.
  - apply elem_of_cons. left. reflexivity.
  - left. split; [left; reflexivity|reflexivity].
Defined.

(** X18 on [invoke(proxy.clear, args=[proxy])] as the manager calls it. *)
Lemma prepare_positional_by_name_witness :
  exists p,
    pandora.prepare sample_type sample_dict (pandora.def clear_parameters)
      [json.Object "lease"] ∅ ∅ ∅ = inr p
    /\ pandora.args p = []
    /\ (forall i param, clear_parameters !! i = Some param ->
          pandora.kwargs p !! inspect.name param
          = [json.Object "lease"] !! i)
    /\ (forall k, k ∉ (inspect.name <$> clear_parameters) ->
          pandora.kwargs p !! k = None).
Proof.
  apply (prepare_positional_by_name sample_type sample_dict clear_parameters
           [json.Object "lease"]).
  - intros param Hin. apply elem_of_cons in Hin as [->|Hin]; [reflexivity|].
    apply elem_of_nil in Hin. contradiction.
  - apply NoDup_singleton.
  - cbn. lia.
Defined.

(** ** ClashProxy and its controller *)

Section ClashFacts2.

Context `{Clash.Controller}.

Local Open Scope string_scope.

Implicit Types (self : Clash.t) (w : Clash.Net) (req : Clash.request)
  (n k pos : nat) (items : list string).

Lemma attempts_spec req n w :
  match Clash.attempts req n w with
  | (inr resp, w') =>
      Clash.ok resp = true
      /\ exists i, i < n
           /\ (forall j, j < i ->
                 Clash.fails req (Clash.after_rounds req j w) = true)
           /\ Clash.fetch req (Clash.after_rounds req i w) = (returns resp, w')
  | (inl e, w') =>
      e = Exception "RuntimeError"
      /\ (forall j, j < n ->
            Clash.fails req (Clash.after_rounds req j w) = true)
      /\ w' = Clash.after_rounds req n w
  end.
Proof.
  revert w. induction n as [|n IH]; intros w.
  - cbn. split; [reflexivity|]. split; [intros j Hj; lia|reflexivity].
  - cbn [Clash.attempts].
    assert (Hnext : Clash.fails req w = true ->
              match Clash.attempts req n (Clash.fetch req w).2 with
              | (inr resp, w') =>
                  Clash.ok resp = true
                  /\ exists i, i < S n
                       /\ (forall j, j < i ->
                             Clash.fails req (Clash.after_rounds req j w) = true)
                       /\ Clash.fetch req (Clash.after_rounds req i w)
                          = (returns resp, w')
              | (inl e, w') =>
                  e = Exception "RuntimeError"
                  /\ (forall j, j < S n ->
                        Clash.fails req (Clash.after_rounds req j w) = true)
                  /\ w' = Clash.after_rounds req (S n) w
              end).
    { intros Hfail. specialize (IH (Clash.fetch req w).2).
      destruct (Clash.attempts req n (Clash.fetch req w).2) as [[e|resp] w'].
      - destruct IH as (-> & Hall & ->). split; [reflexivity|].
        split; [|reflexivity].
        intros [|j] Hj; [exact Hfail|]. cbn. apply Hall. lia.
      - destruct IH as (Hok & i & Hi & Hall & Hfetch). split; [exact Hok|].
        exists (S i). split; [lia|]. split; [|exact Hfetch].
        intros [|j] Hj; [exact Hfail|]. cbn. apply Hall. lia. }
    unfold Clash.fails in Hnext.
    destruct (Clash.fetch req w) as [[resp|e] w1] eqn:Hfetch; cbn [fst snd] in *.
    + destruct (Clash.ok resp) eqn:Hok.
      * split; [exact Hok|]. exists 0. split; [lia|].
        split; [intros j Hj; lia|exact Hfetch].
      * apply Hnext. reflexivity.
    + apply Hnext. reflexivity.
Qed.

(** X19.  [_run_cmd] first joins the key and the path; what [urljoin]
    raises leaves [_run_cmd] at once, before any request.  Otherwise it
    sends one and the same request up to [retry] times and returns the first
    response that arrives with [ok] set; every exception of the HTTP client
    and every response that is not [ok] costs one round; when all [retry]
    rounds fail it raises [RuntimeError], and it raises nothing else. *)
Theorem _run_cmd_first_ok self (uri method : string) (retry : Z)
    (params : list (string * json.t)) (body : option json.t)
    (headers : list (string * string)) w :
  match Clash.urljoin (Clash.key self) uri with
  | inl e =>
      Clash._run_cmd self uri method retry params body headers w = (inl e, w)
  | inr url =>
      let req := Clash.command self url method params body headers in
      Clash.url req = url
      /\ match Clash._run_cmd self uri method retry params body headers w with
         | (inr resp, w') =>
             Clash.ok resp = true
             /\ exists i, i < Z.to_nat retry
                  /\ (forall j, j < i ->
                        Clash.fails req (Clash.after_rounds req j w) = true)
                  /\ Clash.fetch req (Clash.after_rounds req i w)
                     = (returns resp, w')
         | (inl e, w') =>
             e = Exception "RuntimeError"
             /\ (forall j, j < Z.to_nat retry ->
                   Clash.fails req (Clash.after_rounds req j w) = true)
             /\ w' = Clash.after_rounds req (Z.to_nat retry) w
         end
  end.
Proof.
  unfold Clash._run_cmd.
  destruct (Clash.urljoin (Clash.key self) uri) as [e|url]; [reflexivity|].
  cbv zeta. split; [reflexivity|]. apply attempts_spec.
Qed.

(** A request that is answered at once. *)
Lemma _run_cmd_answered self (uri method url : string)
    (params : list (string * json.t)) (body : option json.t)
    (headers : list (string * string)) w resp w' :
  Clash.urljoin (Clash.key self) uri = inr url ->
  Clash.fetch (Clash.command self url method params body headers) w
  = (returns resp, w') ->
  Clash.ok resp = true ->
  Clash._run_cmd self uri method 5 params body headers w = (inr resp, w').
Proof.
  intros Hjoin Hfetch Hok. unfold Clash._run_cmd. rewrite Hjoin.
  change (Z.to_nat 5) with 5. cbn [Clash.attempts].
  rewrite Hfetch, Hok. reflexivity.
Qed.

Lemma clear_cache_never self w :
  Clash.cpolicy self = (-1)%Z -> Clash.clear_cache self false w = self.
Proof. intros Hc. unfold Clash.clear_cache. rewrite Hc. reflexivity. Qed.

(** X20.  The first [clear] of a provider whose cache never expires only
    loads the node list: given the address [urljoin] makes of the key and
    [/proxies], and the controller's answer to [GET] on it with the active
    node [cur] and the nodes [all], it stores the matching nodes in the
    order that starts after [cur], switches nothing and leaves [now] as it
    was. *)
Theorem clear_primes self w resp w' cur all url :
  Clash.cpolicy self = (-1)%Z ->
  ClashProxy._nodes (Clash.core self) = None ->
  Clash.urljoin (Clash.key self) "/proxies" = inr url ->
  Clash.fetch (Clash.command self url "GET" [] None []) w
  = (returns resp, w') ->
  Clash.ok resp = true ->
  Clash.reply_ resp = ClashProxy.proxies cur all ->
  exists self',
    Clash.clear self w = (inr tt, self', w')
    /\ Clash.now self' = Clash.now self
    /\ ClashProxy._nodes (Clash.core self')
       = Some (itertools.cycle_of
                 (List.filter (ClashProxy.match_ (Clash.core self))
                    (ClashProxy.reorder cur all)))
    /\ ClashProxy.match_ (Clash.core self')
       = ClashProxy.match_ (Clash.core self)
    /\ Clash.cpolicy self' = (-1)%Z.
Proof.
  intros Hc Hnone Hjoin Hfetch Hok Hreply.
  unfold Clash.clear. rewrite (clear_cache_never _ _ Hc), Hnone.
  unfold Clash.nodes. cbn [str.nonempty].
  rewrite (_run_cmd_answered _ _ _ _ _ _ _ _ _ _ Hjoin Hfetch Hok), Hreply.
  cbn [ClashProxy.nodes]. eexists. split; [reflexivity|].
  cbn. auto.
Qed.

(** One [clear] of a provider whose node list is loaded. *)
Lemma clear_step self w items pos url :
  (forall req w0, exists resp,
      (Clash.fetch req w0).1 = returns resp /\ Clash.ok resp = true) ->
  Clash.urljoin (Clash.key self)
    ("/proxies/" ++ ClashProxy.selector (Clash.core self)) = inr url ->
  Clash.cpolicy self = (-1)%Z ->
  ClashProxy._nodes (Clash.core self) = Some (itertools.mk items pos) ->
  pos < length items ->
  exists self' w',
    Clash.clear self w = (inr tt, self', w')
    /\ Clash.now self' = items !! pos
    /\ ClashProxy._nodes (Clash.core self')
       = Some (itertools.mk items (S pos mod length items))
    /\ Clash.cpolicy self' = (-1)%Z
    /\ Clash.key self' = Clash.key self
    /\ ClashProxy.selector (Clash.core self')
       = ClashProxy.selector (Clash.core self).
Proof.
  intros Hanswer Hjoin Hc Hnodes Hpos.
  unfold Clash.clear. rewrite (clear_cache_never _ _ Hc), Hnodes.
  unfold itertools.next. cbn [itertools.items itertools.position].
  destruct (lookup_lt_is_Some_2 items pos Hpos) as [x Hx]. rewrite Hx.
  unfold Clash.switch.
  set (self1 := Clash.with_now x _).
  assert (Hjoin1 : Clash.urljoin (Clash.key self1)
                     ("/proxies/" ++ ClashProxy.selector (Clash.core self1))
                   = inr url) by exact Hjoin.
  match goal with
  | |- context [Clash._run_cmd ?s ?u ?m 5 ?p ?b ?h w] =>
      destruct (Hanswer (Clash.command s url m p b h) w) as (resp & Hfetch & Hok);
      destruct (Clash.fetch (Clash.command s url m p b h) w) as [r w'] eqn:Hf
  end.
  cbn in Hfetch. subst r.
  rewrite (_run_cmd_answered _ _ _ _ _ _ _ _ _ _ Hjoin1 Hf Hok).
  exists self1, w'. split; [reflexivity|]. cbn. auto.
Qed.

(** X21.  Once its node list is loaded, a provider whose cache never
    expires, whose key [urljoin] joins with the path of its selector group,
    and whose controller answers every request walks through the list in
    order and for ever: the (k+1)-th [clear] makes the node at position
    [pos + k], counted round the list, the current one. *)
Theorem clear_cycles self w items pos k url :
  (forall req w0, exists resp,
      (Clash.fetch req w0).1 = returns resp /\ Clash.ok resp = true) ->
  Clash.urljoin (Clash.key self)
    ("/proxies/" ++ ClashProxy.selector (Clash.core self)) = inr url ->
  Clash.cpolicy self = (-1)%Z ->
  ClashProxy._nodes (Clash.core self) = Some (itertools.mk items pos) ->
  pos < length items ->
  exists self' w',
    Clash.clear_times (S k) self w = (inr tt, self', w')
    /\ Clash.now self' = items !! ((pos + k) mod length items)
    /\ ClashProxy._nodes (Clash.core self')
       = Some (itertools.mk items ((pos + S k) mod length items)).
Proof.
  intros Hanswer. revert self w pos.
  induction k as [|k IH]; intros self w pos Hjoin Hc Hnodes Hpos.
  - destruct (clear_step self w items pos url Hanswer Hjoin Hc Hnodes Hpos)
      as (self' & w' & Hclear & Hnow & Hnext & _).
    exists self', w'. cbn [Clash.clear_times]. rewrite Hclear.
    rewrite Nat.add_0_r, (Nat.mod_small pos) by exact Hpos.
    rewrite Nat.add_1_r. auto.
  - destruct (clear_step self w items pos url Hanswer Hjoin Hc Hnodes Hpos)
      as (self1 & w1 & Hclear & _ & Hnext & Hc1 & Hkey1 & Hsel1).
    assert (Hlt : S pos mod length items < length items)
      by (apply Nat.mod_upper_bound; lia).
    rewrite <- Hkey1, <- Hsel1 in Hjoin.
    destruct (IH self1 w1 _ Hjoin Hc1 Hnext Hlt)
      as (self' & w' & Hrun & Hnow & Hcyc).
    exists self', w'.
    change (Clash.clear_times (S (S k)) self w)
      with (match Clash.clear self w with
            | (inr _, self, w) => Clash.clear_times (S k) self w
            | r => r
            end).
    rewrite Hclear. split; [exact Hrun|].
    rewrite Hnow, Hcyc.
    rewrite !Nat.Div0.add_mod_idemp_l.
    replace (S pos + k) with (pos + S k) by lia.
    replace (S pos + S k) with (pos + S (S k)) by lia.
    auto.
Qed.

Lemma filter_none (f : string -> bool) (l : list string) :
  (forall x, x ∈ l -> f x = false) -> List.filter f l = [].
Proof.
  induction l as [|x l IH]; intros Hf; [reflexivity|].
  cbn. rewrite (Hf x) by (apply elem_of_cons; auto).
  apply IH. intros y Hy. apply Hf. apply elem_of_cons. auto.
Qed.

Lemma reorder_subseteq (cur : option string) (all : list string) :
  ClashProxy.reorder cur all ⊆ all.
Proof.
  unfold ClashProxy.reorder. destruct cur as [cur|]; [|reflexivity].
  destruct (ClashProxy.index cur all) as [i|]; [|reflexivity].
  intros x [Hx|Hx]%elem_of_app.
  - exact (subseteq_drop _ _ _ Hx).
  - exact (subseteq_take _ _ _ Hx).
Qed.

(** X22.  When the match predicate rejects every node the controller
    lists, the first [clear] loads an empty list and the next one raises
    [StopIteration], without a request to the controller. *)
Theorem clear_without_match_stops self w resp w' cur all url :
  Clash.cpolicy self = (-1)%Z ->
  ClashProxy._nodes (Clash.core self) = None ->
  Clash.urljoin (Clash.key self) "/proxies" = inr url ->
  Clash.fetch (Clash.command self url "GET" [] None []) w
  = (returns resp, w') ->
  Clash.ok resp = true ->
  Clash.reply_ resp = ClashProxy.proxies cur all ->
  (forall x, x ∈ all -> ClashProxy.match_ (Clash.core self) x = false) ->
  exists self',
    Clash.clear self w = (inr tt, self', w')
    /\ Clash.clear self' w' = (inl (Exception "StopIteration"), self', w').
Proof.
  intros Hc Hnone Hjoin Hfetch Hok Hreply Hmatch.
  assert (Hfilter : List.filter (ClashProxy.match_ (Clash.core self))
                      (ClashProxy.reorder cur all) = []).
  { apply filter_none. intros x Hx. apply Hmatch.
    revert Hx. apply reorder_subseteq. }
  unfold Clash.clear at 1. rewrite (clear_cache_never _ _ Hc), Hnone.
  unfold Clash.nodes. cbn [str.nonempty].
  rewrite (_run_cmd_answered _ _ _ _ _ _ _ _ _ _ Hjoin Hfetch Hok), Hreply.
  cbn [ClashProxy.nodes]. rewrite Hfilter.
  eexists. split; [reflexivity|].
  unfold Clash.clear. rewrite clear_cache_never by exact Hc.
  reflexivity.
Qed.

Lemma rpartition_none (sep : ascii) (s : string) :
  str.all (fun c => negb (Ascii.eqb c sep)) s = true ->
  str.rpartition sep s = ("", false, s).
Proof.
  induction s as [|c s IH]; [reflexivity|].
  cbn. intros [Hc Hs]%andb_prop. apply negb_true_iff in Hc.
  rewrite (IH Hs), Hc. reflexivity.
Qed.

Lemma partition_none (sep : ascii) (s : string) :
  str.all (fun c => negb (Ascii.eqb c sep)) s = true ->
  str.partition sep s = (s, false, "").
Proof.
  induction s as [|c s IH]; [reflexivity|].
  cbn. intros [Hc Hs]%andb_prop. apply negb_true_iff in Hc.
  rewrite (IH Hs), Hc. reflexivity.
Qed.

Lemma append_empty_r (s : string) : s ++ "" = s.
Proof.
  induction s as [|c s IH]; [reflexivity|].
  change (String c (s ++ "") = String c s). rewrite IH. reflexivity.
Qed.

Lemma digit_authority (c : ascii) :
  str.is_digit c = true ->
  authority_char c = true /\ negb (Ascii.eqb c "@") = true
  /\ negb (Ascii.eqb c "[") = true.
Proof.
  destruct c as [[] [] [] [] [] [] [] []]; vm_compute;
    first [discriminate | intros _; repeat split; reflexivity].
Qed.

(** The host [urlparse] reads from [scheme://host:port]. *)
Lemma hostname_of_authority (sch host cport path params query fragment : string) :
  plain_host host = true ->
  str.all str.is_digit cport = true ->
  urllib.hostname
    (urllib.mk sch (host ++ ":" ++ cport) path params query fragment)
  = Some (str.lower host).
Proof.
  intros [Hne Hhost]%andb_prop Hport.
  assert (Hh : forall (q : ascii -> bool),
             (forall c, authority_char c && negb (Ascii.eqb c ":")
                        && negb (Ascii.eqb c "@") && negb (Ascii.eqb c "%")
                        = true -> q c = true) ->
             str.all q host = true).
  { intros q Hq. eapply all_impl; [|exact Hhost]. exact Hq. }
  assert (Hat : str.all (fun c => negb (Ascii.eqb c "@"))
                  (host ++ ":" ++ cport) = true).
  { rewrite !all_app. apply andb_true_intro. split.
    - apply Hh. intros c [[_ ?]%andb_prop _]%andb_prop. assumption.
    - apply andb_true_intro. split; [reflexivity|].
      eapply all_impl; [|exact Hport]. intros c Hc.
      apply (digit_authority c Hc). }
  assert (Hbr : str.all (fun c => negb (Ascii.eqb c "["))
                  (host ++ ":" ++ cport) = true).
  { rewrite !all_app. apply andb_true_intro. split.
    - apply Hh. intros c [[[Ha _]%andb_prop _]%andb_prop _]%andb_prop.
      apply (authority_char_plain c Ha).
    - apply andb_true_intro. split; [reflexivity|].
      eapply all_impl; [|exact Hport]. intros c Hc.
      apply (digit_authority c Hc). }
  unfold urllib.hostname, urllib._hostinfo. cbn [urllib.netloc].
  rewrite (rpartition_none "@" _ Hat). cbn [snd].
  rewrite (partition_none "[" _ Hbr).
  change (host ++ ":" ++ cport) with (host ++ String ":" cport).
  rewrite partition_app
    by (apply Hh; intros c [[[_ ?]%andb_prop _]%andb_prop _]%andb_prop;
        assumption).
  cbn [fst snd]. rewrite Hne.
  rewrite partition_none
    by (apply Hh; intros c [_ ?]%andb_prop; assumption).
  rewrite !append_empty_r. reflexivity.
Qed.

Lemma plain_host_authority (host cport : string) :
  plain_host host = true ->
  str.all str.is_digit cport = true ->
  authority (host ++ ":" ++ cport) = true.
Proof.
  intros [Hne Hhost]%andb_prop Hport. unfold authority.
  rewrite (nonempty_app_l _ _ Hne), !all_app. cbn [andb].
  apply andb_true_intro. split.
  - eapply all_impl; [|exact Hhost].
    intros c [[[Ha _]%andb_prop _]%andb_prop _]%andb_prop. exact Ha.
  - apply andb_true_intro. split; [reflexivity|].
    eapply all_impl; [|exact Hport]. intros c Hc.
    apply (digit_authority c Hc).
Qed.

(** X23.  With the configuration cached, [get] makes no request and
    answers with the controller's own host, in lower case, and the port the
    configuration gives: [mixed-port] when that is set and not 0, otherwise
    [port] for the scheme [http] and [socks-port] for any other; a port that
    is not configured is written as the word None. *)
Theorem get_address `{Runtime} self (timeout : option Z) w
    (host cport : string) (fields : list (string * json.t)) :
  Clash.key self = "http://" ++ host ++ ":" ++ cport ->
  plain_host host = true ->
  str.all str.is_digit cport = true ->
  Clash.cpolicy self = (-1)%Z ->
  Clash._configs self = Some (json.Dict fields) ->
  fields <> [] ->
  let value (name : string) :=
    default json.Null
      (snd <$> List.find (fun kv => String.eqb kv.1 name) fields) in
  let port :=
    if Clash.truthy (value "mixed-port") then value "mixed-port"
    else value (if String.eqb (Clash.scheme self) "http"
                then "port" else "socks-port") in
  Clash.get self timeout w
  = (inr (str.lower host ++ ":" ++ Clash.str_ port), self, w).
Proof.
  intros Hkey Hhost Hport Hc Hconf Hne value port.
  unfold Clash.get. rewrite (clear_cache_never _ _ Hc), Hkey.
  change ("http://" ++ host ++ ":" ++ cport)
    with ("http" ++ "://" ++ (host ++ ":" ++ cport)).
  rewrite (urlparse_scheme_authority "http" (host ++ ":" ++ cport) eq_refl
             (plain_host_authority _ _ Hhost Hport)).
  unfold Clash.configs. rewrite Hconf.
  replace (Clash.truthy (json.Dict fields)) with true
    by (destruct fields; [contradiction|reflexivity]).
  cbn [Clash.dict_get]. fold (value "mixed-port").
  rewrite (hostname_of_authority _ _ _ _ _ _ _ Hhost Hport).
  cbn [str.of_optional]. subst port.
  destruct (Clash.truthy (value "mixed-port")); reflexivity.
Qed.

End ClashFacts2.

Section HttpsKey.

Context `{Clash.Controller} `{Runtime}.

Local Open Scope string_scope.

Lemma urlparse_https_key (rest : string) :
  exists parsed,
    urllib.urlparse check_bracketed_host (Clash.normalize ("https://" ++ rest))
    = inr parsed
    /\ urllib.hostname parsed = Some "https".
Proof.
  change (Clash.normalize ("https://" ++ rest))
    with ("http://https://" ++ rest).
  unfold urllib.urlparse, urllib.urlsplit.
  change (urllib.lstrip ("http://https://" ++ rest))
    with ("http://https://" ++ rest).
  change (str.filter (fun c => negb (urllib.unsafe_byte c))
            ("http://https://" ++ rest))
    with ("http://https://"
          ++ str.filter (fun c => negb (urllib.unsafe_byte c)) rest).
  set (rest' := str.filter _ rest).
  change (str.partition ":" ("http://https://" ++ rest'))
    with ("http", true, "//https://" ++ rest').
  cbv beta iota.
  change (str.is_alpha "h" && str.all urllib.scheme_char "http") with true.
  cbv beta iota.
  change (str.lower "http") with "http".
  change ("//https://" ++ rest') with (String "/" (String "/" ("https://" ++ rest'))).
  cbv beta iota.
  change (urllib._splitnetloc ("https://" ++ rest'))
    with ("https:", "//" ++ rest').
  cbv beta iota.
  change (str.contains "[" "https:") with false.
  change (str.contains "]" "https:") with false.
  cbn [andb orb negb].
  destruct (if str.contains "#" ("//" ++ rest')
            then let '(a, _, b) := str.partition "#" ("//" ++ rest') in (a, b)
            else ("//" ++ rest', "")) as [url fragment].
  destruct (if str.contains "?" url
            then let '(a, _, b) := str.partition "?" url in (a, b)
            else (url, "")) as [url0 query].
  destruct (if bool_decide ("http" ∈ urllib.uses_params)
               && str.contains ";" url0
            then urllib._splitparams url0
            else (url0, "")) as [url1 params].
  eexists. split; reflexivity.
Qed.

(** X24.  A controller address given with [https://] gets [http://] put in
    front of it, so the host [get] reads from the key is the word https:
    with the configuration cached, every lease address is [https:port],
    whatever the controller's host is. *)
Theorem get_https_controller self (timeout : option Z) w (rest : string)
    (fields : list (string * json.t)) :
  Clash.key self = Clash.normalize ("https://" ++ rest) ->
  Clash.cpolicy self = (-1)%Z ->
  Clash._configs self = Some (json.Dict fields) ->
  fields <> [] ->
  let value (name : string) :=
    default json.Null
      (snd <$> List.find (fun kv => String.eqb kv.1 name) fields) in
  let port :=
    if Clash.truthy (value "mixed-port") then value "mixed-port"
    else value (if String.eqb (Clash.scheme self) "http"
                then "port" else "socks-port") in
  Clash.get self timeout w = (inr ("https:" ++ Clash.str_ port), self, w).
Proof.
  intros Hkey Hc Hconf Hne value port.
  destruct (urlparse_https_key rest) as (parsed & Hparse & Hhost).
  unfold Clash.get. rewrite (clear_cache_never _ _ Hc), Hkey, Hparse.
  unfold Clash.configs. rewrite Hconf.
  replace (Clash.truthy (json.Dict fields)) with true
    by (destruct fields; [contradiction|reflexivity]).
  cbn [Clash.dict_get]. fold (value "mixed-port"). rewrite Hhost.
  cbn [str.of_optional]. subst port.
  destruct (Clash.truthy (value "mixed-port")); reflexivity.
Qed.

End HttpsKey.

(** A key with an opening bracket that is never closed: [urljoin] raises
    [ValueError], and so does [_run_cmd], with no request made. *)
Lemma _run_cmd_unsplittable_key :
  @Clash._run_cmd sample_controller clash_unsplittable "/configs" "GET" 5 []
    None [] 0
  = (inl (Exception "ValueError"), 0).
Proof. reflexivity. Qed.

(** X20 on a new provider: B is active, so the list starts at C. *)
Lemma clear_primes_witness :
  exists self',
    @Clash.clear sample_controller clash_new 0 = (inr tt, self', 1)
    /\ Clash.now self' = Clash.now clash_new
    /\ ClashProxy._nodes (Clash.core self')
       = Some (itertools.cycle_of
                 (List.filter (ClashProxy.match_ (Clash.core clash_new))
                    (ClashProxy.reorder (Some "B"%string)
                       ["A"; "B"; "C"; "DIRECT"]%string)))
    /\ ClashProxy.match_ (Clash.core self')
       = ClashProxy.match_ (Clash.core clash_new)
    /\ Clash.cpolicy self' = (-1)%Z.
Proof.
  apply (@clear_primes sample_controller clash_new 0 sample_response 1
           (Some "B"%string) ["A"; "B"; "C"; "DIRECT"]%string
           "http://127.0.0.1:9090/proxies"%string);
    reflexivity.
Defined.

(** X21 on the list C, A, B: the fourth [clear] is back at C. *)
Lemma clear_cycles_witness :
  exists self' w',
    @Clash.clear_times sample_controller 4 clash_loaded 0 = (inr tt, self', w')
    /\ Clash.now self'
       = ["C"; "A"; "B"]%string !! ((0 + 3) mod length ["C"; "A"; "B"]%string)
    /\ ClashProxy._nodes (Clash.core self')
       = Some (itertools.mk ["C"; "A"; "B"]%string
                 ((0 + 4) mod length ["C"; "A"; "B"]%string)).
Proof.
  apply (@clear_cycles sample_controller clash_loaded 0
           ["C"; "A"; "B"]%string 0 3
           "http://127.0.0.1:9090/proxies/GLOBAL"%string).
  - intros req w0. exists sample_response. split; reflexivity.
  - reflexivity.
  - reflexivity.
  - reflexivity.
  - cbn. lia.
Defined.

(** X22 on a provider whose predicate rejects every node. *)
Lemma clear_without_match_stops_witness :
  exists self',
    @Clash.clear sample_controller clash_picky 0 = (inr tt, self', 1)
    /\ @Clash.clear sample_controller self' 1
       = (inl (Exception "StopIteration"), self', 1).
Proof.
  apply (@clear_without_match_stops sample_controller clash_picky 0
           sample_response 1 (Some "B"%string)
           ["A"; "B"; "C"; "DIRECT"]%string
           "http://127.0.0.1:9090/proxies"%string); reflexivity.
Defined.

(** X23 on a socks5 provider whose controller reports [port] only: no
    [socks-port], so the address ends in the word None. *)
Lemma get_address_witness :
  @Clash.get sample_controller sample_runtime clash_configured None 0
  = (inr "127.0.0.1:None"%string, clash_configured, 0).
Proof.
  apply (@get_address sample_controller sample_runtime clash_configured None 0
           "127.0.0.1"%string "9090"%string
           [("port", json.Int 7890); ("mixed-port", json.Int 0)]%string).
  - reflexivity.
  - reflexivity.
  - reflexivity.
  - reflexivity.
  - reflexivity.
  - discriminate.
Defined.

(** X24 on the controller address [https://ctl.example:9090]. *)
Lemma get_https_controller_witness :
  @Clash.get sample_controller sample_runtime clash_https None 0
  = (inr "https:7890"%string, clash_https, 0).
Proof.
  apply (@get_https_controller sample_controller sample_runtime clash_https
           None 0 "ctl.example:9090"%string
           [("mixed-port", json.Int 7890)]%string).
  - reflexivity.
  - reflexivity.
  - reflexivity.
  - discriminate.
Defined.

(** ** The waiting loops of ApiProxy and RedisProxy *)

Section WaitingFacts.

Context `{Sources}.

Local Open Scope string_scope.

(** X25.  An [ApiProxy] made without [options] cannot fetch: with its
    queue empty, [get] raises [AttributeError] before any request is
    sent. *)
Theorem get_without_options_raises (self : Api.t) (fuel : nat)
    (timeout : option Z) (env : Env) :
  Api.options self = None ->
  Api.container self = [] ->
  Api.get (S fuel) self timeout env
  = Some (inl AttributeError, self, sleep env).
Proof.
  intros Hopt Hempty. cbn [Api.get]. rewrite Hempty.
  unfold Api.fetch. rewrite Hopt. reflexivity.
Qed.

(** X26.  When the API answers every request, but with a body in which
    [handle_response] finds no address, [ApiProxy.get] goes round for ever,
    whatever the [timeout]: the time is only looked at when a request
    fails. *)
Theorem get_ignores_timeout_on_empty_answers (self : Api.t)
    (o : list (string * json.t)) (fuel : nat) (timeout : option Z)
    (env : Env) :
  Api.options self = Some o ->
  Api.container self = [] ->
  (forall url o' env', exists res,
      (download url o' env').1 = returns res
      /\ truth res = true /\ Api.handle_response self res = []) ->
  Api.get fuel self timeout env = None.
Proof.
  intros Hopt Hempty Hanswer. revert self o env Hopt Hempty Hanswer.
  induction fuel as [|fuel IH]; intros self o env Hopt Hempty Hanswer;
    [reflexivity|].
  cbn [Api.get]. rewrite Hempty. unfold Api.fetch. rewrite Hopt.
  destruct fuel as [|fuel']; [reflexivity|].
  cbn [Api.fetch_loop]. cbn [Api.key Api.with_options].
  set (o1 := Api.setdefault "method" (json.Str "GET") o).
  destruct (Hanswer (Api.key self) o1 (sleep env)) as (res & Hres & Htruth & Hnone).
  destruct (download (Api.key self) o1 (sleep env)) as [r env1].
  cbn in Hres. subst r. rewrite Htruth.
  cbn [Api.handle_response Api.container Api.with_options Api.with_container].
  rewrite Hempty, Hnone. cbn [app].
  apply (IH _ o1); [reflexivity|reflexivity|exact Hanswer].
Qed.

(** X27.  With a [timeout] of 0 (or less), on a clock that does not run
    backwards, [RedisProxy.get] raises [TimeoutError] at once and does not
    ask the store, even when the store holds an address. *)
Theorem get_zero_timeout (self : Redis.t) (fuel : nat) (t : Z) (env : Env) :
  (forall env' start (t' : Z), (t' <= 0)%Z ->
     elapsed_below env' start t' = false) ->
  (t <= 0)%Z ->
  Redis.get (S fuel) self (Some t) env = Some (inl TimeoutError, env).
Proof.
  intros Hclock Ht. unfold Redis.get. cbn [Redis.loop].
  rewrite (Hclock _ _ _ Ht). reflexivity.
Qed.

Lemma loop_nonempty (self : Redis.t) (fuel : nat) (timeout : option Z)
    (start : Stamp) (env env' : Env) (a : string) :
  Redis.loop fuel self timeout start env = Some (inr a, env') -> a <> "".
Proof.
  revert env. induction fuel as [|fuel IH]; intros env; [discriminate|].
  cbn [Redis.loop].
  destruct (match timeout with Some t => _ | None => true end);
    [|discriminate].
  destruct (pop (Redis.key self) env) as [[proxy|e] env1]; [|discriminate].
  destruct (BaseProxy.truthy proxy) eqn:Htruthy; [|apply IH].
  intros [= <- _]. destruct proxy as [[|c s]|]; try discriminate.
Qed.

(** X28.  [RedisProxy.get] never hands on an empty address: whatever the
    store yields that is [None] or empty is waited out, one second a
    round. *)
Theorem get_nonempty (self : Redis.t) (fuel : nat) (timeout : option Z)
    (env env' : Env) (a : string) :
  Redis.get fuel self timeout env = Some (inr a, env') -> a <> "".
Proof. unfold Redis.get. apply loop_nonempty. Qed.

End WaitingFacts.

(** X25 on a provider made with the key alone. *)
Lemma get_without_options_raises_witness :
  @Api.get sample_sources 1 api_without_options None 0
  = Some (inl AttributeError, api_without_options, 1).
Proof.
  apply (@get_without_options_raises sample_sources api_without_options 0
           None 0); reflexivity.
Defined.

(** X26 on an API that answers with no address, asked with a timeout of
    three seconds: after 50 rounds [get] is still running. *)
Lemma get_ignores_timeout_on_empty_answers_witness :
  @Api.get sample_sources 50 api_with_options (Some 3%Z) 0 = None.
Proof.
  apply (@get_ignores_timeout_on_empty_answers sample_sources api_with_options
           [] 50 (Some 3%Z) 0).
  - reflexivity.
  - reflexivity.
  - intros url o' env'. exists 0. split; [reflexivity|].
    split; reflexivity.
Defined.

(** X27 at second 5, when the store holds an address. *)
Lemma get_zero_timeout_witness :
  @Redis.get sample_sources 1 (Redis.mk "proxies") (Some 0%Z) 5
  = Some (inl TimeoutError, 5).
Proof.
  apply (@get_zero_timeout sample_sources (Redis.mk "proxies") 0 0%Z 5).
  - intros env' start t' Ht. apply Z.ltb_ge. lia.
  - lia.
Defined.

(** X28 on a store that yields its address after two seconds. *)
Lemma get_nonempty_witness : "9.9.9.9:9"%string <> ""%string.
Proof.
  apply (@get_nonempty sample_sources (Redis.mk "proxies") 5 None 0 2
           "9.9.9.9:9"%string).
  vm_compute; reflexivity.
Defined.
